(** * LMS frontend: bulk student identity generator and API request wrapper

    A shallow embedding of

    - [generateNimAndPassword], [getNextOrderForToday] and the row loop of
      [handleUploadTemplate] (user management page), and
    - [getAuthToken] and [apiRequest] (src/lib/apiClient.ts),

    with the properties of them that the specification states, and of

    - the token store, the request helpers and [fetchPing] of the client,
    - the handlers of the user management page ([loadUsers], the table
      filter, the form, the row actions and the bulk dialog),
    - the authentication context (src/context/AuthContext.tsx), the guard
      of src/app/superadmin/layout.tsx and the submit handler of
      src/app/change-password/page.tsx,

    with further properties that the code has.

    Modelling conventions.

    - A JavaScript string is a [string]; each [ascii] stands for one UTF-16
      code unit in the range U+0000..U+00FF.  That range is closed under every
      string operation used by the code ([toLowerCase], [trim], [replace],
      [slice], [padStart], [String(n)]).
    - A JavaScript number of the generator is a [JS.Number]: a whole
      number or an infinity.  Sums and [parseInt] round to the nearest
      double and [String] prints the shortest numeral that reads back, so
      that from 2^53 on the model rounds, stalls and prints as the code
      does.  The fields of a date, a status and an id are integers [Z].
    - A [Set<string>] is a [gset string], a [Record<string, string>] is a
      [gmap string string]; the entries of the query object are the
      association list that [Object.entries] enumerates.
    - [while (true)] is a loop with fuel; running out of fuel is [None],
      and a loop that is [None] with every fuel never ends.
    - [fetch] is a function from the request to the response, [None] when
      it rejects; an [async] handler of a page is the function from the
      state it starts in to the state it ends in, with the requests it
      sent. *)

From Stdlib Require Import ZArith NArith List Ascii String Lia.
From stdpp Require Import base option gmap strings list pretty.

Local Set Warnings "-register-all".

Local Open Scope Z_scope.

(** ** JavaScript string primitives *)

Module JS.

(** The class [\s] of regular expressions, which is also the set of
    characters that [String.prototype.trim] strips: TAB, LF, VT, FF, CR,
    SPACE and NO-BREAK SPACE (the members below U+0100). *)
Definition isWhiteSpace (c : ascii) : bool :=
  let n := N_of_ascii c in
  ((9 <=? n) && (n <=? 13) || (n =? 32) || (n =? 160))%N.

(** [c.toLowerCase()] for one code unit: A-Z, and the Latin-1 capitals
    U+00C0..U+00DE except the multiplication sign U+00D7. *)
Definition toLowerCaseChar (c : ascii) : ascii :=
  let n := N_of_ascii c in
  if ((65 <=? n) && (n <=? 90)
      || (192 <=? n) && (n <=? 222) && negb (n =? 215))%N
  then ascii_of_N (n + 32) else c.

Fixpoint toLowerCase (s : string) : string :=
  match s with
  | EmptyString => EmptyString
  | String c s' => String (toLowerCaseChar c) (toLowerCase s')
  end.

(** [s.replace(/\s+/g, "")]: every maximal run of white space is replaced
    by the empty string; a white space character extends the run that is
    being dropped, any other character is copied. *)
Fixpoint removeWhiteSpace (s : string) : string :=
  match s with
  | EmptyString => EmptyString
  | String c s' =>
      if isWhiteSpace c then removeWhiteSpace s'
      else String c (removeWhiteSpace s')
  end.

(** [s.slice(0, n)]. *)
Fixpoint sliceTo (n : nat) (s : string) : string :=
  match n, s with
  | S n', String c s' => String c (sliceTo n' s')
  | _, _ => EmptyString
  end.

(** [s.slice(n)]. *)
Fixpoint sliceFrom (n : nat) (s : string) : string :=
  match n, s with
  | S n', String _ s' => sliceFrom n' s'
  | _, _ => s
  end.

Fixpoint repeatChar (c : ascii) (n : nat) : string :=
  match n with
  | O => EmptyString
  | S n' => String c (repeatChar c n')
  end.

(** [s.padStart(n, c)] for a one-character filler. *)
Definition padStart (n : nat) (c : ascii) (s : string) : string :=
  repeatChar c (n - String.length s) +:+ s.

(** [s.startsWith(p)]. *)
Definition startsWith (s p : string) : bool := String.prefix p s.

(** [s.includes(p)]. *)
Fixpoint includes (s p : string) : bool :=
  String.prefix p s
  || match s with
     | EmptyString => false
     | String _ s' => includes s' p
     end.

Fixpoint trimStart (s : string) : string :=
  match s with
  | EmptyString => EmptyString
  | String c s' => if isWhiteSpace c then trimStart s' else s
  end.

(** [trimEnd] keeps a character when something other than white space
    follows it. *)
Fixpoint trimEnd (s : string) : string :=
  match s with
  | EmptyString => EmptyString
  | String c s' =>
      match trimEnd s' with
      | EmptyString =>
          if isWhiteSpace c then EmptyString else String c EmptyString
      | t => String c t
      end
  end.

Definition trim (s : string) : string := trimEnd (trimStart s).

(** *** Numbers *)

(** The numbers of this program are whole or infinite; the [NaN] that
    [parseInt] may return is the [None] of [parseInt10].  [Finite z] is
    the number [z].  Every number that the program computes is a double:
    it comes out of [roundDouble], as does every whole number between
    -2^53 and 2^53.  A [Finite z] that is not a double is no number of
    the program; where one is written for a number read from a JSON text,
    [String] prints the double nearest to it. *)
Inductive Number := Finite (z : Z) | PosInfinity | NegInfinity.

Global Instance Number_eq_dec : EqDecision Number.
Proof. solve_decision. Defined.

(** The multiple of 2^e nearest to [a], for [a] from 2^53 on with
    [e + 53] bits: a significand has 53 bits, so the [e] lowest bits are
    rounded away, to the even significand when two multiples are equally
    near. *)
Definition nearestMultiple (a : Z) : Z :=
  let e := Z.log2 a - 52 in
  let q := a / 2 ^ e in
  let r := a mod 2 ^ e in
  let half := 2 ^ (e - 1) in
  (if (half <? r) || (r =? half) && Z.odd q then q + 1 else q) * 2 ^ e.

(** The double nearest to the integer [z]; an infinity from
    2^1024 - 2^970 on. *)
Definition roundDouble (z : Z) : Number :=
  let a := Z.abs z in
  if a <? 2 ^ 53 then Finite z
  else
    let m := nearestMultiple a in
    if 2 ^ 1024 <=? m then (if z <? 0 then NegInfinity else PosInfinity)
    else Finite (Z.sgn z * m).

(** [x + 1]. *)
Definition plusOne (x : Number) : Number :=
  match x with
  | Finite z => roundDouble (z + 1)
  | _ => x
  end.

(** [x < y]. *)
Definition ltb (x y : Number) : bool :=
  match x, y with
  | Finite a, Finite b => a <? b
  | NegInfinity, Finite _ | NegInfinity, PosInfinity
  | Finite _, PosInfinity => true
  | _, _ => false
  end.

(** [x > y]. *)
Definition gtb (x y : Number) : bool := ltb y x.

Definition lt (x y : Number) : Prop := ltb x y = true.

(** [x <= y]; there is no [NaN] among these numbers. *)
Definition le (x y : Number) : Prop := ltb y x = false.

(** Whether the double [a] is the one nearest to [v]. *)
Definition isNearest (a v : Z) : bool :=
  match roundDouble v with
  | Finite d => d =? a
  | _ => false
  end.

(** [Number::toString] for a double [a] from 2^53 on picks digits [s],
    [k] of them, and an exponent [n] such that [s × 10^(n-k)] has [a] as
    its nearest double, with [k] as small as possible; among several [s]
    it picks the one nearest to [a], the even one of two.  These are the
    candidates with [k] digits; [a] has [d] digits. *)
Definition digitCandidates (a d k : Z) : list (Z * Z) :=
  flat_map
    (λ n, if n - k <? 0 then []
          else
            let p := 10 ^ (n - k) in
            List.filter
              (λ sn : Z * Z,
                 (10 ^ (k - 1) <=? sn.1) && (sn.1 <? 10 ^ k)
                 && isNearest a (sn.1 * p))
              [(a / p, n); (a / p + 1, n)])
    [d; d + 1].

Definition distance (a k : Z) (sn : Z * Z) : Z :=
  Z.abs (sn.1 * 10 ^ (sn.2 - k) - a).

Definition better (a k : Z) (x y : Z * Z) : Z * Z :=
  if distance a k y <? distance a k x then y
  else if (distance a k y =? distance a k x) && Z.even y.1 then y
  else x.

(** Seventeen digits always suffice. *)
Fixpoint shortestFrom (fuel : nat) (a d k : Z) : Z * Z :=
  match fuel with
  | O => (a, d)
  | S fuel' =>
      match digitCandidates a d k with
      | c :: cs => fold_left (better a k) cs c
      | [] => shortestFrom fuel' a d (k + 1)
      end
  end.

Definition shortestDigits (a : Z) : Z * Z :=
  shortestFrom 17 a (Z.of_nat (String.length (pretty a))) 1.

(** The numeral of a double [a] from 2^53 on: the digits and then
    zeros up to 21 digits, the exponent form beyond. *)
Definition largeToString (a : Z) : string :=
  let '(s, n) := shortestDigits a in
  let digits := pretty s in
  let k := Z.of_nat (String.length digits) in
  if n <=? 21 then digits +:+ repeatChar "0" (Z.to_nat (n - k))
  else
    match digits with
    | String c EmptyString => String c ("e+" +:+ pretty (n - 1))
    | String c rest => String c ("." +:+ rest +:+ "e+" +:+ pretty (n - 1))
    | EmptyString => EmptyString
    end.

(** [String(x)] and [x.toString()]: below 2^53 the decimal numeral of
    the integer; from there on the numeral of the double nearest to it,
    which is what a numeral of that size in a JSON text denotes. *)
Definition numberToString (x : Number) : string :=
  match x with
  | Finite z =>
      if Z.abs z <? 2 ^ 53 then pretty z
      else
        match roundDouble z with
        | Finite d => (if d <? 0 then "-" else "") +:+ largeToString (Z.abs d)
        | PosInfinity => "Infinity"
        | NegInfinity => "-Infinity"
        end
  | PosInfinity => "Infinity"
  | NegInfinity => "-Infinity"
  end.

Definition isDigit (c : ascii) : bool :=
  let n := N_of_ascii c in ((48 <=? n) && (n <=? 57))%N.

Definition digitValue (c : ascii) : Z := Z.of_N (N_of_ascii c) - 48.

(** The longest prefix of decimal digits read as a number, most
    significant digit first; [acc] is the value read so far. *)
Fixpoint readDigits (acc : Z) (s : string) : Z :=
  match s with
  | String c s' =>
      if isDigit c then readDigits (10 * acc + digitValue c) s' else acc
  | EmptyString => acc
  end.

Definition startsWithDigit (s : string) : bool :=
  match s with
  | String c _ => isDigit c
  | EmptyString => false
  end.

(** [Number.parseInt(s, 10)]: leading white space is skipped, one sign is
    accepted, then the longest run of digits is read and its value goes
    to the nearest double; [None] is [NaN]. *)
Definition parseInt10 (s : string) : option Number :=
  let t := trimStart s in
  let sign := if startsWith t "-" then -1 else 1 in
  let body :=
    if startsWith t "-" || startsWith t "+" then sliceFrom 1 t else t in
  if startsWithDigit body then Some (roundDouble (sign * readDigits 0 body))
  else None.

End JS.

Coercion JS.Finite : Z >-> JS.Number.

(** ** The identity generator (user management page) *)

(** What the code reads from a [Date]: [getFullYear()], [getMonth()]
    (0 for January) and [getDate()]. *)
Record Date := mkDate { getFullYear : Z; getMonth : Z; getDate : Z }.

Record Generated := mkGenerated {
  g_nim : string;
  g_password : string;
  g_username : string
}.

Definition datePrefix (date : Date) : string :=
  let year := JS.numberToString (getFullYear date) in
  let month := JS.padStart 2 "0" (JS.numberToString (getMonth date + 1)) in
  let day := JS.padStart 2 "0" (JS.numberToString (getDate date)) in
  year +:+ month +:+ day.

Definition generateNimAndPassword (name : string) (order : JS.Number)
    (date : Date)
  : Generated :=
  let year := JS.numberToString (getFullYear date) in
  let month := JS.padStart 2 "0" (JS.numberToString (getMonth date + 1)) in
  let day := JS.padStart 2 "0" (JS.numberToString (getDate date)) in
  let orderStr := JS.padStart 3 "0" (JS.numberToString order) in
  let nim := year +:+ month +:+ day +:+ orderStr in
  let normalizedName :=
    JS.sliceTo 7 (JS.toLowerCase (JS.removeWhiteSpace name)) in
  let password := normalizedName +:+ orderStr in
  let username := nim in
  {| g_nim := nim; g_password := password; g_username := username |}.


Inductive UserRole := superadmin | dosen | mahasiswa.

Global Instance UserRole_eq_dec : EqDecision UserRole.
Proof. solve_decision. Defined.

(** The fields of [User] that the generator reads. *)
Record User := mkUser {
  u_name : string;
  u_username : string;
  u_nim : option string;          (* string | null *)
  u_role : UserRole
}.

(** One iteration of the [users.forEach] callback of
    [getNextOrderForToday]; the result is the new value of [maxOrder]. *)
Definition nextOrderStep (prefix : string) (maxOrder : JS.Number)
    (u : User) : JS.Number :=
  match u_nim u with
  | None => maxOrder
  | Some raw =>
      if bool_decide (u_role u ≠ mahasiswa) || bool_decide (raw = "")
      then maxOrder
      else
        let nim := JS.trim raw in
        if negb (JS.startsWith nim prefix) then maxOrder
        else
          let suffix := JS.sliceFrom (String.length prefix) nim in
          if (String.length suffix =? 0)%nat then maxOrder
          else
            match JS.parseInt10 suffix with
            | Some n => if JS.gtb n maxOrder then n else maxOrder
            | None => maxOrder
            end
  end.

Definition getNextOrderForToday (users : list User) (date : Date)
  : JS.Number :=
  let prefix := datePrefix date in
  let maxOrder := fold_left (nextOrderStep prefix) users (JS.Finite 0) in
  JS.plusOne maxOrder.


(** A row of the uploaded sheet as [sheet_to_json] returns it; only
    [Nama] is read ([None] is a missing cell). *)
Record SheetRow := mkSheetRow { Nama : option string }.

Record BulkStudentRow := mkBulkStudentRow {
  order : JS.Number;
  name : string;
  nim : string;
  username : string;
  password : string
}.

(** The variables that the [json.forEach] callback of
    [handleUploadTemplate] reads and updates. *)
Record BatchState := mkBatchState {
  baseOrder : JS.Number;
  rows : list BulkStudentRow;
  usedNims : gset string;
  usedUsernames : gset string
}.

(** The [while (true)] loop: from [candidateOrder] on, [candidateOrder += 1]
    until the NIM and the username are both unused. *)
Fixpoint findFreeOrder (fuel : nat) (rawName : string)
    (candidateOrder : JS.Number) (now : Date) (usedN usedU : gset string)
  : option (JS.Number * Generated) :=
  match fuel with
  | O => None
  | S fuel' =>
      let generated := generateNimAndPassword rawName candidateOrder now in
      let nimUsed := bool_decide (g_nim generated ∈ usedN) in
      let usernameUsed := bool_decide (g_username generated ∈ usedU) in
      if negb nimUsed && negb usernameUsed
      then Some (candidateOrder, generated)
      else findFreeOrder fuel' rawName (JS.plusOne candidateOrder) now
             usedN usedU
  end.

(** The body of the [json.forEach] callback. *)
Definition processRow (fuel : nat) (now : Date) (st : BatchState)
    (row : SheetRow) : option BatchState :=
  let rawName := JS.trim (default "" (Nama row)) in
  if bool_decide (rawName = "") then Some st
  else
    '(candidateOrder, generated) ←
      findFreeOrder fuel rawName (baseOrder st) now
        (usedNims st) (usedUsernames st);
    Some {| rows := rows st ++
              [ {| order := candidateOrder;
                   name := rawName;
                   nim := g_nim generated;
                   username := g_username generated;
                   password := g_password generated |} ];
            usedNims := {[ g_nim generated ]} ∪ usedNims st;
            usedUsernames := {[ g_username generated ]} ∪ usedUsernames st;
            baseOrder := JS.plusOne candidateOrder |}.

(** [json.forEach(...)]: the rows in order, each from the state the one
    before left. *)
Fixpoint forEachRow (fuel : nat) (now : Date) (json : list SheetRow)
    (st : BatchState) : option BatchState :=
  match json with
  | [] => Some st
  | row :: json' =>
      st' ← processRow fuel now st row;
      forEachRow fuel now json' st'
  end.

(** The batch allocation loop from a start order and the two used sets. *)
Definition allocateBatch (fuel : nat) (json : list SheetRow)
    (start : JS.Number) (now : Date) (usedN usedU : gset string)
  : option BatchState :=
  forEachRow fuel now json
    {| baseOrder := start; rows := []; usedNims := usedN;
       usedUsernames := usedU |}.

(** The part of [handleUploadTemplate] around the loop: the used sets are
    the trimmed usernames and NIMs of the users already loaded, the start
    order comes from [getNextOrderForToday]. *)
Definition existingUsernames (users : list User) : gset string :=
  list_to_set
    (omap (λ u, if bool_decide (u_username u = "") then None
                else Some (JS.trim (u_username u))) users).

Definition existingNims (users : list User) : gset string :=
  list_to_set
    (omap (λ u, match u_nim u with
                | Some n => if bool_decide (n = "") then None
                            else Some (JS.trim n)
                | None => None
                end) users).

Definition handleUploadTemplate (fuel : nat) (users : list User)
    (json : list SheetRow) (now : Date) : option (list BulkStudentRow) :=
  rows <$> allocateBatch fuel json (getNextOrderForToday users now) now
             (existingNims users) (existingUsernames users).


(** ** The API client (src/lib/apiClient.ts) *)

Module ApiClient.

Inductive HttpMethod := GET | POST | PUT | PATCH | DELETE.

Global Instance HttpMethod_eq_dec : EqDecision HttpMethod.
Proof. solve_decision. Defined.

(** A parsed JSON value; an object is the finite map of its properties.
    Numbers are integers. *)
Inductive JSON :=
  | JNull
  | JBool (b : bool)
  | JNumber (n : Z)
  | JString (s : string)
  | JArray (l : list JSON)
  | JObject (fields : gmap string JSON).

Definition isNull (v : JSON) : bool :=
  match v with
  | JNull => true
  | _ => false
  end.

(** A value of the query object:
    [string | number | boolean | null | undefined]. *)
Inductive QueryValue :=
  | QString (s : string)
  | QNumber (n : Z)
  | QBoolean (b : bool)
  | QNull
  | QUndefined.

(** [FormData] is kept as its list of fields. *)
Definition FormData := list (string * string).

(** The [body] option: absent, a [FormData], or any other value (which
    includes [null]). *)
Inductive Body :=
  | BodyUndefined
  | BodyFormData (fd : FormData)
  | BodyValue (v : JSON).

Record ApiRequestOptions := mkOptions {
  path : string;
  method : option HttpMethod;
  body : Body;
  query : option (list (string * QueryValue));
  headers : option (gmap string string);
  withAuth : option bool;
  tokenOverride : option string      (* None: undefined or null *)
}.

(** *** Token management *)

(** [window.localStorage] as [getAuthToken] sees it: no [window] at all, a
    storage whose access throws, or the value stored under
    [LOCAL_STORAGE_KEY]. *)
Inductive Storage :=
  | NoWindow
  | StorageThrows
  | StorageSlot (stored : option string).

Record ClientState := mkClientState {
  authToken : option string;
  localStorage : Storage
}.

(** Truthiness of a [string | null]. *)
Definition truthyString (s : option string) : bool :=
  match s with
  | Some s => negb (bool_decide (s = ""))
  | None => false
  end.

Definition setAuthToken (token : string) (st : ClientState) : ClientState :=
  {| authToken := Some token;
     localStorage :=
       match localStorage st with
       | StorageSlot _ => StorageSlot (Some token)
       | other => other
       end |}.

Definition getAuthToken (st : ClientState) : option string * ClientState :=
  if truthyString (authToken st) then (authToken st, st)
  else
    match localStorage st with
    | StorageSlot stored =>
        if truthyString stored
        then (stored,
              {| authToken := stored; localStorage := localStorage st |})
        else (None, st)
    | _ => (None, st)
    end.

Definition clearAuthToken (st : ClientState) : ClientState :=
  {| authToken := None;
     localStorage :=
       match localStorage st with
       | StorageSlot _ => StorageSlot None
       | other => other
       end |}.

(** *** Building the URL *)

Definition isSlash (c : ascii) : bool := bool_decide (c = "/"%char).

Fixpoint allSlashes (s : string) : bool :=
  match s with
  | EmptyString => true
  | String c s' => isSlash c && allSlashes s'
  end.

(** [s.replace(/\/+$/, "")]: the first position from which only slashes
    follow up to the end starts the match. *)
Fixpoint stripTrailingSlashes (s : string) : string :=
  match s with
  | EmptyString => EmptyString
  | String c s' =>
      if isSlash c && allSlashes s' then EmptyString
      else String c (stripTrailingSlashes s')
  end.

(** [s.replace(/^\/+/, "")]: the run of slashes at position 0. *)
Fixpoint stripLeadingSlashes (s : string) : string :=
  match s with
  | EmptyString => EmptyString
  | String c s' => if isSlash c then stripLeadingSlashes s' else s
  end.

Definition hexDigit (n : N) : ascii :=
  if (n <? 10)%N then ascii_of_N (48 + n) else ascii_of_N (55 + n).

Definition percentEncodeByte (b : N) : string :=
  String "%" (String (hexDigit (b / 16)) (String (hexDigit (b mod 16)) "")).

(** The bytes of the UTF-8 encoding of a code unit below U+0100. *)
Definition utf8Encode (c : ascii) : list N :=
  let n := N_of_ascii c in
  if (n <? 128)%N then [n] else [(192 + n / 64)%N; (128 + n mod 64)%N].

(** Bytes that the [application/x-www-form-urlencoded] serializer leaves
    as they are: ASCII letters and digits, [*], [-], [.] and [_]. *)
Definition urlencodedSafe (b : N) : bool :=
  ((48 <=? b) && (b <=? 57) || (65 <=? b) && (b <=? 90)
   || (97 <=? b) && (b <=? 122)
   || (b =? 42) || (b =? 45) || (b =? 46) || (b =? 95))%N.

Definition urlencodeByte (b : N) : string :=
  if (b =? 32)%N then "+"
  else if urlencodedSafe b then String (ascii_of_N b) ""
  else percentEncodeByte b.

Definition urlencodeChar (c : ascii) : string :=
  fold_right (λ b acc, urlencodeByte b +:+ acc) "" (utf8Encode c).

Fixpoint urlencode (s : string) : string :=
  match s with
  | EmptyString => EmptyString
  | String c s' => urlencodeChar c +:+ urlencode s'
  end.

(** [URLSearchParams.prototype.toString]. *)
Fixpoint serializeParams (params : list (string * string)) : string :=
  match params with
  | [] => ""
  | [(k, v)] => urlencode k +:+ "=" +:+ urlencode v
  | (k, v) :: rest =>
      urlencode k +:+ "=" +:+ urlencode v +:+ "&" +:+ serializeParams rest
  end.

(** [String(value)] for a query value that passed the guard. *)
Definition queryValueToString (v : QueryValue) : string :=
  match v with
  | QString s => s
  | QNumber n => JS.numberToString n
  | QBoolean b => if b then "true" else "false"
  | QNull => "null"
  | QUndefined => "undefined"
  end.

(** The guard [value === null || value === undefined || value === ""]. *)
Definition querySkipped (v : QueryValue) : bool :=
  match v with
  | QNull | QUndefined => true
  | QString s => bool_decide (s = "")
  | _ => false
  end.

(** The [for ... of Object.entries(query)] loop: the pairs appended to
    [params], in order. *)
Fixpoint appendParams (entries : list (string * QueryValue))
  : list (string * string) :=
  match entries with
  | [] => []
  | (key, value) :: rest =>
      if querySkipped value then appendParams rest
      else (key, queryValueToString value) :: appendParams rest
  end.

Definition baseUrl (API_BASE_URL path : string) : string :=
  if JS.startsWith path "http" then path
  else stripTrailingSlashes API_BASE_URL +:+ "/" +:+ stripLeadingSlashes path.

Definition addQuery (url : string)
    (query : option (list (string * QueryValue))) : string :=
  match query with
  | Some ((_ :: _) as entries) =>
      let qs := serializeParams (appendParams entries) in
      if bool_decide (qs = "") then url
      else url +:+ (if JS.includes url "?" then "&" else "?") +:+ qs
  | _ => url
  end.

Definition buildUrl (API_BASE_URL : string) (options : ApiRequestOptions)
  : string :=
  addQuery (baseUrl API_BASE_URL (path options)) (query options).

(** *** Headers, body and authorization *)

(** What is handed to [fetch] as the body: the text
    [JSON.stringify(body)], kept as the value it serializes, or the form
    data itself. *)
Inductive RequestBody :=
  | JsonText (v : JSON)
  | FormDataBody (fd : FormData).

Record Request := mkRequest {
  req_url : string;
  req_method : HttpMethod;
  req_headers : gmap string string;
  req_body : option RequestBody
}.

(** [{ Accept: "application/json", ...headers }], then the content type
    for a serialized body. *)
Definition contentHeaders (options : ApiRequestOptions)
  : gmap string string :=
  let requestHeaders :=
    default ∅ (headers options) ∪ {[ "Accept" := "application/json" ]} in
  match body options with
  | BodyValue v =>
      if isNull v then requestHeaders
      else <[ "Content-Type" :=
                default "application/json"
                  (requestHeaders !! "Content-Type") ]> requestHeaders
  | _ => requestHeaders
  end.

Definition requestBodyOf (b : Body) : option RequestBody :=
  match b with
  | BodyUndefined => None
  | BodyValue v => if isNull v then None else Some (JsonText v)
  | BodyFormData fd => Some (FormDataBody fd)
  end.

(** [tokenOverride ?? getAuthToken()]; the stored token is only consulted
    when no override is given. *)
Definition resolveToken (options : ApiRequestOptions) (st : ClientState)
  : option string * ClientState :=
  match tokenOverride options with
  | Some t => (Some t, st)
  | None => getAuthToken st
  end.

Definition authHeaders (options : ApiRequestOptions) (st : ClientState)
    (requestHeaders : gmap string string)
  : gmap string string * ClientState :=
  if default true (withAuth options) then
    let '(token, st') := resolveToken options st in
    if truthyString token
    then (<[ "Authorization" := "Bearer " +:+ default "" token ]>
            requestHeaders, st')
    else (requestHeaders, st')
  else (requestHeaders, st).

Definition buildRequest (API_BASE_URL : string) (st : ClientState)
    (options : ApiRequestOptions) : Request * ClientState :=
  let url := buildUrl API_BASE_URL options in
  let method := default GET (method options) in
  let '(requestHeaders, st') :=
    authHeaders options st (contentHeaders options) in
  ({| req_url := url;
      req_method := method;
      req_headers := requestHeaders;
      req_body := if bool_decide (method = GET) then None
                  else requestBodyOf (body options) |}, st').

(** *** Handling the response *)

(** What [apiRequest] reads from the [Response]: the status, the
    [Content-Type] header ([None] when [headers.get] returns [null]) and
    the value [response.json()] resolves to ([None] when it rejects). *)
Record Response := mkResponse {
  status : Z;
  contentType : option string;
  json : option JSON
}.

(** [response.ok]. *)
Definition ok (response : Response) : bool :=
  (200 <=? status response) && (status response <=? 299).

Record ApiError := mkApiError {
  err_message : string;
  err_status : Z;
  err_data : JSON
}.

(** How the promise of [apiRequest] settles: resolved with a value,
    rejected with an [ApiError], or rejected by [fetch] itself. *)
Inductive Outcome :=
  | Returned (v : JSON)
  | Thrown (e : ApiError)
  | FetchRejected.

(** [ToBoolean]. *)
Definition truthy (v : JSON) : bool :=
  match v with
  | JNull => false
  | JBool b => b
  | JNumber n => negb (n =? 0)
  | JString s => negb (bool_decide (s = ""))
  | JArray _ | JObject _ => true
  end.

(** [typeof v === "object"]. *)
Definition typeofObject (v : JSON) : bool :=
  match v with
  | JNull | JArray _ | JObject _ => true
  | _ => false
  end.

(** [v.key] for a key that no prototype defines; [None] is [undefined]. *)
Definition getProperty (v : JSON) (key : string) : option JSON :=
  match v with
  | JObject fields => fields !! key
  | _ => None
  end.

Definition truthyProperty (p : option JSON) : bool :=
  match p with
  | Some v => truthy v
  | None => false
  end.

(** [ToString], which [new Error(message)] applies to its argument. *)
Fixpoint toString (v : JSON) : string :=
  match v with
  | JNull => "null"
  | JBool b => if b then "true" else "false"
  | JNumber n => JS.numberToString n
  | JString s => s
  | JArray l =>
      (fix join (l : list JSON) : string :=
         match l with
         | [] => ""
         | [e] => if isNull e then "" else toString e
         | e :: l' => (if isNull e then "" else toString e) +:+ "," +:+ join l'
         end) l
  | JObject _ => "[object Object]"
  end.

(** [p ?? q] where [q] is already a string. *)
Definition coalesce (p : option JSON) (q : string) : string :=
  match p with
  | Some v => if isNull v then q else toString v
  | None => q
  end.

Definition isJsonResponse (response : Response) : bool :=
  JS.includes (default "" (contentType response)) "application/json".

(** [isJson ? await response.json().catch(() => null) : null]. *)
Definition responseDataOf (response : Response) : JSON :=
  if isJsonResponse response then default JNull (json response) else JNull.

Definition errorMessage (response : Response) (responseData : JSON)
  : string :=
  let message :=
    "Request failed with status " +:+ JS.numberToString (status response) in
  if isJsonResponse response && truthy responseData
     && typeofObject responseData
  then
    let m := getProperty responseData "message" in
    let e := getProperty responseData "error" in
    if truthyProperty m || truthyProperty e
    then coalesce m (coalesce e message)
    else message
  else message.

Definition handleResponse (response : Response) : Outcome :=
  let responseData := responseDataOf response in
  if negb (ok response)
  then Thrown {| err_message := errorMessage response responseData;
                 err_status := status response;
                 err_data := responseData |}
  else Returned responseData.

(** [apiRequest]: [fetch] is the transport, [None] when it rejects. *)
Definition apiRequest (API_BASE_URL : string)
    (fetch : Request → option Response) (st : ClientState)
    (options : ApiRequestOptions) : Outcome * ClientState :=
  let '(request, st') := buildRequest API_BASE_URL st options in
  match fetch request with
  | Some response => (handleResponse response, st')
  | None => (FetchRejected, st')
  end.

(** [apiGet(path, query, options)]: [rest] gives the options other than
    [path], [method] and [query]. *)
Definition apiGet (API_BASE_URL : string)
    (fetch : Request → option Response) (st : ClientState)
    (path : string) (query : option (list (string * QueryValue)))
    (rest : ApiRequestOptions) : Outcome * ClientState :=
  apiRequest API_BASE_URL fetch st
    {| path := path; method := Some GET; query := query;
       body := body rest; headers := headers rest;
       withAuth := withAuth rest; tokenOverride := tokenOverride rest |}.

(** The options of the helpers below other than [path], [method] and the
    argument they pass on are taken from [rest]. *)
Definition apiPost (API_BASE_URL : string)
    (fetch : Request → option Response) (st : ClientState)
    (path : string) (body : Body) (rest : ApiRequestOptions)
  : Outcome * ClientState :=
  apiRequest API_BASE_URL fetch st
    {| path := path; method := Some POST; body := body;
       query := query rest; headers := headers rest;
       withAuth := withAuth rest; tokenOverride := tokenOverride rest |}.

Definition apiPut (API_BASE_URL : string)
    (fetch : Request → option Response) (st : ClientState)
    (path : string) (body : Body) (rest : ApiRequestOptions)
  : Outcome * ClientState :=
  apiRequest API_BASE_URL fetch st
    {| path := path; method := Some PUT; body := body;
       query := query rest; headers := headers rest;
       withAuth := withAuth rest; tokenOverride := tokenOverride rest |}.

Definition apiDelete (API_BASE_URL : string)
    (fetch : Request → option Response) (st : ClientState)
    (path : string) (rest : ApiRequestOptions) : Outcome * ClientState :=
  apiRequest API_BASE_URL fetch st
    {| path := path; method := Some DELETE; body := body rest;
       query := query rest; headers := headers rest;
       withAuth := withAuth rest; tokenOverride := tokenOverride rest |}.

End ApiClient.

(** ** Notions used to state the properties *)

Fixpoint allChars (p : ascii → bool) (s : string) : bool :=
  match s with
  | EmptyString => true
  | String c s' => p c && allChars p s'
  end.

Definition noWhiteSpace (s : string) : bool :=
  allChars (λ c, negb (JS.isWhiteSpace c)) s.

(** A name that is empty or consists of white space only. *)
Definition isBlank (s : string) : bool := allChars JS.isWhiteSpace s.

Definition digitChar (d : N) : ascii := ascii_of_N (48 + d).

(** The [k] lowest decimal digits of [n], most significant first. *)
Fixpoint fixedDigits (k : nat) (n : N) : string :=
  match k with
  | O => EmptyString
  | S k' =>
      String (digitChar ((n / 10 ^ N.of_nat k') mod 10)) (fixedDigits k' n)
  end.

(** [n] zero-padded to [k] digits: exactly [k] digits when that many
    suffice, the plain decimal numeral otherwise. *)
Definition zeroPadded (k : nat) (n : Z) : string :=
  if n <? 10 ^ Z.of_nat k then fixedDigits k (Z.to_N n)
  else pretty n.

(** The value of a numeral in positional notation. *)
Fixpoint decimalValue (s : string) : Z :=
  match s with
  | EmptyString => 0
  | String c s' =>
      JS.digitValue c * 10 ^ Z.of_nat (String.length s') + decimalValue s'
  end.

Fixpoint dropZeros (s : string) : string :=
  match s with
  | String c s' => if bool_decide (c = "0"%char) then dropZeros s' else s
  | EmptyString => EmptyString
  end.

(** The integer that a zero-padded numeral, possibly with a sign after the
    padding, stands for. *)
Definition paddedValue (s : string) : Z :=
  let t := dropZeros s in
  if JS.startsWith t "-" then - decimalValue (JS.sliceFrom 1 t)
  else decimalValue t.

(** A name with all white space removed: the characters that are not
    white space, in their order. *)
Definition withoutWhiteSpace (s : string) : string :=
  string_of_list_ascii
    (filter (λ c, JS.isWhiteSpace c = false) (list_ascii_of_string s)).

(** The existing identifiers that [getNextOrderForToday] scans: the NIMs
    of the students, in their trimmed string form. *)
Definition studentNims (users : list User) : list string :=
  omap (λ u, match u_nim u with
             | Some raw =>
                 if bool_decide (u_role u = mahasiswa ∧ raw ≠ "")
                 then Some (JS.trim raw) else None
             | None => None
             end) users.

(** The digits that a string starts with. *)
Fixpoint leadingDigits (s : string) : string :=
  match s with
  | String c s' => if JS.isDigit c then String c (leadingDigits s') else ""
  | EmptyString => ""
  end.

(** A sign in front of a numeral and what follows it. *)
Definition signAndBody (t : string) : Z * string :=
  match t with
  | String "-" u => (-1, u)
  | String "+" u => (1, u)
  | _ => (1, t)
  end.

(** The whole number that the text [r] after the prefix stands for, with
    no rounding: white space in front is skipped, one sign is accepted,
    and the digits up to the first other character are read in positional
    notation; a text with no digit there stands for no number. *)
Definition numericSuffix (r : string) : option Z :=
  let '(sign, body) := signAndBody (JS.trimStart r) in
  match leadingDigits body with
  | EmptyString => None
  | digits => Some (sign * decimalValue digits)
  end.

(** The texts that follow [prefix] in the identifiers that start with
    it. *)
Definition matchingSuffixes (prefix : string) (ids : list string)
  : list string :=
  omap (λ id, if String.prefix prefix id
              then Some (JS.sliceFrom (String.length prefix) id)
              else None) ids.

(** The largest of the numbers in [numbers], and 0 when none is above
    it. *)
Definition largest (numbers : list Z) : Z := foldr Z.max 0 numbers.

(** The name cell of a sheet row as the loop reads it:
    [(row.Nama ?? "").toString()]. *)
Definition rowName (row : SheetRow) : string := default "" (Nama row).

(** What the row loop maintains, relative to the used sets [usedN] and
    [usedU] at its start. *)
Definition batchInvariant (usedN usedU : gset string) (st : BatchState)
  : Prop :=
  NoDup (nim <$> rows st)
  ∧ usedN ⊆ usedNims st
  ∧ usedU ⊆ usedUsernames st
  ∧ (size (usedNims st) + size (usedUsernames st)
     ≤ size usedN + size usedU + 2 * length (rows st))%nat
  ∧ ∀ r, r ∈ rows st →
      username r = nim r
      ∧ nim r ∈ usedNims st
      ∧ username r ∈ usedUsernames st
      ∧ nim r ∉ usedN ∪ usedU.

(** *** Notions for the API client *)

Import ApiClient.

Fixpoint endsWithSlash (s : string) : bool :=
  match s with
  | EmptyString => false
  | String c EmptyString => isSlash c
  | String _ s' => endsWithSlash s'
  end.

(** The text of the fallback error message. *)
Definition genericMessage (code : Z) : string :=
  "Request failed with status " +:+ JS.numberToString code.


(** One query parameter in the URL. *)
Definition encodedPair (entry : string * QueryValue) : string :=
  urlencode entry.1 +:+ "=" +:+ urlencode (queryValueToString entry.2).

(** The entries of the query object that reach the URL. *)
Definition keptEntries (entries : list (string * QueryValue))
  : list (string * QueryValue) :=
  filter (λ entry, querySkipped entry.2 = false) entries.

(** Characters that delimit the parts of a URL or of its query string. *)
Definition isDelimiter (c : ascii) : bool :=
  bool_decide (c ∈ ["&"; "="; "?"; "#"; "/"; " "]%char).

(** The URL that [apiRequest] hands to [fetch]. *)
Definition requestUrl (API_BASE_URL : string) (st : ClientState)
    (options : ApiRequestOptions) : string :=
  req_url (buildRequest API_BASE_URL st options).1.

(** The headers that [apiRequest] hands to [fetch]. *)
Definition requestHeaders (API_BASE_URL : string) (st : ClientState)
    (options : ApiRequestOptions) : gmap string string :=
  req_headers (buildRequest API_BASE_URL st options).1.

(** ** Further notions for the batch loop *)

(** The row that the loop records for a name and the order it settled
    on. *)
Definition rowOf (now : Date) (rawName : string) (candidateOrder : JS.Number)
  : BulkStudentRow :=
  let generated := generateNimAndPassword rawName candidateOrder now in
  {| order := candidateOrder;
     name := rawName;
     nim := g_nim generated;
     username := g_username generated;
     password := g_password generated |}.

(** The NIM or the username of the order [c] is taken. *)
Definition taken (rawName : string) (now : Date) (usedN usedU : gset string)
    (c : JS.Number) : Prop :=
  g_nim (generateNimAndPassword rawName c now) ∈ usedN
  ∨ g_username (generateNimAndPassword rawName c now) ∈ usedU.

(** The orders of the rows are whole numbers from [start] up to below the
    next base order [b], and they grow strictly. *)
Definition batchOrdered (start b : Z) (st : BatchState) : Prop :=
  baseOrder st = JS.Finite b ∧ start ≤ b
  ∧ (∀ r, r ∈ rows st → ∃ o : Z, order r = JS.Finite o ∧ start ≤ o < b)
  ∧ (∀ i j ri rj, (i < j)%nat →
       rows st !! i = Some ri → rows st !! j = Some rj →
       JS.lt (order ri) (order rj)).

(** ** Further notions for the API client *)

(** The module state when the script is loaded: [authToken] is [null],
    the storage is whatever the browser kept. *)
Definition initialState (storage : Storage) : ClientState :=
  {| authToken := None; localStorage := storage |}.

(** [fetchPing()]: [apiGet("/api/ping", undefined, { withAuth: false })]. *)
Definition fetchPing (API_BASE_URL : string)
    (fetch : Request → option Response) (st : ClientState)
  : Outcome * ClientState :=
  apiGet API_BASE_URL fetch st "/api/ping" None
    {| path := ""; method := None; body := BodyUndefined; query := None;
       headers := None; withAuth := Some false; tokenOverride := None |}.

(** The value of a hexadecimal digit written with [0-9A-F]. *)
Definition hexValue (c : ascii) : N :=
  let n := N_of_ascii c in
  if (n <? 58)%N then (n - 48)%N else (n - 55)%N.

(** Reads back the first character of a urlencoded text: a [+] is a
    space, [%XX] is a byte, two bytes when the first one is 0x80 or above,
    anything else is itself. *)
Definition urldecodeChar (s : string) : option (ascii * string) :=
  match s with
  | EmptyString => None
  | String c r =>
      if bool_decide (c = "+"%char) then Some (" "%char, r)
      else if bool_decide (c = "%"%char) then
        match r with
        | String h1 (String h2 r2) =>
            let b := (hexValue h1 * 16 + hexValue h2)%N in
            if (b <? 128)%N then Some (ascii_of_N b, r2)
            else
              match r2 with
              | String _ (String h3 (String h4 r4)) =>
                  let b2 := (hexValue h3 * 16 + hexValue h4)%N in
                  Some (ascii_of_N ((b - 192) * 64 + (b2 - 128)), r4)
              | _ => None
              end
        | _ => None
        end
      else Some (c, r)
  end.

(** ** The pages that call the API client *)

Module Pages.

(** What the pages run against: the base URL, the transport, whose answer
    to a request may depend on the requests sent before it, and the
    message texts of the two errors that the engine words itself (the
    error [fetch] rejects with and the [TypeError] of reading a property
    of [null]). *)
Record Env := mkEnv {
  baseURL : string;
  transport : list Request → Request → option Response;
  networkErrorText : string;
  typeErrorText : string
}.

(** The client state and the requests handed to [fetch] so far. *)
Record World := mkWorld { client : ClientState; sent : list Request }.

(** One [await apiRequest(options)]. *)
Definition send (env : Env) (w : World) (options : ApiRequestOptions)
  : Outcome * World :=
  let '(outcome, st') :=
    apiRequest (baseURL env) (transport env (sent w)) (client w) options in
  (outcome,
   {| client := st';
      sent := sent w
              ++ [(buildRequest (baseURL env) (client w) options).1] |}).

(** [options ?? {}] with nothing set, and [{ withAuth: b }]. *)
Definition noOptions : ApiRequestOptions :=
  {| path := ""; method := None; body := BodyUndefined; query := None;
     headers := None; withAuth := None; tokenOverride := None |}.

Definition withAuthOption (b : bool) : ApiRequestOptions :=
  {| path := ""; method := None; body := BodyUndefined; query := None;
     headers := None; withAuth := Some b; tokenOverride := None |}.

(** The option records that [apiGet], [apiPost], [apiPut] and
    [apiDelete] hand to [apiRequest]. *)
Definition getOptions (path : string)
    (query : option (list (string * QueryValue)))
    (rest : ApiRequestOptions) : ApiRequestOptions :=
  {| path := path; method := Some GET; query := query;
     body := body rest; headers := headers rest;
     withAuth := withAuth rest; tokenOverride := tokenOverride rest |}.

Definition postOptions (path : string) (body : Body)
    (rest : ApiRequestOptions) : ApiRequestOptions :=
  {| path := path; method := Some POST; body := body;
     query := query rest; headers := headers rest;
     withAuth := withAuth rest; tokenOverride := tokenOverride rest |}.

Definition putOptions (path : string) (body : Body)
    (rest : ApiRequestOptions) : ApiRequestOptions :=
  {| path := path; method := Some PUT; body := body;
     query := query rest; headers := headers rest;
     withAuth := withAuth rest; tokenOverride := tokenOverride rest |}.

Definition deleteOptions (path : string) (rest : ApiRequestOptions)
  : ApiRequestOptions :=
  {| path := path; method := Some DELETE; body := body rest;
     query := query rest; headers := headers rest;
     withAuth := withAuth rest; tokenOverride := tokenOverride rest |}.

(** The [message] of what an awaited call threw; every error that
    [apiRequest] lets through is an [Error]. *)
Definition failureText (env : Env) (outcome : Outcome) : option string :=
  match outcome with
  | Returned _ => None
  | Thrown e => Some (err_message e)
  | FetchRejected => Some (networkErrorText env)
  end.

(** [message || fallback]. *)
Definition orElse (message fallback : string) : string :=
  if bool_decide (message = "") then fallback else message.

(** *** User management page: the list *)

Definition extractArray (value : JSON) : list JSON :=
  match value with
  | JArray l => l
  | JObject fields =>
      match fields !! "data" with
      | Some (JArray l) => l
      | _ => []
      end
  | _ => []
  end.

Inductive UserStatus := active | inactive.

Global Instance UserStatus_eq_dec : EqDecision UserStatus.
Proof. solve_decision. Defined.

Definition roleText (r : UserRole) : string :=
  match r with
  | superadmin => "superadmin"
  | dosen => "dosen"
  | mahasiswa => "mahasiswa"
  end.

Definition statusText (s : UserStatus) : string :=
  match s with
  | active => "active"
  | inactive => "inactive"
  end.

(** The filter controls; [None] is the choice "all". *)
Record UserFilters := mkUserFilters {
  roleFilter : option UserRole;
  statusFilter : option UserStatus;
  keyword : string
}.

(** The [params] object of [loadUsers], as [Object.entries] lists it. *)
Definition loadUsersParams (f : UserFilters) : list (string * QueryValue) :=
  match roleFilter f with
  | Some r => [("role", QString (roleText r))]
  | None => []
  end
  ++ match statusFilter f with
     | Some s => [("status", QString (statusText s))]
     | None => []
     end
  ++ (if bool_decide (JS.trim (keyword f) = "") then []
      else [("keyword", QString (JS.trim (keyword f)))]).

(** The state variables that [loadUsers] writes; the users are the
    response items as they came. *)
Record UserList := mkUserList {
  users : list JSON;
  loading : bool;
  error : option string
}.

Definition loadUsers (env : Env) (f : UserFilters) (w : World)
    (ul : UserList) : UserList * World :=
  let '(outcome, w') :=
    send env w
      (getOptions "/api/admin/users" (Some (loadUsersParams f))
         (withAuthOption true)) in
  (match outcome with
   | Returned res =>
       {| users := extractArray res; loading := false; error := None |}
   | _ =>
       {| users := users ul; loading := false;
          error := Some (orElse (default "" (failureText env outcome))
                           "Gagal memuat data pengguna.") |}
   end, w').

(** *** User management page: the table and the row actions *)

(** A [User] of the page with all its fields. *)
Record PageUser := mkPageUser {
  user_id : Z;
  user_name : string;
  user_email : option string;
  user_username : string;
  user_nim : option string;
  user_role : UserRole;
  user_status : UserStatus;
  user_force_password_change : bool
}.

Inductive UserSection := sectionCivitas | sectionMahasiswa.

Global Instance UserSection_eq_dec : EqDecision UserSection.
Proof. solve_decision. Defined.

(** The callback of [users.filter] behind [usersForTable]. *)
Definition shownInTable (section : UserSection) (f : UserFilters)
    (u : PageUser) : bool :=
  if bool_decide (section = sectionCivitas)
     && bool_decide (user_role u = mahasiswa) then false
  else if bool_decide (section = sectionMahasiswa)
          && bool_decide (user_role u ≠ mahasiswa) then false
  else if bool_decide (roleFilter f ≠ None)
          && bool_decide (Some (user_role u) ≠ roleFilter f) then false
  else if bool_decide (statusFilter f ≠ None)
          && bool_decide (Some (user_status u) ≠ statusFilter f) then false
  else if negb (bool_decide (JS.trim (keyword f) = "")) then
    let kw := JS.toLowerCase (JS.trim (keyword f)) in
    JS.includes (JS.toLowerCase (user_name u)) kw
    || JS.includes (JS.toLowerCase (user_username u)) kw
    || JS.includes (JS.toLowerCase (default "" (user_email u))) kw
  else true.

Definition usersForTable (section : UserSection) (f : UserFilters)
    (users : list PageUser) : list PageUser :=
  filter (λ u, shownInTable section f u = true) users.

Definition nullable (s : option string) : JSON :=
  match s with
  | Some s => JString s
  | None => JNull
  end.

(** The state variables that the row actions write. *)
Record ResetInfo := mkResetInfo {
  userId : Z;
  resetUsername : string;
  plainPassword : JSON
}.

Record TableState := mkTableState {
  tableUsers : list PageUser;
  tableError : option string;
  resetInfo : option ResetInfo
}.

Definition userPath (id : Z) : string :=
  "/api/admin/users/" +:+ JS.numberToString id.

Definition toggledStatus (s : UserStatus) : UserStatus :=
  match s with
  | active => inactive
  | inactive => active
  end.

Definition handleToggleStatus (env : Env) (user : PageUser) (w : World)
    (ts : TableState) : TableState * World :=
  let nextStatus := toggledStatus (user_status user) in
  let payload :=
    JObject (list_to_map
      [ ("name", JString (user_name user));
        ("email", nullable (user_email user));
        ("username", JString (user_username user));
        ("nim", nullable (user_nim user));
        ("role", JString (roleText (user_role user)));
        ("status", JString (statusText nextStatus));
        ("force_password_change",
         JBool (user_force_password_change user)) ]) in
  let '(outcome, w') :=
    send env w
      (putOptions (userPath (user_id user)) (BodyValue payload)
         (withAuthOption true)) in
  (match outcome with
   | Returned _ =>
       {| tableUsers :=
            (λ u, if bool_decide (user_id u = user_id user)
                  then {| user_id := user_id u;
                          user_name := user_name u;
                          user_email := user_email u;
                          user_username := user_username u;
                          user_nim := user_nim u;
                          user_role := user_role u;
                          user_status := nextStatus;
                          user_force_password_change :=
                            user_force_password_change u |}
                  else u) <$> tableUsers ts;
          tableError := None;
          resetInfo := resetInfo ts |}
   | _ =>
       {| tableUsers := tableUsers ts;
          tableError :=
            Some (orElse (default "" (failureText env outcome))
                    "Gagal mengubah status pengguna.");
          resetInfo := resetInfo ts |}
   end, w').

(** [confirmed] is the answer of [window.confirm]. *)
Definition handleDeleteUser (env : Env) (confirmed : bool) (user : PageUser)
    (w : World) (ts : TableState) : TableState * World :=
  if negb confirmed then (ts, w)
  else
    let '(outcome, w') :=
      send env w (deleteOptions (userPath (user_id user)) noOptions) in
    (match outcome with
     | Returned _ =>
         {| tableUsers :=
              filter (λ u, user_id u ≠ user_id user) (tableUsers ts);
            tableError := None;
            resetInfo :=
              match resetInfo ts with
              | Some info =>
                  if bool_decide (userId info = user_id user) then None
                  else Some info
              | None => None
              end |}
     | _ =>
         {| tableUsers := tableUsers ts;
            tableError :=
              Some (orElse (default "" (failureText env outcome))
                      "Gagal menghapus user.");
            resetInfo := resetInfo ts |}
     end, w').

(** *** User management page: the form *)

Inductive UserFormMode := modeCreate | modeEdit.

Record UserFormState := mkUserFormState {
  form_id : option Z;
  form_name : string;
  form_email : string;
  form_username : string;
  form_nim : string;
  form_role : UserRole;
  form_status : UserStatus;
  form_force_password_change : bool
}.

Definition emptyForm : UserFormState :=
  {| form_id := None; form_name := ""; form_email := "";
     form_username := ""; form_nim := ""; form_role := mahasiswa;
     form_status := active; form_force_password_change := true |}.

(** The state variables that the form handlers write. *)
Record FormDialog := mkFormDialog {
  formMode : UserFormMode;
  formOpen : bool;
  formState : UserFormState;
  formError : option string
}.

Definition openCreateForm (d : FormDialog) : FormDialog :=
  {| formMode := modeCreate; formState := emptyForm; formError := None;
     formOpen := true |}.

Definition openEditForm (user : PageUser) (d : FormDialog) : FormDialog :=
  {| formMode := modeEdit;
     formState :=
       {| form_id := Some (user_id user);
          form_name := user_name user;
          form_email := default "" (user_email user);
          form_username := user_username user;
          form_nim := default "" (user_nim user);
          form_role := user_role user;
          form_status := user_status user;
          form_force_password_change := user_force_password_change user |};
     formError := None;
     formOpen := true |}.

Definition closeForm (d : FormDialog) : FormDialog :=
  {| formMode := formMode d; formOpen := false; formState := emptyForm;
     formError := None |}.

(** [s.trim() || null]. *)
Definition trimmedOrNull (s : string) : JSON :=
  if bool_decide (JS.trim s = "") then JNull else JString (JS.trim s).

Definition formPayload (form : UserFormState) : JSON :=
  JObject (list_to_map
    [ ("name", JString (JS.trim (form_name form)));
      ("email", trimmedOrNull (form_email form));
      ("username", JString (JS.trim (form_username form)));
      ("nim", trimmedOrNull (form_nim form));
      ("role", JString (roleText (form_role form)));
      ("status", JString (statusText (form_status form)));
      ("force_password_change",
       JBool (form_force_password_change form)) ]).

(** [!formState.id]. *)
Definition missingId (id : option Z) : bool :=
  match id with
  | Some n => n =? 0
  | None => true
  end.

Definition handleSubmitForm (env : Env) (f : UserFilters) (w : World)
    (d : FormDialog) (ul : UserList) : FormDialog * UserList * World :=
  let form := formState d in
  let failed (text : string) : FormDialog :=
    {| formMode := formMode d; formOpen := formOpen d;
       formState := form; formError := Some text |} in
  if bool_decide (JS.trim (form_name form) = "")
     || bool_decide (JS.trim (form_username form) = "")
  then (failed "Nama dan username wajib diisi.", ul, w)
  else
    let payload := BodyValue (formPayload form) in
    let submit (options : ApiRequestOptions) :=
      let '(outcome, w') := send env w options in
      match outcome with
      | Returned _ =>
          let '(ul', w'') := loadUsers env f w' ul in
          (closeForm d, ul', w'')
      | _ =>
          (failed (orElse (default "" (failureText env outcome))
                     "Gagal menyimpan pengguna."), ul, w')
      end in
    match formMode d with
    | modeCreate =>
        submit (postOptions "/api/admin/users" payload (withAuthOption true))
    | modeEdit =>
        if missingId (form_id form)
        then (failed "ID pengguna tidak valid.", ul, w)
        else
          submit (putOptions (userPath (default 0 (form_id form))) payload
                    (withAuthOption true))
    end.

(** *** User management page: resetting a password *)

(** [a ?? b] on property reads. *)
Definition nullish (a : option JSON) (b : JSON) : JSON :=
  match a with
  | Some v => if isNull v then b else v
  | None => b
  end.

Definition handleResetPassword (env : Env) (user : PageUser) (w : World)
    (ts : TableState) : TableState * World :=
  let '(outcome, w') :=
    send env w
      (postOptions (userPath (user_id user) +:+ "/reset-password")
         (BodyValue (JObject ∅)) (withAuthOption true)) in
  let failed (text : string) : TableState :=
    {| tableUsers := tableUsers ts;
       tableError := Some (orElse text "Gagal reset password.");
       resetInfo := None |} in
  (match outcome with
   | Returned res =>
       if isNull res then failed (typeErrorText env)
       else
         let plain :=
           nullish (getProperty res "plain_password")
             (nullish (getProperty res "password") (JString "")) in
         if negb (truthy plain)
         then failed "Password baru tidak ditemukan di response."
         else
           {| tableUsers := tableUsers ts;
              tableError := None;
              resetInfo :=
                Some {| userId := user_id user;
                        resetUsername := user_username user;
                        plainPassword := plain |} |}
   | _ => failed (default "" (failureText env outcome))
   end, w').

(** *** User management page: the bulk dialog *)

(** The fields that the inputs of the preview table edit. *)
Inductive BulkField := fieldName | fieldNim | fieldUsername | fieldPassword.

(** [{ ...row, [field]: value }]. *)
Definition setBulkField (row : BulkStudentRow) (field : BulkField)
    (value : string) : BulkStudentRow :=
  match field with
  | fieldName =>
      {| order := order row; name := value; nim := nim row;
         username := username row; password := password row |}
  | fieldNim =>
      {| order := order row; name := name row; nim := value;
         username := username row; password := password row |}
  | fieldUsername =>
      {| order := order row; name := name row; nim := nim row;
         username := value; password := password row |}
  | fieldPassword =>
      {| order := order row; name := name row; nim := nim row;
         username := username row; password := value |}
  end.

Record BulkState := mkBulkState {
  bulkRows : list BulkStudentRow;
  bulkError : option string;
  bulkGeneratedRows : list BulkStudentRow
}.

Definition handleBulkRowChange (order0 : JS.Number) (field : BulkField)
    (value : string) (bs : BulkState) : BulkState :=
  {| bulkRows :=
       (λ row, if bool_decide (order row = order0)
               then setBulkField row field value else row)
       <$> bulkRows bs;
     bulkError := bulkError bs;
     bulkGeneratedRows := [] |}.

Definition bulkPayload (row : BulkStudentRow) : JSON :=
  JObject (list_to_map
    [ ("name", JString (JS.trim (name row)));
      ("email", JNull);
      ("username", JString (JS.trim (username row)));
      ("nim", JString (JS.trim (nim row)));
      ("role", JString "mahasiswa");
      ("status", JString "active");
      ("force_password_change", JBool true);
      ("password", JString (password row)) ]).

(** The guard that makes the loop [continue]. *)
Definition bulkRowSkipped (row : BulkStudentRow) : bool :=
  bool_decide (JS.trim (name row) = "")
  || bool_decide (JS.trim (nim row) = "")
  || bool_decide (JS.trim (username row) = "").

(** The [for (const row of bulkRows)] loop; [Some outcome] is the failure
    that ended it early. *)
Fixpoint postBulkRows (env : Env) (rows : list BulkStudentRow) (w : World)
  : option Outcome * World :=
  match rows with
  | [] => (None, w)
  | row :: rest =>
      if bulkRowSkipped row then postBulkRows env rest w
      else
        let '(outcome, w') :=
          send env w
            (postOptions "/api/admin/users" (BodyValue (bulkPayload row))
               (withAuthOption true)) in
        match outcome with
        | Returned _ => postBulkRows env rest w'
        | _ => (Some outcome, w')
        end
  end.

Definition handleGenerateBulk (env : Env) (f : UserFilters) (w : World)
    (bs : BulkState) (ul : UserList) : BulkState * UserList * World :=
  match bulkRows bs with
  | [] =>
      ({| bulkRows := bulkRows bs;
          bulkError := Some "Belum ada data mahasiswa untuk digenerate.";
          bulkGeneratedRows := bulkGeneratedRows bs |}, ul, w)
  | _ =>
      let '(failure, w') := postBulkRows env (bulkRows bs) w in
      match failure with
      | None =>
          let '(ul', w'') := loadUsers env f w' ul in
          ({| bulkRows := bulkRows bs; bulkError := None;
              bulkGeneratedRows := bulkRows bs |}, ul', w'')
      | Some outcome =>
          ({| bulkRows := bulkRows bs;
              bulkError :=
                Some (orElse (default "" (failureText env outcome))
                        "Gagal generate data mahasiswa.");
              bulkGeneratedRows := [] |}, ul, w')
      end
  end.

(** *** The authentication context (src/context/AuthContext.tsx) *)

(** The state of [AuthProvider].  The user is the response value as it
    came; [JNull] stands for [null] and [undefined], which no reader of
    the state tells apart. *)
Record AuthState := mkAuthState {
  auth_user : JSON;
  auth_token : option string;
  auth_loading : bool;
  auth_initialized : bool
}.

(** [initAuth]; [isMounted] is the flag as the continuation after the
    [await] reads it. *)
Definition initAuth (env : Env) (isMounted : bool) (w : World)
    (a : AuthState) : AuthState * World :=
  let '(existingToken, st) := getAuthToken (client w) in
  let w0 := {| client := st; sent := sent w |} in
  if negb (truthyString existingToken) then
    ({| auth_user := auth_user a; auth_token := auth_token a;
        auth_loading := auth_loading a; auth_initialized := true |}, w0)
  else
    let unmounted :=
      {| auth_user := auth_user a; auth_token := existingToken;
         auth_loading := true; auth_initialized := auth_initialized a |} in
    let '(outcome, w1) :=
      send env w0 (getOptions "/api/auth/me" None noOptions) in
    match outcome with
    | Returned me =>
        (if isMounted
         then {| auth_user := me; auth_token := existingToken;
                 auth_loading := false; auth_initialized := true |}
         else unmounted, w1)
    | _ =>
        (if isMounted
         then {| auth_user := JNull; auth_token := None;
                 auth_loading := false; auth_initialized := true |}
         else unmounted,
         {| client := clearAuthToken (client w1); sent := sent w1 |})
    end.

(** How an [async] function of the context settles: [None] when it
    resolves, the message of the [Error] when it rejects. *)
Definition Settled : Type := option string.

Definition loginBody (username password : string) : JSON :=
  JObject (list_to_map
    [("username", JString username); ("password", JString password)]).

(** [login].  The outer [None] marks a response with a status from 200
    to 299 whose [token] is not a string: the type [LoginResponse] rules
    it out, and the token store of this development holds strings
    only. *)
Definition login (env : Env) (username password : string) (w : World)
    (a : AuthState) : option (AuthState * World * Settled) :=
  let '(outcome, w1) :=
    send env w
      (postOptions "/api/auth/login"
         (BodyValue (loginBody username password))
         (withAuthOption false)) in
  let rejected (message : string) :=
    ({| auth_user := auth_user a; auth_token := auth_token a;
        auth_loading := false; auth_initialized := auth_initialized a |},
     w1, Some message) in
  match outcome with
  | Returned res =>
      if isNull res then Some (rejected (typeErrorText env))
      else
        match getProperty res "token" with
        | Some (JString t) =>
            Some ({| auth_user := default JNull (getProperty res "user");
                     auth_token := Some t;
                     auth_loading := false;
                     auth_initialized := auth_initialized a |},
                  {| client := setAuthToken t (client w1);
                     sent := sent w1 |},
                  None)
        | _ => None
        end
  | _ => Some (rejected (default "" (failureText env outcome)))
  end.

Definition logout (env : Env) (w : World) (a : AuthState)
  : AuthState * World :=
  let '(_, w1) :=
    send env w (postOptions "/api/auth/logout" BodyUndefined noOptions) in
  ({| auth_user := JNull; auth_token := None; auth_loading := false;
      auth_initialized := auth_initialized a |},
   {| client := clearAuthToken (client w1); sent := sent w1 |}).

Definition refreshUser (env : Env) (w : World) (a : AuthState)
  : AuthState * World * Settled :=
  if negb (truthyString (auth_token a)) then (a, w, None)
  else
    let '(outcome, w1) :=
      send env w (getOptions "/api/auth/me" None noOptions) in
    match outcome with
    | Returned me =>
        ({| auth_user := me; auth_token := auth_token a;
            auth_loading := false;
            auth_initialized := auth_initialized a |}, w1, None)
    | _ =>
        ({| auth_user := auth_user a; auth_token := auth_token a;
            auth_loading := false;
            auth_initialized := auth_initialized a |}, w1,
         failureText env outcome)
    end.

(** *** The layout of the administrator's pages
        (src/app/superadmin/layout.tsx) *)

(** Bytes that [encodeURIComponent] leaves as they are: ASCII letters
    and digits and [- _ . ! ~ * ' ( )]. *)
Definition uriUnreserved (b : N) : bool :=
  ((48 <=? b) && (b <=? 57) || (65 <=? b) && (b <=? 90)
   || (97 <=? b) && (b <=? 122)
   || (b =? 45) || (b =? 95) || (b =? 46) || (b =? 33) || (b =? 126)
   || (b =? 42) || (b =? 39) || (b =? 40) || (b =? 41))%N.

Definition encodeURIComponentChar (c : ascii) : string :=
  if uriUnreserved (N_of_ascii c) then String c ""
  else fold_right (λ b acc, percentEncodeByte b +:+ acc) "" (utf8Encode c).

Fixpoint encodeURIComponent (s : string) : string :=
  match s with
  | EmptyString => EmptyString
  | String c s' => encodeURIComponentChar c +:+ encodeURIComponent s'
  end.

(** [p === s] for a property read. *)
Definition isString (p : option JSON) (s : string) : bool :=
  match p with
  | Some (JString t) => bool_decide (t = s)
  | _ => false
  end.

(** The effect that guards the pages: the URL handed to
    [router.replace], if any. *)
Definition guardRedirect (a : AuthState) : option string :=
  if negb (auth_initialized a) then None
  else if negb (truthy (auth_user a)) then
    Some ("/login?message="
          +:+ encodeURIComponent
                "Silakan login untuk mengakses halaman ini.")
  else if truthyProperty (getProperty (auth_user a) "force_password_change")
  then
    Some ("/change-password?message="
          +:+ encodeURIComponent
                "Silakan ganti password sebelum mengakses LMS.")
  else if negb (isString (getProperty (auth_user a) "role") "superadmin")
  then Some "/unauthorized"
  else None.

(** Whether the layout renders its children. *)
Definition isAllowed (a : AuthState) : bool :=
  auth_initialized a
  && negb (auth_loading a)
  && truthy (auth_user a)
  && isString (getProperty (auth_user a) "role") "superadmin"
  && negb (truthyProperty
             (getProperty (auth_user a) "force_password_change")).

(** [handleLogout] of the layout: the state after [logout] and the URL
    handed to [router.replace]. *)
Definition handleLogout (env : Env) (w : World) (a : AuthState)
  : AuthState * World * string :=
  (logout env w a, "/login").

(** *** The page for changing the password
        (src/app/change-password/page.tsx) *)

Module ChangePassword.

(** The state of the page; [success] holds the message of the response
    as it came. *)
Record PageState := mkPageState {
  oldPassword : string;
  newPassword : string;
  confirmPassword : string;
  error : option string;
  success : option JSON
}.

(** [redirectToDashboard]: the URL handed to [router.replace], if any. *)
Definition redirectToDashboard (user : JSON) : option string :=
  if negb (truthy user) then None
  else
    let role := getProperty user "role" in
    if isString role "superadmin" then Some "/superadmin"
    else if isString role "dosen" then Some "/dosen"
    else if isString role "mahasiswa" then Some "/mahasiswa"
    else Some "/".

Definition payload (p : PageState) : JSON :=
  JObject (list_to_map
    [ ("old_password", JString (oldPassword p));
      ("current_password", JString (oldPassword p));
      ("new_password", JString (newPassword p));
      ("new_password_confirmation", JString (confirmPassword p)) ]).

(** [handleSubmit]; [a] is the state of the context that the page
    rendered with, so [redirectToDashboard] reads the user of before the
    refresh. *)
Definition handleSubmit (env : Env) (w : World) (a : AuthState)
    (p : PageState) : PageState * AuthState * World * option string :=
  let failed (text : string) : PageState :=
    {| oldPassword := oldPassword p; newPassword := newPassword p;
       confirmPassword := confirmPassword p;
       error := Some text; success := None |} in
  if bool_decide (oldPassword p = "") || bool_decide (newPassword p = "")
     || bool_decide (confirmPassword p = "")
  then (failed "Semua field wajib diisi.", a, w, None)
  else if negb (bool_decide (newPassword p = confirmPassword p))
  then (failed "Konfirmasi password baru tidak sama.", a, w, None)
  else
    let '(outcome, w1) :=
      send env w
        (postOptions "/api/auth/change-password" (BodyValue (payload p))
           (withAuthOption true)) in
    match outcome with
    | Returned res =>
        if isNull res
        then (failed (orElse (typeErrorText env)
                        "Gagal mengganti password."), a, w1, None)
        else
          let message := getProperty res "message" in
          let shown :=
            if truthyProperty message then default JNull message
            else JString "Password berhasil diubah." in
          let '(a', w2, settled) := refreshUser env w1 a in
          match settled with
          | None =>
              ({| oldPassword := ""; newPassword := "";
                  confirmPassword := "";
                  error := None; success := Some shown |},
               a', w2, redirectToDashboard (auth_user a))
          | Some text =>
              ({| oldPassword := ""; newPassword := "";
                  confirmPassword := "";
                  error := Some (orElse text "Gagal mengganti password.");
                  success := Some shown |},
               a', w2, None)
          end
    | _ =>
        (failed (orElse (default "" (failureText env outcome))
                   "Gagal mengganti password."), a, w1, None)
    end.

End ChangePassword.

End Pages.

(** *** Notions for the bulk dialog *)

(** What the backend answers to the [i]-th of the [requests] that a
    handler sends after those of [w]: it has seen the requests before
    it. *)
Definition answerTo (env : Pages.Env) (w : Pages.World)
    (requests : list Request) (i : nat) : option Response :=
  request ← requests !! i;
  Pages.transport env (Pages.sent w ++ take i requests) request.

(** An answer with a status from 200 to 299. *)
Definition accepted (answer : option Response) : Prop :=
  ∃ response, answer = Some response ∧ ok response = true.

(** * Properties *)

(** ** Strings *)

Lemma string_app_cons (c : ascii) (a b : string) :
  String c a +:+ b = String c (a +:+ b).
Proof. reflexivity. Qed.

Lemma string_app_empty_l (b : string) : "" +:+ b = b.
Proof. reflexivity. Qed.

(** [String.append] does not unfold under [simpl]; [ssimpl] pushes it
    through the constructors. *)
Ltac ssimpl := simpl; rewrite ?string_app_cons, ?string_app_empty_l; simpl.

Lemma string_length_app (a b : string) :
  String.length (a +:+ b) = (String.length a + String.length b)%nat.
Proof. induction a as [|c a IH]; ssimpl; [done | by rewrite IH]. Qed.

Lemma string_app_assoc (a b c : string) : (a +:+ b) +:+ c = a +:+ (b +:+ c).
Proof. induction a as [|x a IH]; ssimpl; [done | by rewrite IH]. Qed.

Lemma string_app_empty_r (a : string) : a +:+ "" = a.
Proof. induction a as [|x a IH]; ssimpl; [done | by rewrite IH]. Qed.

Lemma allChars_app p (a b : string) :
  allChars p (a +:+ b) = allChars p a && allChars p b.
Proof.
  induction a as [|x a IH]; ssimpl; [done |].
  rewrite IH. by destruct (p x).
Qed.

Lemma allChars_impl (p q : ascii → bool) (s : string) :
  (∀ c, p c = true → q c = true) → allChars p s = true → allChars q s = true.
Proof.
  intros Hpq. induction s as [|c s IH]; simpl; [done |].
  intros [Hc Hs]%andb_true_iff. rewrite (Hpq _ Hc). simpl. auto.
Qed.

Lemma allChars_repeatChar p c n :
  p c = true → allChars p (JS.repeatChar c n) = true.
Proof. intros Hc. induction n as [|n IH]; simpl; [done | by rewrite Hc]. Qed.

Lemma prefix_app (p s : string) : String.prefix p (p +:+ s) = true.
Proof.
  induction p as [|c p IH]; ssimpl; [by destruct s |].
  destruct (ascii_dec c c); [done | congruence].
Qed.

Lemma sliceFrom_app (p s : string) :
  JS.sliceFrom (String.length p) (p +:+ s) = s.
Proof. induction p as [|c p IH]; ssimpl; [by destruct s | done]. Qed.

Lemma prefix_split (p s : string) :
  String.prefix p s = true → s = p +:+ JS.sliceFrom (String.length p) s.
Proof.
  revert s. induction p as [|c p IH]; intros s; simpl.
  - intros _. by destruct s.
  - destruct s as [|d s]; simpl; [done |].
    destruct (ascii_dec c d) as [->|]; [| done].
    intros Hp. rewrite string_app_cons. f_equal. by apply IH.
Qed.

Lemma startsWith_char (c d : ascii) (s : string) :
  JS.startsWith (String d s) (String c "") = bool_decide (c = d).
Proof.
  unfold JS.startsWith.
  change (String.prefix (String c "") (String d s))
    with (if ascii_dec c d then String.prefix "" s else false).
  destruct (ascii_dec c d) as [->|Hne].
  - rewrite bool_decide_eq_true_2 by done. by destruct s.
  - by rewrite bool_decide_eq_false_2.
Qed.

(** ** Decimal numerals *)

(** A property of the ten digits is checked digit by digit. *)
Ltac by_digit d :=
  let Hcase := fresh "Hcase" in
  assert (d = 0 ∨ d = 1 ∨ d = 2 ∨ d = 3 ∨ d = 4 ∨ d = 5 ∨ d = 6 ∨ d = 7
          ∨ d = 8 ∨ d = 9)%N as Hcase by lia;
  repeat destruct Hcase as [->|Hcase]; try done; by subst.

Lemma pretty_N_char_digitChar d :
  (d < 10)%N → pretty_N_char d = digitChar d.
Proof. intros Hd. by_digit d. Qed.

Lemma digitChar_isDigit d : (d < 10)%N → JS.isDigit (digitChar d) = true.
Proof. intros Hd. by_digit d. Qed.

Lemma digitChar_value d : (d < 10)%N → JS.digitValue (digitChar d) = Z.of_N d.
Proof. intros Hd. by_digit d. Qed.

(** The digits of [x] are put in front of the accumulator. *)
Lemma pretty_N_go_app (x : N) (s : string) :
  pretty_N_go x s = pretty_N_go x "" +:+ s.
Proof.
  revert s. induction (N.lt_wf_0 x) as [x _ IH]. intros s.
  destruct (decide (x = 0)%N) as [->|Hx]; [done |].
  assert (x `div` 10 < x)%N as Hlt by (apply N.div_lt; lia).
  rewrite !(pretty_N_go_step x) by lia.
  rewrite (IH _ Hlt (String _ s)), (IH _ Hlt (String _ "")).
  by rewrite string_app_assoc.
Qed.

Lemma pretty_N_go_unfold (x : N) :
  (0 < x)%N →
  pretty_N_go x "" =
  pretty_N_go (x `div` 10) "" +:+ String (digitChar (x `mod` 10)) "".
Proof.
  intros Hx. rewrite pretty_N_go_step by done.
  rewrite pretty_N_go_app, pretty_N_char_digitChar; [done |].
  by apply N.mod_lt.
Qed.

Lemma pretty_N_go_digits (x : N) :
  allChars JS.isDigit (pretty_N_go x "") = true.
Proof.
  induction (N.lt_wf_0 x) as [x _ IH].
  destruct (decide (x = 0)%N) as [->|Hx]; [done |].
  rewrite pretty_N_go_unfold, allChars_app by lia.
  rewrite IH by (apply N.div_lt; lia). simpl.
  rewrite digitChar_isDigit; [done | by apply N.mod_lt].
Qed.

Lemma decimalValue_app (a b : string) :
  decimalValue (a +:+ b) =
  decimalValue a * 10 ^ Z.of_nat (String.length b) + decimalValue b.
Proof.
  induction a as [|c a IH]; ssimpl; [lia |].
  rewrite IH, string_length_app, Nat2Z.inj_add, Z.pow_add_r by lia. lia.
Qed.

Lemma decimalValue_pretty_N_go (x : N) :
  decimalValue (pretty_N_go x "") = Z.of_N x.
Proof.
  induction (N.lt_wf_0 x) as [x _ IH].
  destruct (decide (x = 0)%N) as [->|Hx]; [done |].
  rewrite pretty_N_go_unfold, decimalValue_app by lia.
  rewrite IH by (apply N.div_lt; lia). simpl.
  rewrite digitChar_value by (by apply N.mod_lt).
  rewrite N2Z.inj_div, N2Z.inj_mod.
  pose proof (Z.div_mod (Z.of_N x) 10). lia.
Qed.

Lemma decimalValue_zeros n : decimalValue (JS.repeatChar "0" n) = 0.
Proof. induction n as [|n IH]; simpl; [done |]. rewrite IH. done. Qed.

Lemma pretty_N_go_length_gt (k : nat) (x : N) :
  (10 ^ N.of_nat k ≤ x)%N → (k < String.length (pretty_N_go x ""))%nat.
Proof.
  revert x. induction k as [|k IH]; intros x Hx.
  - rewrite pretty_N_go_unfold, string_length_app by (simpl in Hx; lia). simpl. lia.
  - rewrite Nat2N.inj_succ, N.pow_succ_r' in Hx.
    assert (0 < 10 ^ N.of_nat k)%N by (apply N.neq_0_lt_0, N.pow_nonzero; lia).
    rewrite pretty_N_go_unfold, string_length_app by lia. simpl.
    assert (10 ^ N.of_nat k ≤ x `div` 10)%N.
    { apply N.div_le_lower_bound; lia. }
    specialize (IH _ H0). lia.
Qed.

Lemma repeatChar_snoc c n :
  JS.repeatChar c n +:+ String c "" = JS.repeatChar c (S n).
Proof. induction n as [|n IH]; ssimpl; [done |]. by rewrite IH. Qed.

Lemma fixedDigits_zero k : fixedDigits k 0 = JS.repeatChar "0" k.
Proof. induction k as [|k IH]; simpl; [done |]. by rewrite IH. Qed.

Lemma fixedDigits_snoc (k : nat) (x : N) :
  fixedDigits (S k) x =
  fixedDigits k (x `div` 10) +:+ String (digitChar (x `mod` 10)) "".
Proof.
  induction k as [|k IH].
  - simpl. by rewrite N.div_1_r.
  - change (fixedDigits (S (S k)) x)
      with (String (digitChar ((x / 10 ^ N.of_nat (S k)) mod 10))
              (fixedDigits (S k) x)).
    rewrite IH. simpl fixedDigits at 2. rewrite string_app_cons. f_equal. f_equal.
    rewrite Nat2N.inj_succ, N.pow_succ_r', N.Div0.div_div. done.
Qed.

(** Padding a numeral with zeros up to [k] characters yields the [k]
    lowest digits. *)
Lemma fixedDigits_pretty (k : nat) (x : N) :
  (x < 10 ^ N.of_nat k)%N →
  JS.repeatChar "0" (k - String.length (pretty_N_go x "")) +:+ pretty_N_go x ""
  = fixedDigits k x.
Proof.
  revert x. induction k as [|k IH]; intros x Hx.
  - assert (x = 0%N) as -> by (simpl in Hx; lia). done.
  - destruct (decide (x = 0)%N) as [->|Hx0].
    { rewrite fixedDigits_zero, pretty_N_go_0, string_app_empty_r. done. }
    assert (x `div` 10 < 10 ^ N.of_nat k)%N as Hlt.
    { apply N.Div0.div_lt_upper_bound.
      rewrite Nat2N.inj_succ, N.pow_succ_r' in Hx. lia. }
    rewrite fixedDigits_snoc, <- (IH _ Hlt).
    rewrite pretty_N_go_unfold, string_length_app, string_app_assoc by lia.
    simpl String.length. f_equal.
    replace (S k - (String.length (pretty_N_go (x `div` 10) "") + 1))%nat
      with (k - String.length (pretty_N_go (x `div` 10) ""))%nat by lia.
    done.
Qed.

(** *** Numbers below 2^53 *)

(** Below 2^53 every integer is a double, sums are exact and [String]
    prints the decimal numeral. *)
Lemma roundDouble_small (z : Z) :
  Z.abs z < 2 ^ 53 → JS.roundDouble z = JS.Finite z.
Proof.
  intros Hz. unfold JS.roundDouble. by rewrite (proj2 (Z.ltb_lt _ _) Hz).
Qed.

Lemma numberToString_small (n : Z) :
  Z.abs n < 2 ^ 53 → JS.numberToString n = pretty n.
Proof.
  intros Hn. unfold JS.numberToString. by rewrite (proj2 (Z.ltb_lt _ _) Hn).
Qed.

(** *** Rounding *)

Ltac number_order :=
  unfold JS.le, JS.lt, JS.gtb, JS.ltb in *;
  repeat match goal with
    | H : (_ <? _) = true |- _ => apply Z.ltb_lt in H
    | H : (_ <? _) = false |- _ => apply Z.ltb_ge in H
    | |- (_ <? _) = true => apply Z.ltb_lt
    | |- (_ <? _) = false => apply Z.ltb_ge
    end; try done; try lia.

Lemma le_refl (x : JS.Number) : JS.le x x.
Proof. destruct x; number_order. Qed.

Lemma le_trans (x y z : JS.Number) : JS.le x y → JS.le y z → JS.le x z.
Proof. destruct x, y, z; number_order. Qed.

Lemma le_antisym (x y : JS.Number) : JS.le x y → JS.le y x → x = y.
Proof. destruct x, y; number_order. intros. f_equal. lia. Qed.

Lemma lt_le_trans (x y z : JS.Number) : JS.lt x y → JS.le y z → JS.lt x z.
Proof. destruct x, y, z; number_order. Qed.

(** The [e] of a number from 2^53 on. *)
Lemma log2_large (a : Z) :
  2 ^ 53 ≤ a →
  1 ≤ Z.log2 a - 52
  ∧ 2 ^ 52 * 2 ^ (Z.log2 a - 52) ≤ a < 2 ^ 53 * 2 ^ (Z.log2 a - 52).
Proof.
  intros Ha. assert (53 ≤ Z.log2 a) as Hlog.
  { change 53 with (Z.log2 (2 ^ 53)). by apply Z.log2_le_mono. }
  split; [lia |].
  rewrite <- !Z.pow_add_r by lia.
  replace (52 + (Z.log2 a - 52)) with (Z.log2 a) by lia.
  replace (53 + (Z.log2 a - 52)) with (Z.succ (Z.log2 a)) by lia.
  apply Z.log2_spec. lia.
Qed.

(** The significand of a number from 2^53 on has 53 bits. *)
Lemma significand_large (a : Z) :
  2 ^ 53 ≤ a →
  let p := 2 ^ (Z.log2 a - 52) in
  0 < p ∧ 2 ^ 52 ≤ a / p < 2 ^ 53
  ∧ a = p * (a / p) + a mod p ∧ 0 ≤ a mod p < p.
Proof.
  intros Ha p. destruct (log2_large a Ha) as (He & Hlo & Hhi).
  assert (0 < p) as Hp by (apply Z.pow_pos_nonneg; lia).
  split; [done |]. fold p in Hlo, Hhi.
  pose proof (Z.div_mod a p ltac:(lia)) as Hdm.
  pose proof (Z.mod_pos_bound a p Hp) as Hr.
  split; [| done]. split.
  - apply Z.div_le_lower_bound; lia.
  - apply Z.div_lt_upper_bound; lia.
Qed.

Lemma nearestMultiple_bounds (a : Z) :
  2 ^ 53 ≤ a →
  let p := 2 ^ (Z.log2 a - 52) in
  p * (a / p) ≤ JS.nearestMultiple a ≤ p * (a / p + 1)
  ∧ 2 ^ 52 * p ≤ JS.nearestMultiple a ≤ 2 ^ 53 * p.
Proof.
  intros Ha p. destruct (significand_large a Ha) as (Hp & Hq & _ & _).
  fold p in Hp, Hq. unfold JS.nearestMultiple. fold p.
  destruct (_ || _); nia.
Qed.

(** Rounding keeps the order. *)
Lemma nearestMultiple_mono (a b : Z) :
  2 ^ 53 ≤ a → a ≤ b → JS.nearestMultiple a ≤ JS.nearestMultiple b.
Proof.
  intros Ha Hab. assert (2 ^ 53 ≤ b) as Hb by lia.
  destruct (decide (Z.log2 a = Z.log2 b)) as [Hlog|Hlog].
  - destruct (significand_large a Ha) as (Hp & Hqa & Hda & Hra).
    destruct (significand_large b Hb) as (_ & Hqb & Hdb & Hrb).
    unfold JS.nearestMultiple. rewrite <- Hlog in *.
    set (p := 2 ^ (Z.log2 a - 52)) in *.
    assert (a / p ≤ b / p) as Hq by (apply Z.div_le_mono; lia).
    destruct (decide (a / p = b / p)) as [Heq|Hne].
    + rewrite <- Heq in *. assert (a mod p ≤ b mod p) as Hr by lia.
      set (half := 2 ^ (Z.log2 a - 52 - 1)).
      destruct (Z.ltb_spec half (a mod p)), (Z.ltb_spec half (b mod p)),
        (Z.eqb_spec (a mod p) half), (Z.eqb_spec (b mod p) half),
        (Z.odd (a / p)); simpl; nia.
    + destruct (_ || _), (_ || _); nia.
  - assert (Z.log2 a ≤ Z.log2 b) as Hle by (by apply Z.log2_le_mono).
    destruct (nearestMultiple_bounds a Ha) as (_ & _ & Hhi).
    destruct (nearestMultiple_bounds b Hb) as (_ & Hlo & _).
    destruct (log2_large a Ha) as (Hea & _).
    assert (2 ^ 53 * 2 ^ (Z.log2 a - 52) ≤ 2 ^ 52 * 2 ^ (Z.log2 b - 52));
      [| lia].
    rewrite <- !Z.pow_add_r by lia. apply Z.pow_le_mono_r; lia.
Qed.

Lemma roundDouble_large (z : Z) :
  2 ^ 53 ≤ z →
  JS.roundDouble z =
  if 2 ^ 1024 <=? JS.nearestMultiple z then JS.PosInfinity
  else JS.Finite (JS.nearestMultiple z).
Proof.
  intros Hz. unfold JS.roundDouble.
  rewrite Z.abs_eq by lia.
  rewrite (proj2 (Z.ltb_ge _ _)) by lia.
  rewrite (proj2 (Z.ltb_ge z 0)) by lia.
  rewrite Z.sgn_pos by lia. by rewrite Z.mul_1_l.
Qed.

Lemma roundDouble_ge (z : Z) :
  2 ^ 53 ≤ z → JS.le (JS.Finite (2 ^ 53)) (JS.roundDouble z).
Proof.
  intros Hz. rewrite roundDouble_large by done.
  destruct (nearestMultiple_bounds z Hz) as (_ & Hlo & _).
  destruct (log2_large z Hz) as (He & _).
  assert (2 ^ 1 ≤ 2 ^ (Z.log2 z - 52)) by (apply Z.pow_le_mono_r; lia).
  destruct (_ <=? _); number_order.
Qed.

Lemma roundDouble_mono (a b : Z) :
  0 ≤ a → a ≤ b → JS.le (JS.roundDouble a) (JS.roundDouble b).
Proof.
  intros Ha Hab. destruct (Z.lt_ge_cases b (2 ^ 53)) as [Hb|Hb].
  - rewrite !roundDouble_small by lia. number_order.
  - destruct (Z.lt_ge_cases a (2 ^ 53)) as [Ha'|Ha'].
    + eapply le_trans; [| by apply roundDouble_ge].
      rewrite roundDouble_small by lia. number_order.
    + rewrite !roundDouble_large by done.
      pose proof (nearestMultiple_mono a b Ha' Hab).
      destruct (Z.leb_spec (2 ^ 1024) (JS.nearestMultiple a)),
        (Z.leb_spec (2 ^ 1024) (JS.nearestMultiple b)); number_order.
Qed.

(** A number below zero does not round above zero. *)
Lemma roundDouble_nonpos (z : Z) :
  z ≤ 0 → JS.le (JS.roundDouble z) (JS.Finite 0).
Proof.
  intros Hz. unfold JS.roundDouble.
  destruct (Z.ltb_spec (Z.abs z) (2 ^ 53)) as [Hs|Hs]; [number_order |].
  destruct (nearestMultiple_bounds (Z.abs z) Hs) as (_ & Hlo & _).
  assert (0 < 2 ^ (Z.log2 (Z.abs z) - 52)).
  { destruct (log2_large _ Hs). apply Z.pow_pos_nonneg; lia. }
  rewrite (proj2 (Z.ltb_lt z 0)) by lia.
  rewrite Z.sgn_neg by lia.
  destruct (_ <=? _); number_order.
Qed.

Lemma roundDouble_nonneg (z : Z) :
  0 ≤ z → JS.le (JS.Finite 0) (JS.roundDouble z).
Proof. intros Hz. by apply (roundDouble_mono 0 z). Qed.

(** The larger of two doubles is the double of the larger number: the
    comparison of [nextOrderStep]. *)
Lemma gtb_roundDouble (m v : Z) :
  0 ≤ m →
  (if JS.gtb (JS.roundDouble v) (JS.roundDouble m)
   then JS.roundDouble v else JS.roundDouble m)
  = JS.roundDouble (Z.max m v).
Proof.
  intros Hm. destruct (JS.gtb _ _) eqn:Hgt.
  - destruct (Z.max_spec m v) as [[_ ->]|[Hle ->]]; [done |].
    assert (JS.le (JS.roundDouble v) (JS.roundDouble m)) as Hvm.
    { destruct (Z.le_gt_cases 0 v).
      - by apply roundDouble_mono.
      - eapply le_trans; [apply roundDouble_nonpos; lia |].
        by apply roundDouble_nonneg. }
    unfold JS.le, JS.gtb in *. congruence.
  - destruct (Z.max_spec m v) as [[Hlt ->]|[_ ->]]; [| done].
    apply le_antisym; [by apply roundDouble_mono; lia | done].
Qed.

(** Below 2^53 the sum is exact; from there on it is not below 2^53. *)
Lemma plusOne_exact (z : Z) :
  - 2 ^ 53 < z < 2 ^ 53 → JS.plusOne z = JS.Finite (z + 1).
Proof.
  intros Hz. unfold JS.plusOne.
  destruct (decide (z + 1 = 2 ^ 53)) as [->|Hne]; [by vm_compute |].
  apply roundDouble_small. lia.
Qed.

Lemma plusOne_mono (x y : JS.Number) :
  JS.le (JS.Finite 0) x → JS.le x y → JS.le (JS.plusOne x) (JS.plusOne y).
Proof.
  intros Hx Hxy. destruct x as [a| |], y as [b| |]; try by number_order.
  simpl. apply roundDouble_mono; number_order.
Qed.

Lemma plusOne_ge_one (x : JS.Number) :
  JS.le (JS.Finite 0) x → JS.le (JS.Finite 1) (JS.plusOne x).
Proof.
  intros Hx. destruct x as [a| |]; try by number_order. simpl.
  change (JS.Finite 1) with (JS.roundDouble 1).
  apply roundDouble_mono; number_order.
Qed.

(** At 2^53 the sum stays where it is. *)
Lemma plusOne_stuck : JS.plusOne (JS.Finite (2 ^ 53)) = JS.Finite (2 ^ 53).
Proof. by vm_compute. Qed.

(** *** Numerals below 2^53 *)

Lemma pretty_pos (n : Z) : 0 < n → pretty n = pretty_N_go (Z.to_N n) "".
Proof. destruct n as [|p|p]; [lia | | lia]. intros _. done. Qed.

Lemma pretty_neg (n : Z) :
  n < 0 → pretty n = "-" +:+ pretty_N_go (Z.to_N (- n)) "".
Proof. destruct n as [|p|p]; [lia | lia |]. intros _. done. Qed.

(** [String(n)] by the sign of [n]. *)
Lemma numberToString_pos (n : Z) :
  0 < n < 2 ^ 53 → JS.numberToString n = pretty_N_go (Z.to_N n) "".
Proof.
  intros Hn. rewrite numberToString_small by lia. apply pretty_pos. lia.
Qed.

Lemma numberToString_neg (n : Z) :
  - 2 ^ 53 < n < 0 →
  JS.numberToString n = "-" +:+ pretty_N_go (Z.to_N (- n)) "".
Proof.
  intros Hn. rewrite numberToString_small by lia. apply pretty_neg. lia.
Qed.

Lemma numberToString_digits (n : Z) :
  0 ≤ n < 2 ^ 53 → allChars JS.isDigit (JS.numberToString n) = true.
Proof.
  intros Hn. destruct (decide (n = 0)) as [->|]; [done |].
  rewrite numberToString_pos by lia. apply pretty_N_go_digits.
Qed.

Lemma decimalValue_numberToString (n : Z) :
  0 ≤ n < 2 ^ 53 → decimalValue (JS.numberToString n) = n.
Proof.
  intros Hn. destruct (decide (n = 0)) as [->|]; [done |].
  rewrite numberToString_pos, decimalValue_pretty_N_go by lia. lia.
Qed.

Lemma padStart_zeroPadded (k : nat) (n : Z) :
  (1 ≤ k)%nat → 0 ≤ n < 2 ^ 53 →
  JS.padStart k "0" (JS.numberToString n) = zeroPadded k n.
Proof.
  intros Hk Hn. unfold zeroPadded, JS.padStart.
  destruct (decide (n = 0)) as [->|Hn0].
  - assert ((0 <? 10 ^ Z.of_nat k) = true) as -> by (apply Z.ltb_lt; lia).
    change (JS.numberToString 0) with "0". simpl Z.to_N.
    rewrite fixedDigits_zero. simpl String.length.
    destruct k as [|k]; [lia |].
    replace (S k - 1)%nat with k by lia. apply repeatChar_snoc.
  - rewrite numberToString_pos by lia.
    destruct (Z.ltb_spec n (10 ^ Z.of_nat k)) as [Hlt|Hge].
    + apply fixedDigits_pretty.
      apply N2Z.inj_lt. rewrite N2Z.inj_pow, Z2N.id, nat_N_Z by lia. done.
    + assert (k < String.length (pretty_N_go (Z.to_N n) ""))%nat as Hlen.
      { apply pretty_N_go_length_gt.
        apply N2Z.inj_le. rewrite N2Z.inj_pow, Z2N.id, nat_N_Z by lia. done. }
      replace (k - _)%nat with 0%nat by lia. rewrite pretty_pos by lia. done.
Qed.

Lemma decimalValue_dropZeros (s : string) :
  decimalValue (dropZeros s) = decimalValue s.
Proof.
  induction s as [|c s IH]; simpl; [done |].
  case_bool_decide as Hc; [| done]. subst c. rewrite IH. done.
Qed.

Lemma dropZeros_zeros (n : nat) (s : string) :
  dropZeros (JS.repeatChar "0" n +:+ s) = dropZeros s.
Proof. induction n as [|n IH]; ssimpl; done. Qed.

Lemma dropZeros_digits (s : string) :
  allChars JS.isDigit s = true → allChars JS.isDigit (dropZeros s) = true.
Proof.
  induction s as [|c s IH]; simpl; [done |].
  intros [Hc Hs]%andb_true_iff. case_bool_decide; [by apply IH |].
  simpl. by rewrite Hc, Hs.
Qed.

Lemma paddedValue_digits (s : string) :
  allChars JS.isDigit s = true → paddedValue s = decimalValue s.
Proof.
  intros Hs. unfold paddedValue.
  pose proof (dropZeros_digits s Hs) as Hd.
  rewrite <- (decimalValue_dropZeros s).
  destruct (dropZeros s) as [|c r]; [done |].
  rewrite startsWith_char. case_bool_decide as Hc; [| done].
  subst c. by simpl in Hd.
Qed.

(** The order can be read back from the padded numeral, whatever its
    sign. *)
Lemma paddedValue_padStart (k : nat) (n : Z) :
  Z.abs n < 2 ^ 53 →
  paddedValue (JS.padStart k "0" (JS.numberToString n)) = n.
Proof.
  intros Hsmall. unfold JS.padStart.
  destruct (Z.lt_trichotomy n 0) as [Hn|[->|Hn]].
  - rewrite numberToString_neg by lia.
    unfold paddedValue. rewrite dropZeros_zeros. rewrite string_app_cons, string_app_empty_l.
    simpl dropZeros. rewrite startsWith_char, bool_decide_eq_true_2 by done.
    simpl JS.sliceFrom. rewrite decimalValue_pretty_N_go. lia.
  - unfold paddedValue. rewrite dropZeros_zeros. done.
  - rewrite paddedValue_digits.
    + rewrite decimalValue_app, decimalValue_zeros.
      rewrite decimalValue_numberToString by lia. lia.
    + rewrite allChars_app, allChars_repeatChar by done.
      rewrite numberToString_digits by lia. done.
Qed.

Lemma padStart_numberToString_inj (k : nat) (a b : Z) :
  Z.abs a < 2 ^ 53 → Z.abs b < 2 ^ 53 →
  JS.padStart k "0" (JS.numberToString a)
  = JS.padStart k "0" (JS.numberToString b) → a = b.
Proof.
  intros Ha Hb Heq. rewrite <- (paddedValue_padStart k a Ha), Heq.
  by apply paddedValue_padStart.
Qed.

(** ** [generateNimAndPassword] *)

Lemma removeWhiteSpace_filter (s : string) :
  JS.removeWhiteSpace s = withoutWhiteSpace s.
Proof.
  unfold withoutWhiteSpace. induction s as [|c s IH]; simpl; [done |].
  rewrite filter_cons. destruct (JS.isWhiteSpace c) eqn:Hc.
  - rewrite decide_False by done. done.
  - rewrite decide_True by done. simpl. by rewrite IH.
Qed.

Lemma toLowerCase_length (s : string) :
  String.length (JS.toLowerCase s) = String.length s.
Proof. induction s as [|c s IH]; simpl; [done | by rewrite IH]. Qed.

Lemma sliceTo_all (n : nat) (s : string) :
  (String.length s ≤ n)%nat → JS.sliceTo n s = s.
Proof.
  revert s. induction n as [|n IH]; intros [|c s]; simpl; try done; try lia.
  intros Hlen. rewrite IH; [done | lia].
Qed.

Lemma sliceTo_substring (n : nat) (s : string) :
  JS.sliceTo n s = substring 0 n s.
Proof.
  revert s. induction n as [|n IH]; intros [|c s]; simpl; try done.
  by rewrite IH.
Qed.

Lemma isDigit_not_space (c : ascii) :
  JS.isDigit c = true → JS.isWhiteSpace c = false.
Proof. destruct c as [[] [] [] [] [] [] [] []]; vm_compute; done. Qed.

(** A numeral that already has [k] digits is not padded. *)
Lemma padStart_long (k : nat) (n : Z) :
  10 ^ Z.of_nat k ≤ 10 * n → n < 2 ^ 53 →
  JS.padStart k "0" (JS.numberToString n) = JS.numberToString n.
Proof.
  intros Hn Hsmall.
  assert (0 < n) by (pose proof (Z.pow_pos_nonneg 10 (Z.of_nat k)); lia).
  unfold JS.padStart. rewrite numberToString_pos by lia.
  destruct k as [|k]; [done |].
  assert (k < String.length (pretty_N_go (Z.to_N n) ""))%nat as Hlen.
  { apply pretty_N_go_length_gt. apply N2Z.inj_le.
    rewrite N2Z.inj_pow, Z2N.id, nat_N_Z by lia.
    rewrite Nat2Z.inj_succ, Z.pow_succ_r in Hn by lia. lia. }
  replace (S k - _)%nat with 0%nat by lia. done.
Qed.

Lemma datePrefix_digits (date : Date) :
  1000 ≤ getFullYear date ≤ 9999 →
  0 ≤ getMonth date ≤ 11 →
  1 ≤ getDate date ≤ 31 →
  datePrefix date =
  fixedDigits 4 (Z.to_N (getFullYear date))
  +:+ fixedDigits 2 (Z.to_N (getMonth date + 1))
  +:+ fixedDigits 2 (Z.to_N (getDate date)).
Proof.
  intros Hy Hm Hd. unfold datePrefix.
  rewrite <- (padStart_long 4 (getFullYear date)) by (simpl; lia).
  rewrite !padStart_zeroPadded by lia. unfold zeroPadded.
  rewrite !(proj2 (Z.ltb_lt _ _)) by (simpl; lia). done.
Qed.

Lemma generated_nim (name : string) (order : JS.Number) (date : Date) :
  g_nim (generateNimAndPassword name order date)
  = datePrefix date +:+ JS.padStart 3 "0" (JS.numberToString order).
Proof. unfold generateNimAndPassword, datePrefix. simpl. by rewrite !string_app_assoc. Qed.

Lemma generated_password (name : string) (order : JS.Number) (date : Date) :
  g_password (generateNimAndPassword name order date)
  = JS.sliceTo 7 (JS.toLowerCase (JS.removeWhiteSpace name))
    +:+ JS.padStart 3 "0" (JS.numberToString order).
Proof. done. Qed.

Lemma generated_username (name : string) (order : JS.Number) (date : Date) :
  g_username (generateNimAndPassword name order date)
  = g_nim (generateNimAndPassword name order date).
Proof. done. Qed.

(** C2, as the code has it.  For a calendar date with a four digit year
    and a positive sequence number below 2^53, [generateNimAndPassword]
    returns as NIM the four digits of the year, the two digits of the
    month and of the day and the sequence number zero-padded to three
    digits; the username is the NIM; the password is the first seven
    characters of the lower-cased name without white space (all of it
    when it is shorter), followed by the same padded sequence number.
    For every sequence number, also from 2^53 on, the number appears in
    the NIM and in the password as the numeral that [String] gives,
    padded to three characters.  "Udin Saputra", 1, 2025-03-07 gives
    "20250307001" and "udinsap001". *)
Theorem generateNimAndPassword_spec (name : string) (order : JS.Number)
    (date : Date) :
  1000 ≤ getFullYear date ≤ 9999 →
  0 ≤ getMonth date ≤ 11 →
  1 ≤ getDate date ≤ 31 →
  let g := generateNimAndPassword name order date in
  let numeral := JS.padStart 3 "0" (JS.numberToString order) in
  g_nim g =
    fixedDigits 4 (Z.to_N (getFullYear date))
    +:+ fixedDigits 2 (Z.to_N (getMonth date + 1))
    +:+ fixedDigits 2 (Z.to_N (getDate date))
    +:+ numeral
  ∧ g_username g = g_nim g
  ∧ g_password g =
      substring 0 7 (JS.toLowerCase (withoutWhiteSpace name)) +:+ numeral
  ∧ ((String.length (withoutWhiteSpace name) < 7)%nat →
     g_password g = JS.toLowerCase (withoutWhiteSpace name) +:+ numeral)
  ∧ (∀ n : Z, order = JS.Finite n → 0 < n < 2 ^ 53 →
       numeral = zeroPadded 3 n)
  ∧ generateNimAndPassword "Udin Saputra" 1 (mkDate 2025 2 7)
    = mkGenerated "20250307001" "udinsap001" "20250307001".
Proof.
  intros Hy Hm Hd g numeral.
  assert (g_password g =
          substring 0 7 (JS.toLowerCase (withoutWhiteSpace name))
          +:+ numeral) as Hpw.
  { subst g. rewrite generated_password.
    by rewrite sliceTo_substring, removeWhiteSpace_filter. }
  split; [| split; [done | split; [done | split; [| split]]]].
  - subst g. rewrite generated_nim, datePrefix_digits by done.
    by rewrite !string_app_assoc.
  - intros Hlen. rewrite Hpw, <- sliceTo_substring, sliceTo_all; [done |].
    rewrite toLowerCase_length. lia.
  - intros n -> Hn. subst numeral. apply padStart_zeroPadded; lia.
  - vm_compute. done.
Qed.

Lemma generateNimAndPassword_spec_witness :
  g_nim (generateNimAndPassword "Al" 7 (mkDate 2025 2 7)) = "20250307007"
  ∧ g_password (generateNimAndPassword "Al" 7 (mkDate 2025 2 7)) = "al007".
Proof.
  destruct (generateNimAndPassword_spec "Al" 7 (mkDate 2025 2 7))
    as (Hnim & _ & Hpw & _); simpl; try lia.
  split; [exact Hnim | exact Hpw].
Defined.

(** The sequence number 10^21 does not appear zero-padded in the NIM and
    the password: its [String] is in exponent form. *)
Lemma exponent_form_order :
  generateNimAndPassword "Udin Saputra" (JS.Finite (10 ^ 21))
    (mkDate 2025 2 7)
  = mkGenerated "202503071e+21" "udinsap1e+21" "202503071e+21"
  ∧ zeroPadded 3 (10 ^ 21) = "1000000000000000000000"
  ∧ g_nim (generateNimAndPassword "Udin Saputra" (JS.Finite (10 ^ 21))
             (mkDate 2025 2 7))
    ≠ "20250307" +:+ zeroPadded 3 (10 ^ 21).
Proof. split; [by vm_compute | split; [by vm_compute |]]. by vm_compute. Qed.

(** C6.  With the name "Udin Saputra" and the sequence number 1000 the
    password is "udinsap1000": eleven characters, more than ten, and a
    suffix of four digits, not three.  The upload allocates that sequence
    number when a student of the day has the NIM suffix 999. *)
Theorem password_longer_than_ten :
  let p := g_password (generateNimAndPassword "Udin Saputra" 1000
                         (mkDate 2025 2 7)) in
  p = "udinsap1000"
  ∧ String.length p = 11%nat
  ∧ ¬ (String.length p ≤ 10)%nat
  ∧ p = substring 0 7 (JS.toLowerCase (withoutWhiteSpace "Udin Saputra"))
        +:+ zeroPadded 3 1000
  ∧ String.length (zeroPadded 3 1000) = 4%nat
  ∧ handleUploadTemplate 1
      [ mkUser "Siti" "20250307999" (Some "20250307999") mahasiswa ]
      [ mkSheetRow (Some "Udin Saputra") ] (mkDate 2025 2 7)
    = Some [ mkBulkStudentRow 1000 "Udin Saputra" "202503071000"
               "202503071000" "udinsap1000" ].
Proof.
  split; [by vm_compute |]. split; [by vm_compute |].
  split; [vm_compute; lia |]. split; [by vm_compute |].
  split; by vm_compute.
Qed.

(** ** [getNextOrderForToday] *)

Lemma trimStart_digit (c : ascii) (s : string) :
  JS.isDigit c = true → JS.trimStart (String c s) = String c s.
Proof. intros Hc. simpl. by rewrite isDigit_not_space. Qed.

Lemma leadingDigits_numeral (s : string) :
  allChars JS.isDigit s = true → leadingDigits s = s.
Proof.
  induction s as [|c s IH]; simpl; [done |].
  intros [-> Hs]%andb_true_iff. by rewrite IH.
Qed.

Lemma readDigits_leading (acc : Z) (s : string) :
  JS.readDigits acc s =
  acc * 10 ^ Z.of_nat (String.length (leadingDigits s))
  + decimalValue (leadingDigits s).
Proof.
  revert acc. induction s as [|c s IH]; intros acc; simpl; [lia |].
  destruct (JS.isDigit c); simpl; [| lia].
  rewrite IH. rewrite Nat2Z.inj_succ, Z.pow_succ_r by lia. lia.
Qed.

Lemma startsWithDigit_leading (s : string) :
  JS.startsWithDigit s = bool_decide (leadingDigits s ≠ "").
Proof.
  destruct s as [|c s]; simpl; [done |]. by destruct (JS.isDigit c).
Qed.

Lemma signAndBody_spec (t : string) :
  signAndBody t =
  (if JS.startsWith t "-" then -1 else 1,
   if JS.startsWith t "-" || JS.startsWith t "+" then JS.sliceFrom 1 t
   else t).
Proof.
  destruct t as [|c u]; [done |].
  rewrite !startsWith_char.
  destruct (decide ("-"%char = c)) as [<-|Hm]; [done |].
  destruct (decide ("+"%char = c)) as [<-|Hp]; [done |].
  rewrite !bool_decide_eq_false_2 by done.
  destruct c as [[] [] [] [] [] [] [] []]; done.
Qed.

(** [parseInt] gives the double nearest to the number that the text
    stands for. *)
Lemma parseInt10_numericSuffix (r : string) :
  JS.parseInt10 r = JS.roundDouble <$> numericSuffix r.
Proof.
  unfold JS.parseInt10, numericSuffix. rewrite signAndBody_spec.
  cbv zeta. set (body := if _ || _ then _ else _).
  rewrite startsWithDigit_leading, readDigits_leading. simpl (0 * _ + _).
  by destruct (leadingDigits body).
Qed.

Lemma numericSuffix_numeral (r : string) :
  r ≠ "" → allChars JS.isDigit r = true →
  numericSuffix r = Some (decimalValue r).
Proof.
  intros Hne Hr. destruct r as [|c r]; [done |].
  pose proof Hr as Hr'. simpl in Hr'. apply andb_true_iff in Hr' as [Hc _].
  unfold numericSuffix. rewrite trimStart_digit, signAndBody_spec by done.
  rewrite !startsWith_char.
  rewrite !bool_decide_eq_false_2 by (intros <-; done).
  simpl orb. cbv iota. rewrite leadingDigits_numeral by done.
  f_equal. lia.
Qed.

Lemma studentNims_cons (u : User) (users : list User) :
  studentNims (u :: users) =
  match u_nim u with
  | Some raw =>
      if bool_decide (u_role u = mahasiswa ∧ raw ≠ "")
      then JS.trim raw :: studentNims users else studentNims users
  | None => studentNims users
  end.
Proof.
  unfold studentNims. simpl. destruct (u_nim u); [| done].
  by case_bool_decide.
Qed.

Lemma studentNims_split (u : User) (users : list User) :
  studentNims (u :: users) = studentNims [u] ++ studentNims users.
Proof.
  rewrite !studentNims_cons. destruct (u_nim u); [| done].
  by case_bool_decide.
Qed.

Lemma matchingSuffixes_spec (prefix : string) (ids : list string)
    (r : string) :
  r ∈ matchingSuffixes prefix ids ↔ prefix +:+ r ∈ ids.
Proof.
  unfold matchingSuffixes. rewrite list_elem_of_omap. split.
  - intros (id & Hid & Hr).
    destruct (String.prefix prefix id) eqn:Hp; [| done].
    injection Hr as <-. by rewrite <- prefix_split.
  - intros Hin. exists (prefix +:+ r). split; [done |].
    by rewrite prefix_app, sliceFrom_app.
Qed.

(** A user that is not a student with a NIM leaves [maxOrder] alone. *)
Lemma nextOrderStep_skip (prefix : string) (m : JS.Number) (u : User)
    (raw : string) :
  u_nim u = Some raw → ¬ (u_role u = mahasiswa ∧ raw ≠ "") →
  nextOrderStep prefix m u = m.
Proof.
  intros Hnim Hno. unfold nextOrderStep. rewrite Hnim.
  destruct (decide (u_role u = mahasiswa)) as [Hr|Hr].
  - rewrite (bool_decide_eq_false_2 (u_role u ≠ mahasiswa)) by tauto.
    rewrite bool_decide_eq_true_2; [done |].
    destruct (decide (raw = "")); [done | tauto].
  - by rewrite bool_decide_eq_true_2.
Qed.

Lemma nextOrderStep_student (prefix : string) (m : JS.Number) (u : User)
    (raw : string) :
  u_nim u = Some raw → u_role u = mahasiswa → raw ≠ "" →
  nextOrderStep prefix m u =
  if negb (JS.startsWith (JS.trim raw) prefix) then m
  else
    let suffix := JS.sliceFrom (String.length prefix) (JS.trim raw) in
    if (String.length suffix =? 0)%nat then m
    else match JS.parseInt10 suffix with
         | Some n => if JS.gtb n m then n else m
         | None => m
         end.
Proof.
  intros Hnim Hr Hraw. unfold nextOrderStep. rewrite Hnim.
  rewrite (bool_decide_eq_false_2 (u_role u ≠ mahasiswa)) by tauto.
  by rewrite bool_decide_eq_false_2.
Qed.

(** The numbers after [prefix] in the NIMs of the students. *)
Lemma numbers_split (prefix : string) (u : User) (users : list User) :
  omap numericSuffix (matchingSuffixes prefix (studentNims (u :: users)))
  = omap numericSuffix (matchingSuffixes prefix (studentNims [u]))
    ++ omap numericSuffix (matchingSuffixes prefix (studentNims users)).
Proof.
  rewrite studentNims_split. unfold matchingSuffixes.
  by rewrite !omap_app.
Qed.

Lemma largest_nonneg (numbers : list Z) : 0 ≤ largest numbers.
Proof. induction numbers as [|n numbers IH]; simpl; lia. Qed.

Lemma largest_app (a b : list Z) :
  largest (a ++ b) = Z.max (largest a) (largest b).
Proof.
  induction a as [|n a IH]; simpl.
  - pose proof (largest_nonneg b). unfold largest in *. lia.
  - unfold largest in *. rewrite IH. lia.
Qed.

Lemma largest_bound (numbers : list Z) :
  (∀ n, n ∈ numbers → n ≤ largest numbers)
  ∧ (largest numbers = 0 ∨ largest numbers ∈ numbers).
Proof.
  induction numbers as [|n numbers [IH1 IH2]]; simpl.
  - split; [intros n Hn; inversion Hn | by left].
  - unfold largest in *. simpl. split.
    + intros k [->|Hk]%elem_of_cons; [lia |]. specialize (IH1 k Hk). lia.
    + destruct (Z.max_spec n (foldr Z.max 0 numbers)) as [[_ ->]|[_ ->]].
      * destruct IH2 as [?|?]; [by left | right; by apply elem_of_cons; right].
      * right. apply elem_of_cons. by left.
Qed.

(** One step of the scan: the double of the largest number so far. *)
Lemma nextOrderStep_largest (prefix : string) (m : Z) (u : User) :
  0 ≤ m →
  nextOrderStep prefix (JS.roundDouble m) u =
  JS.roundDouble
    (Z.max m (largest (omap numericSuffix
                         (matchingSuffixes prefix (studentNims [u]))))).
Proof.
  intros Hm. rewrite studentNims_cons.
  destruct (u_nim u) as [raw|] eqn:Hnim.
  2:{ unfold nextOrderStep. rewrite Hnim. simpl. f_equal. lia. }
  case_bool_decide as Hst.
  2:{ rewrite (nextOrderStep_skip _ _ _ raw) by done. simpl. f_equal. lia. }
  destruct Hst as [Hr Hraw].
  rewrite (nextOrderStep_student _ _ _ raw) by done.
  unfold matchingSuffixes, JS.startsWith. simpl omap at 2.
  destruct (String.prefix prefix (JS.trim raw)); simpl negb; cbv iota;
    [| simpl; f_equal; lia].
  cbv zeta. set (suffix := JS.sliceFrom _ _).
  rewrite parseInt10_numericSuffix.
  destruct (String.length suffix =? 0)%nat eqn:Hlen.
  { apply Nat.eqb_eq in Hlen. destruct suffix; [| done].
    simpl. f_equal. lia. }
  simpl omap. destruct (numericSuffix suffix) as [v|]; simpl.
  - rewrite gtb_roundDouble by done. f_equal. lia.
  - f_equal. lia.
Qed.

(** The scan computes the double of the largest number. *)
Lemma fold_largest (prefix : string) (users : list User) (m : Z) :
  0 ≤ m →
  fold_left (nextOrderStep prefix) users (JS.roundDouble m) =
  JS.roundDouble
    (Z.max m (largest (omap numericSuffix
                         (matchingSuffixes prefix (studentNims users))))).
Proof.
  revert m. induction users as [|u users IH]; intros m Hm.
  { simpl. f_equal. lia. }
  cbn [fold_left]. rewrite nextOrderStep_largest by done.
  rewrite IH by lia. rewrite (numbers_split prefix u users), largest_app.
  f_equal. lia.
Qed.

Lemma getNextOrderForToday_largest (users : list User) (date : Date) :
  getNextOrderForToday users date =
  JS.plusOne
    (JS.roundDouble
       (largest (omap numericSuffix
                   (matchingSuffixes (datePrefix date)
                      (studentNims users))))).
Proof.
  unfold getNextOrderForToday. cbv zeta.
  change (JS.Finite 0) with (JS.roundDouble 0).
  rewrite fold_largest by done.
  pose proof (largest_nonneg
                (omap numericSuffix
                   (matchingSuffixes (datePrefix date) (studentNims users)))).
  do 2 f_equal. lia.
Qed.

(** One more than a number that is not below [n] is above [n]. *)
Lemma plusOne_roundDouble_above (n m : Z) :
  0 ≤ n < 2 ^ 53 → n ≤ m →
  JS.lt (JS.Finite n) (JS.plusOne (JS.roundDouble m)).
Proof.
  intros Hn Hm. destruct (Z.lt_ge_cases m (2 ^ 53)) as [Hs|Hl].
  - rewrite roundDouble_small, plusOne_exact by lia. number_order.
  - pose proof (roundDouble_ge m Hl) as Hge.
    destruct (JS.roundDouble m) as [d| |]; [| done | done].
    simpl. eapply lt_le_trans; [| apply roundDouble_ge].
    + number_order.
    + number_order.
Qed.

(** C3, as the code has it.  For every collection of users and every
    date, [getNextOrderForToday] returns one more than the largest of the
    numbers that follow the YYYYMMDD prefix of the date in the NIMs of
    the students, and 1 when no NIM starts with the prefix or none has a
    number after it.  Below 2^53 that is the exact sum; from there on the
    largest number is rounded to the nearest double and so is the sum.
    The number after the prefix is read as [parseInt] reads it; for a
    plain numeral it is its value.  For 20250307001, 20250307002,
    20250101999 on 2025-03-07 the result is 3. *)
Theorem getNextOrderForToday_spec (users : list User) (date : Date) :
  let prefix := datePrefix date in
  let ids := studentNims users in
  let numbers := omap numericSuffix (matchingSuffixes prefix ids) in
  getNextOrderForToday users date
  = JS.plusOne (JS.roundDouble (largest numbers))
  ∧ (largest numbers < 2 ^ 53 →
     getNextOrderForToday users date = JS.Finite (largest numbers + 1))
  ∧ ((∀ r, prefix +:+ r ∉ ids) →
     getNextOrderForToday users date = JS.Finite 1)
  ∧ (∀ n, n ∈ numbers ↔
          ∃ r, prefix +:+ r ∈ ids ∧ numericSuffix r = Some n)
  ∧ (∀ n, n ∈ numbers → n ≤ largest numbers)
  ∧ (largest numbers = 0 ∨ largest numbers ∈ numbers)
  ∧ (∀ r, r ≠ "" → allChars JS.isDigit r = true →
          numericSuffix r = Some (decimalValue r))
  ∧ getNextOrderForToday
      [ mkUser "a" "20250307001" (Some "20250307001") mahasiswa;
        mkUser "b" "20250307002" (Some "20250307002") mahasiswa;
        mkUser "c" "20250101999" (Some "20250101999") mahasiswa ]
      (mkDate 2025 2 7) = JS.Finite 3.
Proof.
  intros prefix ids numbers.
  assert (getNextOrderForToday users date
          = JS.plusOne (JS.roundDouble (largest numbers))) as Hnext
    by apply getNextOrderForToday_largest.
  assert (∀ n, n ∈ numbers ↔
               ∃ r, prefix +:+ r ∈ ids ∧ numericSuffix r = Some n) as Hin.
  { intros n. unfold numbers. rewrite list_elem_of_omap.
    by setoid_rewrite matchingSuffixes_spec. }
  pose proof (largest_nonneg numbers) as Hpos.
  destruct (largest_bound numbers) as [Hub Hmax].
  split; [done |]. split.
  { intros Hsmall. rewrite Hnext, roundDouble_small by lia.
    apply plusOne_exact. lia. }
  split.
  { intros Hno. rewrite Hnext.
    destruct Hmax as [->|Hmax]; [done |].
    apply Hin in Hmax as (r & Hr & _). by destruct (Hno r). }
  split; [done |]. split; [done |]. split; [done |].
  split; [apply numericSuffix_numeral | by vm_compute].
Qed.

Lemma getNextOrderForToday_spec_witness :
  getNextOrderForToday
    [ mkUser "a" "20250307005" (Some "20250307005") mahasiswa;
      mkUser "b" "20250307abc" (Some "20250307abc") mahasiswa ]
    (mkDate 2025 2 7) = JS.Finite 6.
Proof.
  destruct (getNextOrderForToday_spec
              [ mkUser "a" "20250307005" (Some "20250307005") mahasiswa;
                mkUser "b" "20250307abc" (Some "20250307abc") mahasiswa ]
              (mkDate 2025 2 7)) as (_ & Hsum & _).
  apply Hsum. vm_compute. reflexivity.
Defined.

(** The suffix 9007199254740993 is read as the double 9007199254740992,
    and one more than that is the same double: the result is not the
    suffix plus one. *)
Lemma next_order_rounded :
  numericSuffix "9007199254740993" = Some 9007199254740993
  ∧ getNextOrderForToday
      [ mkUser "a" "a" (Some "202503079007199254740993") mahasiswa ]
      (mkDate 2025 2 7) = JS.Finite 9007199254740992
  ∧ getNextOrderForToday
      [ mkUser "a" "a" (Some "202503079007199254740993") mahasiswa ]
      (mkDate 2025 2 7) ≠ JS.Finite (9007199254740993 + 1).
Proof. split; [by vm_compute | split; by vm_compute]. Qed.

(** ** Blank names *)

Lemma trimEnd_empty (s : string) :
  JS.trimEnd s = "" ↔ isBlank s = true.
Proof.
  unfold isBlank. induction s as [|c s IH]; simpl; [done |].
  destruct (JS.trimEnd s) as [|d t] eqn:Ht.
  - destruct (JS.isWhiteSpace c); simpl; [tauto |].
    split; [done | intros [=]].
  - split; [done |]. intros [_ Hs]%andb_true_iff.
    apply IH in Hs. done.
Qed.

Lemma trimStart_blank (s : string) :
  isBlank (JS.trimStart s) = isBlank s.
Proof.
  unfold isBlank. induction s as [|c s IH]; simpl; [done |].
  destruct (JS.isWhiteSpace c) eqn:Hc; simpl; [done |]. by rewrite Hc.
Qed.

Lemma trim_empty (s : string) : JS.trim s = "" ↔ isBlank s = true.
Proof. unfold JS.trim. by rewrite trimEnd_empty, trimStart_blank. Qed.

(** ** The [while (true)] loop *)

Lemma nim_inj (name1 name2 : string) (a b : Z) (now : Date) :
  Z.abs a < 2 ^ 53 → Z.abs b < 2 ^ 53 →
  g_nim (generateNimAndPassword name1 a now)
  = g_nim (generateNimAndPassword name2 b now) → a = b.
Proof.
  intros Ha Hb. rewrite !generated_nim. intros Heq%(inj (String.app _)).
  by eapply padStart_numberToString_inj.
Qed.

(** What the loop returns is free, whatever the numbers. *)
Lemma findFreeOrder_sound (fuel : nat) (rawName : string) (c : JS.Number)
    (now : Date) (usedN usedU : gset string) (c' : JS.Number)
    (g : Generated) :
  findFreeOrder fuel rawName c now usedN usedU = Some (c', g) →
  (g = generateNimAndPassword rawName c' now)
  ∧ (g_nim g ∉ usedN) ∧ (g_username g ∉ usedU).
Proof.
  revert c. induction fuel as [|fuel IH]; intros c; simpl; [done |].
  do 2 case_bool_decide; simpl; try apply IH.
  by intros [= <- <-].
Qed.

(** Where [candidateOrder += 1] does not move and the candidate is taken,
    the loop never ends. *)
Lemma findFreeOrder_stuck (fuel : nat) (rawName : string) (c : JS.Number)
    (now : Date) (usedN usedU : gset string) :
  JS.plusOne c = c →
  g_nim (generateNimAndPassword rawName c now) ∈ usedN
  ∨ g_username (generateNimAndPassword rawName c now) ∈ usedU →
  findFreeOrder fuel rawName c now usedN usedU = None.
Proof.
  intros Hc Hused. induction fuel as [|fuel IH]; simpl; [done |].
  rewrite Hc, IH.
  destruct Hused as [H|H]; rewrite (bool_decide_eq_true_2 _ H); simpl;
    [done | by rewrite andb_false_r].
Qed.

(** Below 2^53 the loop stops at the first free order, whatever fuel is
    left. *)
Lemma findFreeOrder_free (fuel : nat) (rawName : string) (c : Z)
    (now : Date) (usedN usedU : gset string) (k : nat) :
  - 2 ^ 53 < c → c + Z.of_nat k < 2 ^ 53 →
  (k < fuel)%nat →
  g_nim (generateNimAndPassword rawName (c + Z.of_nat k) now) ∉ usedN ∪ usedU →
  ∃ (j : nat) g,
    (j ≤ k)%nat
    ∧ findFreeOrder fuel rawName c now usedN usedU
      = Some (JS.Finite (c + Z.of_nat j), g).
Proof.
  revert c k. induction fuel as [|fuel IH]; intros c k Hlo Hhi Hk Hfree;
    [lia |].
  cbn [findFreeOrder]. cbv zeta.
  destruct (negb (bool_decide (_ ∈ usedN)) && negb (bool_decide (_ ∈ usedU)))
    eqn:Hnow.
  { exists 0%nat. eexists. split; [lia |]. by rewrite Z.add_0_r. }
  destruct k as [|k].
  { rewrite Z.add_0_r in Hfree. exfalso.
    rewrite generated_username in Hnow.
    rewrite !bool_decide_eq_false_2 in Hnow by set_solver. done. }
  rewrite plusOne_exact by lia.
  destruct (IH (c + 1) k) as (j & g & Hj & Hrun); [lia | lia | lia | |].
  { by replace (c + 1 + Z.of_nat k) with (c + Z.of_nat (S k)) by lia. }
  exists (S j), g. split; [lia |].
  by replace (c + Z.of_nat (S j)) with (c + 1 + Z.of_nat j) by lia.
Qed.

(** Among more candidates below 2^53 than there are used strings, one is
    free. *)
Lemma free_order_exists (rawName : string) (c : Z) (now : Date)
    (used : gset string) (n : nat) :
  (size used < n)%nat →
  - 2 ^ 53 < c → c + Z.of_nat n ≤ 2 ^ 53 →
  ∃ k, (k < n)%nat
       ∧ g_nim (generateNimAndPassword rawName (c + Z.of_nat k) now) ∉ used.
Proof.
  intros Hsize Hlo Hhi.
  set (f := λ k : nat,
              g_nim (generateNimAndPassword rawName (c + Z.of_nat k) now)).
  destruct (decide (Forall (λ k, f k ∈ used) (seq 0 n))) as [Hall|Hex].
  - assert (length (seq 0 n) ≤ size used)%nat as Hle;
      [| rewrite length_seq in Hle; lia].
    rewrite <- (length_fmap f).
    rewrite <- (size_list_to_set (C := gset string)).
    + apply subseteq_size.
      intros s [k [-> Hk]]%elem_of_list_to_set%list_elem_of_fmap.
      by eapply Forall_forall in Hall.
    + apply NoDup_fmap_2_strong; [| apply NoDup_seq].
      intros a b Ha%elem_of_seq Hb%elem_of_seq Hab.
      apply nim_inj in Hab; lia.
  - apply not_Forall_Exists in Hex; [| apply _].
    apply Exists_exists in Hex as (k & Hk & Hfree).
    exists k. split; [| done]. apply elem_of_seq in Hk. lia.
Qed.

Lemma findFreeOrder_terminates (fuel : nat) (rawName : string) (c : Z)
    (now : Date) (usedN usedU : gset string) :
  - 2 ^ 53 < c →
  c + Z.of_nat (size usedN + size usedU) < 2 ^ 53 →
  (size usedN + size usedU < fuel)%nat →
  ∃ (j : nat) g,
    (j ≤ size usedN + size usedU)%nat
    ∧ findFreeOrder fuel rawName c now usedN usedU
      = Some (JS.Finite (c + Z.of_nat j), g).
Proof.
  intros Hlo Hhi Hfuel.
  assert (size (usedN ∪ usedU) ≤ size usedN + size usedU)%nat as Hsize.
  { rewrite size_union_alt.
    assert (size (usedU ∖ usedN) ≤ size usedU)%nat; [| lia].
    apply subseteq_size, subseteq_difference_l. done. }
  destruct (free_order_exists rawName c now (usedN ∪ usedU)
              (S (size usedN + size usedU)))
    as (k & Hk & Hfree); [lia | lia | lia |].
  destruct (findFreeOrder_free fuel rawName c now usedN usedU k)
    as (j & g & Hj & Hrun); [lia | lia | lia | done |].
  exists j, g. split; [lia | done].
Qed.

Lemma trimStart_head (s : string) (c : ascii) (t : string) :
  JS.trimStart s = String c t → JS.isWhiteSpace c = false.
Proof.
  induction s as [|d s IH]; simpl; [done |].
  destruct (JS.isWhiteSpace d) eqn:Hd; [done |]. by intros [= <- <-].
Qed.

Lemma trimEnd_head (c : ascii) (t : string) :
  JS.isWhiteSpace c = false → ∃ t', JS.trimEnd (String c t) = String c t'.
Proof. intros Hc. simpl. rewrite Hc. destruct (JS.trimEnd t); eauto. Qed.

Lemma trim_not_blank (s : string) :
  isBlank s = false → isBlank (JS.trim s) = false.
Proof.
  intros Hs. unfold JS.trim.
  destruct (JS.trimStart s) as [|c t] eqn:Ht.
  - by rewrite <- trimStart_blank, Ht in Hs.
  - pose proof (trimStart_head _ _ _ Ht) as Hc.
    destruct (trimEnd_head c t Hc) as [t' ->].
    unfold isBlank. simpl. by rewrite Hc.
Qed.

(** ** The row loop *)

Lemma processRow_blank (fuel : nat) (now : Date) (st : BatchState)
    (row : SheetRow) :
  isBlank (rowName row) = true → processRow fuel now st row = Some st.
Proof.
  intros Hb%trim_empty. unfold processRow. fold (rowName row).
  by rewrite Hb, bool_decide_eq_true_2.
Qed.

Lemma size_insert_le (x : string) (X : gset string) :
  (size ({[x]} ∪ X) ≤ 1 + size X)%nat.
Proof.
  rewrite size_union_alt, size_singleton.
  assert (size (X ∖ {[x]}) ≤ size X)%nat; [| lia].
  apply subseteq_size, subseteq_difference_l. done.
Qed.

(** A row that the loop body returns keeps the invariant, whatever the
    numbers: a blank name leaves the state, another name adds one row. *)
Lemma processRow_sound (fuel : nat) (now : Date) (usedN usedU : gset string)
    (st st' : BatchState) (row : SheetRow) :
  processRow fuel now st row = Some st' →
  batchInvariant usedN usedU st →
  batchInvariant usedN usedU st'
  ∧ (if isBlank (rowName row) then st' = st
     else ∃ r, rows st' = rows st ++ [r]
               ∧ name r = JS.trim (rowName row)
               ∧ baseOrder st' = JS.plusOne (order r)
               ∧ nim r = g_nim (generateNimAndPassword (name r) (order r) now)
               ∧ findFreeOrder fuel (name r) (baseOrder st) now (usedNims st)
                   (usedUsernames st)
                 = Some (order r, generateNimAndPassword (name r) (order r)
                                    now)).
Proof.
  intros Hrun (Hnd & HsubN & HsubU & Hsize & Hrows).
  destruct (isBlank (rowName row)) eqn:Hb.
  { rewrite processRow_blank in Hrun by done. injection Hrun as <-.
    done. }
  assert (JS.trim (rowName row) ≠ "") as Hne.
  { intros He%trim_empty. congruence. }
  unfold processRow in Hrun. fold (rowName row) in Hrun.
  rewrite bool_decide_eq_false_2 in Hrun by done.
  destruct (findFreeOrder _ _ _ _ _ _) as [[c g]|] eqn:Hfind; [| done].
  simpl in Hrun. injection Hrun as <-.
  pose proof Hfind as Hfind'.
  apply findFreeOrder_sound in Hfind as (Hg & HgN & HgU).
  assert (g_username g = g_nim g) as Hun by (by subst g).
  split.
  2:{ eexists. cbn [rows]. split; [done |]. cbn [name baseOrder order nim].
      split; [done |]. split; [done |].
      split; [by rewrite Hg | by rewrite Hfind', Hg]. }
  unfold batchInvariant. cbn [rows usedNims usedUsernames name].
  split; [| split; [| split; [| split]]].
  - rewrite fmap_app. apply NoDup_app. split; [done |]. split.
    + intros s [r [-> Hr]]%list_elem_of_fmap.
      intros Hs%list_elem_of_singleton. simpl in Hs.
      destruct (Hrows r Hr) as (_ & Hin & _). congruence.
    + apply NoDup_singleton.
  - etrans; [exact HsubN | apply union_subseteq_r].
  - etrans; [exact HsubU | apply union_subseteq_r].
  - rewrite length_app. simpl.
    pose proof (size_insert_le (g_nim g) (usedNims st)).
    pose proof (size_insert_le (g_username g) (usedUsernames st)). lia.
  - intros r [Hr|Hr]%elem_of_app.
    + destruct (Hrows r Hr) as (? & ? & ? & ?).
      repeat split; try done; apply elem_of_union; by right.
    + apply list_elem_of_singleton in Hr. subst r. cbn [nim username].
      repeat split; try done; try (apply elem_of_union; left;
                                   by apply elem_of_singleton).
      rewrite Hun in HgU.
      intros [HinN|HinU]%elem_of_union; [apply HgN | apply HgU]; auto.
Qed.

(** One name that is not blank, orders below 2^53: the loop stops within
    as many steps as there are used strings. *)
Lemma processRow_name (fuel : nat) (now : Date) (usedN usedU : gset string)
    (st : BatchState) (row : SheetRow) (b : Z) :
  isBlank (rowName row) = false →
  baseOrder st = JS.Finite b →
  - 2 ^ 53 < b →
  b + Z.of_nat (size (usedNims st) + size (usedUsernames st)) < 2 ^ 53 →
  (size (usedNims st) + size (usedUsernames st) < fuel)%nat →
  ∃ st' (j : nat),
    processRow fuel now st row = Some st'
    ∧ (j ≤ size (usedNims st) + size (usedUsernames st))%nat
    ∧ baseOrder st' = JS.Finite (b + Z.of_nat j + 1).
Proof.
  intros Hb Hbase Hlo Hhi Hfuel.
  assert (JS.trim (rowName row) ≠ "") as Hne.
  { intros He%trim_empty. congruence. }
  unfold processRow. fold (rowName row).
  rewrite bool_decide_eq_false_2 by done. rewrite Hbase.
  destruct (findFreeOrder_terminates fuel (JS.trim (rowName row)) b now
              (usedNims st) (usedUsernames st) Hlo Hhi Hfuel)
    as (j & g & Hj & Hfind).
  rewrite Hfind. simpl. eexists _, j. split; [done |]. split; [done |].
  cbn [baseOrder]. apply plusOne_exact. lia.
Qed.

Lemma batchInvariant_start (start : JS.Number) (usedN usedU : gset string) :
  batchInvariant usedN usedU
    {| baseOrder := start; rows := []; usedNims := usedN;
       usedUsernames := usedU |}.
Proof.
  unfold batchInvariant. simpl.
  split; [apply NoDup_nil_2 |]. split; [done |]. split; [done |].
  split; [lia |]. intros r Hr. inversion Hr.
Qed.

(** ** The whole run *)

Lemma forEachRow_app (fuel : nat) (now : Date) (pre post : list SheetRow)
    (st : BatchState) :
  forEachRow fuel now (pre ++ post) st
  = forEachRow fuel now pre st ≫= forEachRow fuel now post.
Proof.
  revert st. induction pre as [|row pre IH]; intros st; simpl; [done |].
  destruct (processRow fuel now st row) as [st'|]; simpl; [apply IH | done].
Qed.

(** What the row loop returns keeps the invariant and has one row per
    name that is not blank, whatever the numbers. *)
Lemma forEachRow_sound (fuel : nat) (now : Date) (usedN usedU : gset string)
    (json : list SheetRow) (st final : BatchState) :
  forEachRow fuel now json st = Some final →
  batchInvariant usedN usedU st →
  batchInvariant usedN usedU final
  ∧ name <$> rows final =
      (name <$> rows st)
      ++ (JS.trim <$> filter (λ s, isBlank s = false) (rowName <$> json)).
Proof.
  revert st. induction json as [|row json IH]; intros st Hrun Hinv.
  { injection Hrun as <-. simpl. by rewrite app_nil_r. }
  cbn [forEachRow] in Hrun.
  destruct (processRow fuel now st row) as [st'|] eqn:Hrow; [| done].
  simpl in Hrun.
  destruct (processRow_sound _ _ _ _ _ _ _ Hrow Hinv) as [Hinv' Hshape].
  destruct (IH st' Hrun Hinv') as [Hfin Hnames].
  split; [done |]. rewrite Hnames. cbn [fmap list_fmap].
  rewrite filter_cons. destruct (isBlank (rowName row)) eqn:Hb.
  - by subst st'.
  - destruct Hshape as (r & Hrows & Hname & _).
    rewrite Hrows, fmap_app, <- app_assoc. simpl. by rewrite Hname.
Qed.

(** With orders below 2^53 and fuel for every string the used sets can
    come to hold, the row loop runs to its end. *)
Lemma forEachRow_terminates (fuel : nat) (now : Date)
    (usedN usedU : gset string) (json : list SheetRow) (st : BatchState)
    (b : Z) (N : nat) :
  batchInvariant usedN usedU st →
  baseOrder st = JS.Finite b →
  - 2 ^ 53 < b →
  (size usedN + size usedU + 2 * length (rows st) + 2 * length json
   ≤ N)%nat →
  b + Z.of_nat (length json * (N + 1)) ≤ 2 ^ 53 →
  (N < fuel)%nat →
  is_Some (forEachRow fuel now json st).
Proof.
  revert st b. induction json as [|row json IH];
    intros st b Hinv Hbase Hlo HN Hhi Hfuel; [done |].
  cbn [forEachRow]. simpl in HN, Hhi.
  destruct (isBlank (rowName row)) eqn:Hb.
  - rewrite processRow_blank by done. simpl.
    apply (IH st b); try done; lia.
  - pose proof Hinv as (_ & _ & _ & Hsize & _).
    destruct (processRow_name fuel now usedN usedU st row b Hb Hbase Hlo)
      as (st' & j & Hrun & Hj & Hbase'); [lia | lia |].
    rewrite Hrun. simpl.
    destruct (processRow_sound _ _ _ _ _ _ _ Hrun Hinv) as [Hinv' Hshape].
    rewrite Hb in Hshape. destruct Hshape as (r & Hrows & _).
    apply (IH st' (b + Z.of_nat j + 1)); try done; try lia.
    rewrite Hrows, length_app. simpl. lia.
Qed.

Lemma allocateBatch_terminates (fuel : nat) (json : list SheetRow)
    (start : Z) (now : Date) (usedN usedU : gset string) :
  - 2 ^ 53 < start →
  start + Z.of_nat (length json
                    * (size usedN + size usedU + 2 * length json + 1))
  ≤ 2 ^ 53 →
  (size usedN + size usedU + 2 * length json < fuel)%nat →
  is_Some (allocateBatch fuel json start now usedN usedU).
Proof.
  intros Hlo Hhi Hfuel. unfold allocateBatch.
  eapply (forEachRow_terminates fuel now usedN usedU json _ start
            (size usedN + size usedU + 2 * length json));
    try done; [apply batchInvariant_start | simpl; lia].
Qed.

(** C1.  Whatever the batch allocation loop returns, no two rows of it
    share a NIM or a username; no NIM or username of it was in the used
    sets at the start; and whenever the loop goes on to the next name,
    the NIM and the username of every row allocated so far are in the
    used sets.  The loop does return when the orders it tries stay below
    2^53 and there is fuel for every string the used sets can come to
    hold. *)
Theorem allocateBatch_no_collision (fuel : nat) (json : list SheetRow)
    (start : JS.Number) (now : Date) (usedN usedU : gset string) :
  (∀ final,
     allocateBatch fuel json start now usedN usedU = Some final →
     NoDup (nim <$> rows final)
     ∧ NoDup (username <$> rows final)
     ∧ (∀ r, r ∈ rows final →
          (nim r ∉ usedN ∪ usedU) ∧ (username r ∉ usedN ∪ usedU))
     ∧ (∀ pre post, json = pre ++ post →
          ∃ mid,
            allocateBatch fuel pre start now usedN usedU = Some mid
            ∧ forEachRow fuel now post mid = Some final
            ∧ ∀ r, r ∈ rows mid →
                nim r ∈ usedNims mid ∧ username r ∈ usedUsernames mid))
  ∧ (∀ s : Z,
       start = JS.Finite s →
       - 2 ^ 53 < s →
       s + Z.of_nat (length json
                     * (size usedN + size usedU + 2 * length json + 1))
       ≤ 2 ^ 53 →
       (size usedN + size usedU + 2 * length json < fuel)%nat →
       is_Some (allocateBatch fuel json start now usedN usedU)).
Proof.
  split; [| intros s -> Hlo Hhi Hfuel; by apply allocateBatch_terminates].
  intros final Hrun. unfold allocateBatch in *.
  destruct (forEachRow_sound fuel now usedN usedU json _ _ Hrun
              (batchInvariant_start start usedN usedU))
    as [(Hnd & _ & _ & _ & Hrows) _].
  split; [done |].
  assert (username <$> rows final = nim <$> rows final) as Hun.
  { apply list_fmap_ext. intros i r Hr.
    apply list_elem_of_lookup_2 in Hr. by destruct (Hrows r Hr). }
  split; [by rewrite Hun |]. split.
  - intros r Hr. destruct (Hrows r Hr) as (Hu & _ & _ & Hfresh).
    by rewrite Hu.
  - intros pre post ->. rewrite forEachRow_app in Hrun.
    destruct (forEachRow fuel now pre _) as [mid|] eqn:Hpre; [| done].
    simpl in Hrun. exists mid. split; [done |]. split; [done |].
    destruct (forEachRow_sound fuel now usedN usedU pre _ _ Hpre
                (batchInvariant_start start usedN usedU))
      as [(_ & _ & _ & _ & Hmid) _].
    intros r Hr. by destruct (Hmid r Hr) as (_ & ? & ? & _).
Qed.

Lemma allocateBatch_no_collision_witness :
  ∃ final,
    allocateBatch 5 [mkSheetRow (Some "Udin"); mkSheetRow (Some "Udin")]
      1 (mkDate 2025 2 7) ∅ ∅ = Some final
    ∧ NoDup (nim <$> rows final).
Proof.
  destruct (allocateBatch_no_collision 5
              [mkSheetRow (Some "Udin"); mkSheetRow (Some "Udin")]
              1 (mkDate 2025 2 7) ∅ ∅) as [Hsound Hruns].
  destruct (Hruns 1) as [final Hrun].
  - reflexivity.
  - lia.
  - vm_compute. discriminate.
  - vm_compute. lia.
  - exists final. split; [exact Hrun |].
    destruct (Hsound final Hrun) as (Hnd & _). exact Hnd.
Defined.

(** C7.  The loop skips a row whose name is blank without touching its
    state; the rows of whatever it returns are those of the names that
    are not blank, in their order, so there are as many rows as such
    names.  The loop does return when the orders it tries stay below 2^53
    and there is fuel for every string the used sets can come to hold. *)
Theorem allocateBatch_skips_blank (fuel : nat) (json : list SheetRow)
    (start : JS.Number) (now : Date) (usedN usedU : gset string) :
  (∀ final,
     allocateBatch fuel json start now usedN usedU = Some final →
     name <$> rows final =
       JS.trim <$> filter (λ s, isBlank s = false) (rowName <$> json)
     ∧ length (rows final) =
         length (filter (λ s, isBlank s = false) (rowName <$> json))
     ∧ (∀ r, r ∈ rows final → isBlank (name r) = false))
  ∧ (∀ st row, isBlank (rowName row) = true →
       processRow fuel now st row = Some st)
  ∧ (∀ s : Z,
       start = JS.Finite s →
       - 2 ^ 53 < s →
       s + Z.of_nat (length json
                     * (size usedN + size usedU + 2 * length json + 1))
       ≤ 2 ^ 53 →
       (size usedN + size usedU + 2 * length json < fuel)%nat →
       is_Some (allocateBatch fuel json start now usedN usedU)).
Proof.
  split; [| split];
    [| intros st row Hb; by apply processRow_blank
     | intros s -> Hlo Hhi Hfuel; by apply allocateBatch_terminates].
  intros final Hrun. unfold allocateBatch in *.
  destruct (forEachRow_sound fuel now usedN usedU json _ _ Hrun
              (batchInvariant_start start usedN usedU)) as [_ Hnames].
  simpl in Hnames. split; [done |]. split.
  - rewrite <- (length_fmap name), Hnames. by rewrite length_fmap.
  - intros r Hr.
    assert (name r ∈ name <$> rows final) as Hin
      by (apply list_elem_of_fmap; eauto).
    rewrite Hnames in Hin.
    apply list_elem_of_fmap in Hin as (s & -> & Hs).
    apply list_elem_of_filter in Hs as [Hs _]. by apply trim_not_blank.
Qed.

Lemma allocateBatch_skips_blank_witness :
  ∃ final,
    allocateBatch 7
      [mkSheetRow (Some "Udin"); mkSheetRow (Some "  "); mkSheetRow None]
      1 (mkDate 2025 2 7) ∅ ∅ = Some final
    ∧ length (rows final) = 1%nat.
Proof.
  destruct (allocateBatch_skips_blank 7
              [mkSheetRow (Some "Udin"); mkSheetRow (Some "  ");
               mkSheetRow None]
              1 (mkDate 2025 2 7) ∅ ∅) as (Hsound & _ & Hruns).
  destruct (Hruns 1) as [final Hrun].
  - reflexivity.
  - lia.
  - vm_compute. discriminate.
  - vm_compute. lia.
  - exists final. split; [exact Hrun |].
    destruct (Hsound final Hrun) as (_ & Hlen & _). exact Hlen.
Defined.

(** ** The request URL *)

Lemma requestUrl_eq (API_BASE_URL : string) (st : ClientState)
    (options : ApiRequestOptions) :
  requestUrl API_BASE_URL st options = buildUrl API_BASE_URL options.
Proof.
  unfold requestUrl, buildRequest.
  by destruct (authHeaders options st (contentHeaders options)).
Qed.

Lemma allSlashes_repeat (s : string) :
  allSlashes s = true → s = JS.repeatChar "/" (String.length s).
Proof.
  induction s as [|c s IH]; simpl; [done |].
  intros [Hc Hs]%andb_true_iff. apply bool_decide_eq_true in Hc.
  subst c. f_equal. by apply IH.
Qed.

Lemma allChars_repeat_slash (k : nat) :
  allSlashes (JS.repeatChar "/" k) = true.
Proof. induction k as [|k IH]; simpl; [done |]. by rewrite IH. Qed.

Lemma stripTrailingSlashes_spec (s : string) :
  ∃ k, s = stripTrailingSlashes s +:+ JS.repeatChar "/" k
       ∧ endsWithSlash (stripTrailingSlashes s) = false.
Proof.
  induction s as [|c s (k & IH & Hend)]; [by exists 0%nat |].
  simpl. destruct (isSlash c && allSlashes s) eqn:Hall.
  - apply andb_true_iff in Hall as [Hc Hs].
    exists (S (String.length s)). split; [| done].
    rewrite string_app_empty_l. simpl.
    apply bool_decide_eq_true in Hc. subst c. f_equal.
    by apply allSlashes_repeat.
  - exists k. rewrite string_app_cons. split; [by rewrite <- IH |].
    destruct (stripTrailingSlashes s) as [|d t] eqn:Ht; [| done].
    simpl. apply andb_false_iff in Hall as [Hc|Hs]; [done |].
    rewrite string_app_empty_l in IH. subst s.
    rewrite allChars_repeat_slash in Hs. done.
Qed.

Lemma stripLeadingSlashes_spec (s : string) :
  ∃ k, s = JS.repeatChar "/" k +:+ stripLeadingSlashes s
       ∧ JS.startsWith (stripLeadingSlashes s) "/" = false.
Proof.
  induction s as [|c s (k & IH & Hstart)]; [by exists 0%nat |].
  simpl. destruct (isSlash c) eqn:Hc.
  - exists (S k). simpl. rewrite string_app_cons.
    apply bool_decide_eq_true in Hc. subst c. split; [by f_equal | done].
  - exists 0%nat. split; [done |].
    rewrite startsWith_char. apply bool_decide_eq_false.
    intros <-. by vm_compute in Hc.
Qed.

(** C10.  A path that starts with "http" is the URL as it stands, the base
    URL is not used; any other path is joined to the base URL with one
    slash, after the slashes at the end of the base and at the start of
    the path are removed.  The query string, if any, follows. *)
Theorem base_url_spec (API_BASE_URL : string) (st : ClientState)
    (options : ApiRequestOptions) :
  (JS.startsWith (path options) "http" = true →
     baseUrl API_BASE_URL (path options) = path options
     ∧ (query options = None →
        requestUrl API_BASE_URL st options = path options))
  ∧ (JS.startsWith (path options) "http" = false →
     ∃ b p i j,
       API_BASE_URL = b +:+ JS.repeatChar "/" i
       ∧ path options = JS.repeatChar "/" j +:+ p
       ∧ endsWithSlash b = false
       ∧ JS.startsWith p "/" = false
       ∧ baseUrl API_BASE_URL (path options) = b +:+ "/" +:+ p
       ∧ (query options = None →
          requestUrl API_BASE_URL st options = b +:+ "/" +:+ p))
  ∧ requestUrl API_BASE_URL st options
    = addQuery (baseUrl API_BASE_URL (path options)) (query options).
Proof.
  rewrite requestUrl_eq. unfold buildUrl, baseUrl.
  split; [| split; [| done]].
  - intros ->. split; [done |]. by intros ->.
  - intros ->.
    destruct (stripTrailingSlashes_spec API_BASE_URL) as (i & Hb & Hend).
    destruct (stripLeadingSlashes_spec (path options)) as (j & Hp & Hstart).
    exists (stripTrailingSlashes API_BASE_URL),
      (stripLeadingSlashes (path options)), i, j.
    repeat (split; [done |]). by intros ->.
Qed.

Lemma base_url_spec_witness :
  requestUrl "https://backend-lms.farros.space/" (mkClientState None NoWindow)
    (mkOptions "/api/ping" None BodyUndefined None None (Some false) None)
  = "https://backend-lms.farros.space/api/ping"
  ∧ requestUrl "https://backend-lms.farros.space" (mkClientState None NoWindow)
      (mkOptions "https://example.org/x" None BodyUndefined None None
         (Some false) None)
    = "https://example.org/x".
Proof.
  split.
  - destruct (base_url_spec "https://backend-lms.farros.space/"
                (mkClientState None NoWindow)
                (mkOptions "/api/ping" None BodyUndefined None None
                   (Some false) None)) as (_ & Hjoin & _).
    destruct Hjoin as (b & p & i & j & _ & _ & _ & _ & Hbase & Hurl);
      [reflexivity |].
    rewrite (Hurl eq_refl), <- Hbase. reflexivity.
  - destruct (base_url_spec "https://backend-lms.farros.space"
                (mkClientState None NoWindow)
                (mkOptions "https://example.org/x" None BodyUndefined None
                   None (Some false) None)) as (Hhttp & _).
    destruct Hhttp as [_ Hurl]; [reflexivity |].
    exact (Hurl eq_refl).
Defined.

(** ** The query string *)

Lemma keptEntries_cons (entry : string * QueryValue)
    (entries : list (string * QueryValue)) :
  keptEntries (entry :: entries) =
  if querySkipped entry.2 then keptEntries entries
  else entry :: keptEntries entries.
Proof.
  unfold keptEntries. rewrite filter_cons.
  destruct (querySkipped entry.2); by simpl.
Qed.

Lemma appendParams_kept (entries : list (string * QueryValue)) :
  appendParams entries =
  (λ entry, (entry.1, queryValueToString entry.2)) <$> keptEntries entries.
Proof.
  induction entries as [|[key value] entries IH]; [done |].
  rewrite keptEntries_cons. simpl.
  destruct (querySkipped value); [done |]. simpl. by rewrite IH.
Qed.

Lemma serializeParams_concat (params : list (string * string)) :
  serializeParams params =
  String.concat "&" ((λ kv, urlencode kv.1 +:+ "=" +:+ urlencode kv.2)
                       <$> params).
Proof.
  induction params as [|[k v] params IH]; [done |].
  destruct params as [|kv params]; [done |].
  change (serializeParams ((k, v) :: kv :: params))
    with (urlencode k +:+ "=" +:+ urlencode v +:+ "&"
          +:+ serializeParams (kv :: params)).
  rewrite IH. simpl. by rewrite !string_app_assoc.
Qed.

(** The query string is the encoded pairs of the kept entries, joined
    by [&]. *)
Lemma query_string_pairs (entries : list (string * QueryValue)) :
  serializeParams (appendParams entries) =
  String.concat "&" (encodedPair <$> keptEntries entries).
Proof.
  rewrite serializeParams_concat, appendParams_kept, <- list_fmap_compose.
  done.
Qed.

Lemma encodedPair_not_empty (entry : string * QueryValue) :
  encodedPair entry ≠ "".
Proof.
  unfold encodedPair. intros He.
  apply (f_equal String.length) in He.
  rewrite !string_length_app in He. simpl in He. lia.
Qed.

Lemma concat_pairs_empty (entries : list (string * QueryValue)) :
  String.concat "&" (encodedPair <$> entries) = "" ↔ entries = [].
Proof.
  split; [| by intros ->].
  destruct entries as [|e1 entries]; [done |]. intros He. exfalso.
  destruct entries as [|e2 entries].
  - by apply (encodedPair_not_empty e1).
  - apply (encodedPair_not_empty e1).
    change (encodedPair e1 +:+ "&"
            +:+ String.concat "&" (encodedPair <$> e2 :: entries) = "") in He.
    apply (f_equal String.length) in He.
    rewrite !string_length_app in He. simpl in He. lia.
Qed.

Lemma querySkipped_spec (v : QueryValue) :
  querySkipped v = false ↔ v ≠ QNull ∧ v ≠ QUndefined ∧ v ≠ QString "".
Proof.
  destruct v as [s| | | |]; simpl; try (split; [done | tauto]);
    try (split; [done | intros (? & ? & ?); done]).
  rewrite bool_decide_eq_false. split.
  - intros Hs. repeat split; try done. by intros [= ->].
  - intros (_ & _ & Hs) ->. done.
Qed.

Lemma urlencodeChar_safe (c : ascii) :
  allChars (λ d, negb (isDelimiter d)) (urlencodeChar c) = true.
Proof. destruct c as [[] [] [] [] [] [] [] []]; by vm_compute. Qed.

Lemma urlencode_safe (s : string) :
  allChars (λ d, negb (isDelimiter d)) (urlencode s) = true.
Proof.
  induction s as [|c s IH]; simpl; [done |].
  by rewrite allChars_app, urlencodeChar_safe, IH.
Qed.

(** C5.  With a query object, the URL is the base URL followed by the
    URL-encoded [key=value] pairs of the entries whose value is not
    [null], [undefined] or the empty string, joined by [&]; the other
    entries leave no trace.  For the query [search: "", role: "dosen"] the
    query string is [role=dosen]. *)
Theorem query_string_spec (API_BASE_URL : string) (st : ClientState)
    (options : ApiRequestOptions) (entries : list (string * QueryValue)) :
  query options = Some entries →
  let url := baseUrl API_BASE_URL (path options) in
  let pairs := encodedPair <$> keptEntries entries in
  requestUrl API_BASE_URL st options =
    (if bool_decide (keptEntries entries = []) then url
     else url +:+ (if JS.includes url "?" then "&" else "?")
          +:+ String.concat "&" pairs)
  ∧ (∀ entry, entry ∈ keptEntries entries ↔
       entry ∈ entries
       ∧ entry.2 ≠ QNull ∧ entry.2 ≠ QUndefined ∧ entry.2 ≠ QString "")
  ∧ (∀ entry, allChars (λ d, negb (isDelimiter d))
                (urlencode entry.1) = true
              ∧ allChars (λ d, negb (isDelimiter d))
                  (urlencode (queryValueToString entry.2)) = true)
  ∧ (∀ before after key value,
       entries = before ++ (key, value) :: after →
       querySkipped value = true →
       requestUrl API_BASE_URL st options =
       addQuery url (Some (before ++ after)))
  ∧ addQuery url (Some [("search", QString ""); ("role", QString "dosen")])
    = url +:+ (if JS.includes url "?" then "&" else "?") +:+ "role=dosen".
Proof.
  intros Hq url pairs.
  assert (∀ l, addQuery url (Some l) =
               if bool_decide (keptEntries l = []) then url
               else url +:+ (if JS.includes url "?" then "&" else "?")
                    +:+ String.concat "&" (encodedPair <$> keptEntries l))
    as Hadd.
  { intros l. unfold addQuery. destruct l as [|e l]; [done |].
    rewrite query_string_pairs.
    by rewrite (bool_decide_ext _ _ (concat_pairs_empty _)). }
  split; [| split; [| split; [| split]]].
  - rewrite requestUrl_eq. unfold buildUrl. rewrite Hq. apply Hadd.
  - intros entry. unfold keptEntries. rewrite list_elem_of_filter.
    rewrite querySkipped_spec. tauto.
  - intros entry. split; apply urlencode_safe.
  - intros before after key value -> Hskip.
    rewrite requestUrl_eq. unfold buildUrl. rewrite Hq, !Hadd.
    unfold keptEntries. rewrite !filter_app, filter_cons. simpl.
    rewrite Hskip. rewrite decide_False by done. done.
  - rewrite Hadd. done.
Qed.

Lemma query_string_spec_witness :
  requestUrl "https://backend-lms.farros.space" (mkClientState None NoWindow)
    (mkOptions "/api/admin/users" (Some GET) BodyUndefined
       (Some [("search", QString ""); ("role", QString "dosen")])
       None (Some false) None)
  = "https://backend-lms.farros.space/api/admin/users?role=dosen".
Proof.
  destruct (query_string_spec "https://backend-lms.farros.space"
              (mkClientState None NoWindow)
              (mkOptions "/api/admin/users" (Some GET) BodyUndefined
                 (Some [("search", QString ""); ("role", QString "dosen")])
                 None (Some false) None)
              [("search", QString ""); ("role", QString "dosen")])
    as (Hurl & _); [reflexivity |].
  rewrite Hurl. vm_compute. reflexivity.
Defined.

(** ** The stored token *)

Lemma getAuthToken_set (token : string) (st : ClientState) :
  token ≠ "" → (getAuthToken (setAuthToken token st)).1 = Some token.
Proof.
  intros Hne. unfold getAuthToken, setAuthToken. simpl.
  by rewrite bool_decide_eq_false_2.
Qed.

Lemma getAuthToken_clear (st : ClientState) :
  (getAuthToken (clearAuthToken st)).1 = None.
Proof.
  unfold getAuthToken, clearAuthToken. simpl.
  by destruct (localStorage st).
Qed.

(** ** Request headers *)

Lemma requestHeaders_eq (API_BASE_URL : string) (st : ClientState)
    (options : ApiRequestOptions) :
  requestHeaders API_BASE_URL st options
  = (authHeaders options st (contentHeaders options)).1.
Proof.
  unfold requestHeaders, buildRequest.
  by destruct (authHeaders options st (contentHeaders options)).
Qed.

Lemma authHeaders_other (options : ApiRequestOptions) (st : ClientState)
    (h : gmap string string) (key : string) :
  key ≠ "Authorization" → (authHeaders options st h).1 !! key = h !! key.
Proof.
  intros Hkey. unfold authHeaders.
  destruct (default true (withAuth options)); [| done].
  destruct (resolveToken options st) as [token st'].
  destruct (truthyString token); simpl; [| done].
  by rewrite lookup_insert_ne.
Qed.

Lemma contentHeaders_accept (options : ApiRequestOptions) :
  contentHeaders options !! "Accept"
  = Some (default "application/json"
            (default ∅ (headers options) !! "Accept")).
Proof.
  assert ((default ∅ (headers options) ∪ {[ "Accept" := "application/json" ]}
           : gmap string string) !! "Accept"
          = Some (default "application/json"
                    (default ∅ (headers options) !! "Accept"))) as Hacc.
  { destruct (default ∅ (headers options) !! "Accept") as [v|] eqn:Hv.
    - by apply lookup_union_Some_l.
    - rewrite lookup_union_r by done. by rewrite lookup_singleton_eq. }
  unfold contentHeaders. destruct (body options) as [| |v]; try done.
  destruct (isNull v); [done |]. by rewrite lookup_insert_ne.
Qed.

Lemma contentHeaders_content_type (options : ApiRequestOptions) :
  contentHeaders options !! "Content-Type"
  = match default ∅ (headers options) !! "Content-Type" with
    | Some v => Some v
    | None =>
        match body options with
        | BodyValue v => if isNull v then None else Some "application/json"
        | _ => None
        end
    end.
Proof.
  assert ((default ∅ (headers options) ∪ {[ "Accept" := "application/json" ]}
           : gmap string string) !! "Content-Type"
          = default ∅ (headers options) !! "Content-Type") as Hct.
  { destruct (default ∅ (headers options) !! "Content-Type") as [v|] eqn:Hv.
    - by apply lookup_union_Some_l.
    - rewrite lookup_union_r by done. by rewrite lookup_singleton_ne. }
  unfold contentHeaders.
  destruct (body options) as [| |v]; try (rewrite Hct; by case_match).
  destruct (isNull v); [rewrite Hct; by case_match |].
  rewrite lookup_insert_eq, Hct. by case_match.
Qed.

(** C9.  With [withAuth] left out or true and a token that resolves (the
    override if given, the stored token otherwise), the request carries
    [Authorization: Bearer <token>] whatever the caller put under that
    key, while the caller's [Accept] and [Content-Type] replace the
    defaults. *)
Theorem authorization_overwrites (API_BASE_URL : string) (st : ClientState)
    (options : ApiRequestOptions) (token : string) :
  withAuth options ≠ Some false →
  (resolveToken options st).1 = Some token →
  token ≠ "" →
  let h := requestHeaders API_BASE_URL st options in
  h !! "Authorization" = Some ("Bearer " +:+ token)
  ∧ (∀ t, tokenOverride options = Some t →
          (resolveToken options st).1 = Some t)
  ∧ (tokenOverride options = None →
     (resolveToken options st).1 = (getAuthToken st).1)
  ∧ h !! "Accept"
    = Some (default "application/json"
              (default ∅ (headers options) !! "Accept"))
  ∧ h !! "Content-Type"
    = match default ∅ (headers options) !! "Content-Type" with
      | Some v => Some v
      | None =>
          match body options with
          | BodyValue v => if isNull v then None else Some "application/json"
          | _ => None
          end
      end.
Proof.
  intros Hauth Htoken Hne h. subst h. rewrite requestHeaders_eq.
  split; [| split; [| split; [| split]]].
  - unfold authHeaders.
    assert (default true (withAuth options) = true) as ->.
    { destruct (withAuth options) as [[]|]; done. }
    destruct (resolveToken options st) as [tok st']. simpl in Htoken.
    subst tok. simpl. rewrite bool_decide_eq_false_2 by done. simpl.
    by rewrite lookup_insert_eq.
  - intros t Ht. unfold resolveToken. by rewrite Ht.
  - intros Ht. unfold resolveToken. by rewrite Ht.
  - rewrite authHeaders_other by done. apply contentHeaders_accept.
  - rewrite authHeaders_other by done. apply contentHeaders_content_type.
Qed.

Lemma authorization_overwrites_witness :
  requestHeaders "https://backend-lms.farros.space"
    (mkClientState (Some "stored") NoWindow)
    (mkOptions "/api/me" None BodyUndefined None
       (Some {[ "Authorization" := "Basic abc"; "Accept" := "text/plain" ]})
       None None)
  !! "Authorization" = Some "Bearer stored".
Proof.
  destruct (authorization_overwrites "https://backend-lms.farros.space"
              (mkClientState (Some "stored") NoWindow)
              (mkOptions "/api/me" None BodyUndefined None
                 (Some {[ "Authorization" := "Basic abc";
                          "Accept" := "text/plain" ]})
                 None None) "stored") as (Hauth & _).
  - discriminate.
  - reflexivity.
  - discriminate.
  - exact Hauth.
Defined.

(** ** The response *)

Lemma apiRequest_outcome (API_BASE_URL : string)
    (fetch : Request → option Response) (st : ClientState)
    (options : ApiRequestOptions) (response : Response) :
  fetch (buildRequest API_BASE_URL st options).1 = Some response →
  (apiRequest API_BASE_URL fetch st options).1 = handleResponse response.
Proof.
  unfold apiRequest.
  destruct (buildRequest API_BASE_URL st options) as [request st'].
  simpl. by intros ->.
Qed.

Lemma errorMessage_null (response : Response) :
  errorMessage response JNull = genericMessage (status response).
Proof. unfold errorMessage. simpl. by rewrite andb_false_r. Qed.

(** C8.  When the content type is JSON but the body does not parse, or
    the content type is not JSON, the response data is [null]: a 2xx
    response makes the call return [null], any other status raises the
    [ApiError] with [null] as its data. *)
Theorem unparsable_body_is_null (API_BASE_URL : string)
    (fetch : Request → option Response) (st : ClientState)
    (options : ApiRequestOptions) (response : Response) :
  fetch (buildRequest API_BASE_URL st options).1 = Some response →
  (isJsonResponse response = true ∧ json response = None)
  ∨ isJsonResponse response = false →
  responseDataOf response = JNull
  ∧ (ok response = true →
     (apiRequest API_BASE_URL fetch st options).1 = Returned JNull)
  ∧ (ok response = false →
     (apiRequest API_BASE_URL fetch st options).1
     = Thrown {| err_message := genericMessage (status response);
                 err_status := status response;
                 err_data := JNull |}).
Proof.
  intros Hfetch Hbody.
  assert (responseDataOf response = JNull) as Hnull.
  { unfold responseDataOf. destruct Hbody as [[-> ->]| ->]; done. }
  rewrite (apiRequest_outcome _ _ _ _ _ Hfetch). unfold handleResponse.
  rewrite Hnull, errorMessage_null.
  split; [done |]. split; intros ->; done.
Qed.

Lemma unparsable_body_is_null_witness :
  (apiRequest "https://backend-lms.farros.space"
     (λ _, Some (mkResponse 200 (Some "application/json") None))
     (mkClientState None NoWindow)
     (mkOptions "/api/ping" None BodyUndefined None None (Some false) None)).1
  = Returned JNull.
Proof.
  destruct (unparsable_body_is_null "https://backend-lms.farros.space"
              (λ _, Some (mkResponse 200 (Some "application/json") None))
              (mkClientState None NoWindow)
              (mkOptions "/api/ping" None BodyUndefined None None
                 (Some false) None)
              (mkResponse 200 (Some "application/json") None))
    as (_ & Hok & _).
  - reflexivity.
  - left. split; reflexivity.
  - apply Hok. reflexivity.
Defined.






(** The [message] field wins over a truthy [error] even when it is the
    empty string. *)
Example empty_message_with_error :
  handleResponse
    (mkResponse 500 (Some "application/json")
       (Some (JObject {[ "message" := JString "";
                         "error" := JString "Oops" ]})))
  = Thrown {| err_message := "";
              err_status := 500;
              err_data := JObject {[ "message" := JString "";
                                     "error" := JString "Oops" ]} |}.
Proof. by vm_compute. Qed.

(** ** Scenarios *)

Example generate_al :
  generateNimAndPassword "Al" 7 (mkDate 2025 2 7)
  = mkGenerated "20250307007" "al007" "20250307007".
Proof. by vm_compute. Qed.

Example allocate_udin_udin :
  rows <$> allocateBatch 1 [mkSheetRow (Some "Udin"); mkSheetRow (Some "Udin")]
             1 (mkDate 2025 2 7) ∅ ∅
  = Some [ mkBulkStudentRow 1 "Udin" "20250307001" "20250307001" "udin001";
           mkBulkStudentRow 2 "Udin" "20250307002" "20250307002" "udin002" ].
Proof. by vm_compute. Qed.

(** A NIM of today that is already taken is stepped over. *)
Example upload_skips_taken :
  handleUploadTemplate 4
    [ mkUser "Siti" "20250307001" (Some "20250307001") mahasiswa;
      mkUser "Pak Budi" "20250307002" None dosen ]
    [ mkSheetRow (Some " Udin "); mkSheetRow None; mkSheetRow (Some "Al") ]
    (mkDate 2025 2 7)
  = Some [ mkBulkStudentRow 3 "Udin" "20250307003" "20250307003" "udin003";
           mkBulkStudentRow 4 "Al" "20250307004" "20250307004" "al004" ].
Proof. by vm_compute. Qed.

(** * Further properties *)

(** ** The loop returns the first free order *)

Lemma iter_plusOne_exact (z : Z) (k : nat) :
  - 2 ^ 53 < z → z + Z.of_nat k ≤ 2 ^ 53 →
  Nat.iter k JS.plusOne (JS.Finite z) = JS.Finite (z + Z.of_nat k).
Proof.
  intros Hlo. induction k as [|k IH]; intros Hhi.
  - simpl. f_equal. lia.
  - rewrite Nat.iter_succ, IH by lia. rewrite plusOne_exact by lia.
    f_equal. lia.
Qed.

(** X1.  The [while (true)] loop returns an order exactly when that order
    is reached from the candidate by adding 1 fewer times than the fuel,
    its NIM and username are both unused, and at every order reached
    before it the NIM or the username is taken.  From a candidate above
    -2^53 the orders reached are the candidate plus 0, 1, 2, ... as long
    as they do not pass 2^53.  Where adding 1 does not move the order, as
    at 2^53, and the NIM or the username of that order is taken, the loop
    never ends. *)
Theorem findFreeOrder_least (fuel : nat) (rawName : string) (c : JS.Number)
    (now : Date) (usedN usedU : gset string) (c' : JS.Number)
    (g : Generated) :
  (findFreeOrder fuel rawName c now usedN usedU = Some (c', g)
   ↔ ∃ k : nat,
       (k < fuel)%nat
       ∧ c' = Nat.iter k JS.plusOne c
       ∧ g = generateNimAndPassword rawName c' now
       ∧ (g_nim g ∉ usedN) ∧ (g_username g ∉ usedU)
       ∧ ∀ j : nat, (j < k)%nat →
           taken rawName now usedN usedU (Nat.iter j JS.plusOne c))
  ∧ (∀ (z : Z) (k : nat),
       c = JS.Finite z → - 2 ^ 53 < z → z + Z.of_nat k ≤ 2 ^ 53 →
       Nat.iter k JS.plusOne c = JS.Finite (z + Z.of_nat k))
  ∧ (JS.plusOne c = c → taken rawName now usedN usedU c →
     findFreeOrder fuel rawName c now usedN usedU = None)
  ∧ JS.plusOne (JS.Finite (2 ^ 53)) = JS.Finite (2 ^ 53).
Proof.
  split; [| split; [| split]];
    [| intros z k ->; apply iter_plusOne_exact
     | apply findFreeOrder_stuck | apply plusOne_stuck].
  revert c. induction fuel as [|fuel IH]; intros c.
  { simpl. split; [done |]. intros (k & Hk & _). lia. }
  cbn [findFreeOrder]. cbv zeta.
  destruct (decide (taken rawName now usedN usedU c)) as [Htaken|Hfree].
  - assert (negb (bool_decide
                    (g_nim (generateNimAndPassword rawName c now) ∈ usedN))
            && negb (bool_decide
                       (g_username (generateNimAndPassword rawName c now)
                        ∈ usedU)) = false) as ->.
    { destruct Htaken as [H|H]; rewrite (bool_decide_eq_true_2 _ H);
        [done | apply andb_false_r]. }
    rewrite IH. split.
    + intros (k & Hk & Hc' & Hg & HgN & HgU & Hused).
      exists (S k). rewrite Nat.iter_succ_r.
      split; [lia |]. do 4 (split; [done |]).
      intros [|j] Hj; [done |]. rewrite Nat.iter_succ_r. apply Hused. lia.
    + intros (k & Hk & Hc' & Hg & HgN & HgU & Hused).
      destruct k as [|k].
      { simpl in Hc'. subst c' g. by destruct Htaken. }
      exists k. rewrite Nat.iter_succ_r in Hc'.
      split; [lia |]. do 4 (split; [done |]).
      intros j Hj. specialize (Hused (S j) ltac:(lia)).
      by rewrite Nat.iter_succ_r in Hused.
  - assert ((g_nim (generateNimAndPassword rawName c now) ∉ usedN)
            ∧ (g_username (generateNimAndPassword rawName c now) ∉ usedU))
      as [HN HU] by (unfold taken in Hfree; tauto).
    rewrite !bool_decide_eq_false_2 by done. simpl negb. cbv iota.
    split.
    + intros [= <- <-]. exists 0%nat. simpl. split; [lia |].
      do 4 (split; [done |]). intros j Hj. lia.
    + intros (k & Hk & Hc' & Hg & _ & _ & Hused).
      destruct k as [|k]; [simpl in Hc'; by subst c' g |].
      destruct Hfree. apply (Hused 0%nat). lia.
Qed.

Lemma findFreeOrder_least_witness :
  findFreeOrder 3 "Udin" (JS.Finite 1) (mkDate 2025 2 7)
    {[ "20250307001" ]} ∅
  = Some (JS.Finite 2,
          generateNimAndPassword "Udin" (JS.Finite 2) (mkDate 2025 2 7))
  ∧ Nat.iter 2 JS.plusOne (JS.Finite 1) = JS.Finite 3.
Proof.
  destruct (findFreeOrder_least 3 "Udin" (JS.Finite 1) (mkDate 2025 2 7)
              {[ "20250307001" ]} ∅ (JS.Finite 2)
              (generateNimAndPassword "Udin" (JS.Finite 2)
                 (mkDate 2025 2 7))) as (Hiff & Hiter & _).
  split.
  - apply Hiff. exists 1%nat.
    split; [lia |]. split; [reflexivity |]. split; [reflexivity |].
    split; [by vm_compute |]. split; [by vm_compute |].
    intros j Hj. assert (j = 0%nat) as -> by lia. left. by vm_compute.
  - apply (Hiter 1 2%nat); [reflexivity | lia | lia].
Defined.

(** ** The rows are the generator's, in growing order *)

Lemma processRow_some (fuel : nat) (now : Date) (st st' : BatchState)
    (row : SheetRow) :
  processRow fuel now st row = Some st' →
  (isBlank (rowName row) = true ∧ st' = st)
  ∨ (isBlank (rowName row) = false
     ∧ ∃ c g,
         findFreeOrder fuel (JS.trim (rowName row)) (baseOrder st) now
           (usedNims st) (usedUsernames st) = Some (c, g)
         ∧ st' = {| baseOrder := JS.plusOne c;
                    rows := rows st ++ [rowOf now (JS.trim (rowName row)) c];
                    usedNims := {[ g_nim g ]} ∪ usedNims st;
                    usedUsernames := {[ g_username g ]} ∪ usedUsernames st |}).
Proof.
  destruct (isBlank (rowName row)) eqn:Hb.
  - rewrite processRow_blank by done. intros [= <-]. by left.
  - unfold processRow. fold (rowName row).
    rewrite bool_decide_eq_false_2
      by (intros He%trim_empty; congruence).
    destruct (findFreeOrder _ _ _ _ _ _) as [[c g]|] eqn:Hfind; [| done].
    simpl. intros [= <-]. right. split; [done |]. exists c, g.
    split; [done |].
    apply findFreeOrder_sound in Hfind as (-> & _). done.
Qed.

(** Every row that the loop returns is the generator's output for its
    name and order. *)
Lemma rows_generated (fuel : nat) (now : Date) (json : list SheetRow)
    (st final : BatchState) :
  forEachRow fuel now json st = Some final →
  (∀ r, r ∈ rows st → r = rowOf now (name r) (order r)) →
  ∀ r, r ∈ rows final → r = rowOf now (name r) (order r).
Proof.
  revert st. induction json as [|row json IH]; intros st; simpl.
  { by intros [= <-]. }
  destruct (processRow fuel now st row) as [st'|] eqn:Hrow; [| done].
  simpl. intros Hrun Hrows. apply (IH st' Hrun).
  apply processRow_some in Hrow as [[_ ->]|[_ (c & g & _ & ->)]]; [done |].
  cbn [rows]. intros r [Hr|Hr]%elem_of_app; [by apply Hrows |].
  apply list_elem_of_singleton in Hr. by subst r.
Qed.

(** Rows with different NIMs have different orders. *)
Lemma rows_distinct_orders (now : Date) (l : list BulkStudentRow) :
  (∀ r, r ∈ l → r = rowOf now (name r) (order r)) →
  NoDup (nim <$> l) →
  NoDup (order <$> l).
Proof.
  intros Hrows Hnd.
  assert (nim <$> l
          = (λ o, datePrefix now +:+ JS.padStart 3 "0" (JS.numberToString o))
            <$> (order <$> l)) as Heq.
  { rewrite <- list_fmap_compose. apply list_fmap_ext. intros i r Hr.
    apply list_elem_of_lookup_2, Hrows in Hr. rewrite Hr at 1.
    unfold rowOf. cbn [nim]. by rewrite generated_nim. }
  rewrite Heq in Hnd. by apply NoDup_fmap_1 in Hnd.
Qed.

(** One name that is not blank, orders below 2^53: the row gets the
    first free order, at most as far from the base order as there are
    used strings. *)
Lemma processRow_range (fuel : nat) (now : Date) (st : BatchState)
    (row : SheetRow) (b : Z) :
  isBlank (rowName row) = false →
  baseOrder st = JS.Finite b →
  - 2 ^ 53 < b →
  b + Z.of_nat (size (usedNims st) + size (usedUsernames st)) < 2 ^ 53 →
  (size (usedNims st) + size (usedUsernames st) < fuel)%nat →
  ∃ (j : nat) g,
    (j ≤ size (usedNims st) + size (usedUsernames st))%nat
    ∧ processRow fuel now st row
      = Some {| baseOrder := JS.Finite (b + Z.of_nat j + 1);
                rows := rows st
                        ++ [rowOf now (JS.trim (rowName row))
                              (JS.Finite (b + Z.of_nat j))];
                usedNims := {[ g_nim g ]} ∪ usedNims st;
                usedUsernames := {[ g_username g ]} ∪ usedUsernames st |}.
Proof.
  intros Hb Hbase Hlo Hhi Hfuel.
  destruct (findFreeOrder_terminates fuel (JS.trim (rowName row)) b now
              (usedNims st) (usedUsernames st) Hlo Hhi Hfuel)
    as (j & g & Hj & Hfind).
  exists j, g. split; [done |].
  unfold processRow. fold (rowName row).
  rewrite bool_decide_eq_false_2 by (intros He%trim_empty; congruence).
  rewrite Hbase, Hfind. cbn [mbind option_bind].
  rewrite plusOne_exact by lia.
  apply findFreeOrder_sound in Hfind as (-> & _). done.
Qed.

Lemma batchOrdered_snoc (start b c : Z) (st : BatchState)
    (r : BulkStudentRow) (usedN usedU : gset string) :
  batchOrdered start b st →
  b ≤ c → order r = JS.Finite c →
  batchOrdered start (c + 1)
    {| baseOrder := JS.Finite (c + 1); rows := rows st ++ [r];
       usedNims := usedN; usedUsernames := usedU |}.
Proof.
  intros (Hbase & Hstart & Hrows & Hinc) Hc Hr.
  unfold batchOrdered. cbn [baseOrder rows].
  split; [done |]. split; [lia |]. split.
  - intros r' [Hr'|Hr']%elem_of_app.
    + destruct (Hrows r' Hr') as (o & Ho & Hbound). exists o.
      split; [done | lia].
    + apply list_elem_of_singleton in Hr'. subst r'. exists c.
      split; [done | lia].
  - intros i j ri rj Hij Hi Hj.
    destruct (decide (j < length (rows st))%nat) as [Hjl|Hjl].
    + rewrite lookup_app_l in Hi, Hj by lia.
      exact (Hinc i j ri rj Hij Hi Hj).
    + assert (j < length (rows st) + 1)%nat as Hjl'.
      { apply lookup_lt_Some in Hj. rewrite length_app in Hj. simpl in Hj.
        lia. }
      rewrite lookup_app_r in Hj by lia.
      apply list_lookup_singleton_Some in Hj as [_ <-].
      assert (i < length (rows st))%nat as Hil by lia.
      rewrite lookup_app_l in Hi by done.
      apply list_elem_of_lookup_2 in Hi.
      destruct (Hrows ri Hi) as (o & Ho & Hbound).
      rewrite Ho, Hr. unfold JS.lt. simpl. apply Z.ltb_lt. lia.
Qed.

(** With orders below 2^53 and fuel for every string the used sets can
    come to hold, the row loop runs to its end and numbers the rows in
    growing order. *)
Lemma forEachRow_range (fuel : nat) (now : Date) (usedN usedU : gset string)
    (json : list SheetRow) (st : BatchState) (start b : Z) (N : nat) :
  batchInvariant usedN usedU st →
  batchOrdered start b st →
  - 2 ^ 53 < b →
  (size usedN + size usedU + 2 * length (rows st) + 2 * length json
   ≤ N)%nat →
  b + Z.of_nat (length json * (N + 1)) ≤ 2 ^ 53 →
  (N < fuel)%nat →
  ∃ final b',
    forEachRow fuel now json st = Some final
    ∧ batchOrdered start b' final
    ∧ b' ≤ b + Z.of_nat (length json * (N + 1)).
Proof.
  revert st b. induction json as [|row json IH];
    intros st b Hinv Hord Hlo HN Hhi Hfuel.
  { exists st, b. split; [done |]. split; [done |]. simpl. lia. }
  cbn [forEachRow]. simpl in HN, Hhi.
  destruct (isBlank (rowName row)) eqn:Hb.
  - rewrite processRow_blank by done. simpl.
    destruct (IH st b) as (final & b' & Hrun & Hord' & Hb');
      try done; try lia.
    exists final, b'. split; [done |]. split; [done |]. simpl. lia.
  - pose proof Hinv as (_ & _ & _ & Hsize & _).
    pose proof Hord as (Hbase & _).
    destruct (processRow_range fuel now st row b Hb Hbase Hlo)
      as (j & g & Hj & Hrun); [lia | lia |].
    destruct (processRow_sound _ _ _ _ _ _ _ Hrun Hinv) as [Hinv' _].
    rewrite Hrun. simpl.
    edestruct (IH _ (b + Z.of_nat j + 1) Hinv')
      as (final & b' & Hfin & Hord' & Hb').
    + apply (batchOrdered_snoc start b (b + Z.of_nat j)); [done | lia | done].
    + lia.
    + cbn [rows]. rewrite length_app. simpl. lia.
    + lia.
    + done.
    + exists final, b'. split; [done |]. split; [done |]. simpl. lia.
Qed.

Lemma batchOrdered_start (start : Z) (usedN usedU : gset string) :
  batchOrdered start start
    {| baseOrder := JS.Finite start; rows := []; usedNims := usedN;
       usedUsernames := usedU |}.
Proof.
  unfold batchOrdered. simpl. split; [done |]. split; [lia |].
  split; [intros r Hr; inversion Hr | intros i j ri rj _ Hi; done].
Qed.

(** The rows of a run below 2^53. *)
Lemma allocateBatch_range (fuel : nat) (json : list SheetRow) (start : Z)
    (now : Date) (usedN usedU : gset string) :
  - 2 ^ 53 < start →
  start + Z.of_nat (length json
                    * (size usedN + size usedU + 2 * length json + 1))
  ≤ 2 ^ 53 →
  (size usedN + size usedU + 2 * length json < fuel)%nat →
  ∃ final,
    allocateBatch fuel json start now usedN usedU = Some final
    ∧ (∀ r, r ∈ rows final →
         ∃ o : Z, order r = JS.Finite o ∧ start ≤ o < 2 ^ 53)
    ∧ (∀ i j ri rj, (i < j)%nat →
         rows final !! i = Some ri → rows final !! j = Some rj →
         JS.lt (order ri) (order rj)).
Proof.
  intros Hlo Hhi Hfuel. unfold allocateBatch.
  destruct (forEachRow_range fuel now usedN usedU json _ start start
              (size usedN + size usedU + 2 * length json)
              (batchInvariant_start start usedN usedU)
              (batchOrdered_start start usedN usedU))
    as (final & b' & Hrun & (_ & _ & Hrows & Hinc) & Hb');
    [done | simpl; lia | done | done |].
  exists final. split; [done |]. split; [| done].
  intros r Hr. destruct (Hrows r Hr) as (o & Ho & Hbound).
  exists o. split; [done | lia].
Qed.

(** X2.  Every row that the loop returns holds exactly what
    [generateNimAndPassword] gives for its name and order, and no two
    rows have the same order.  When the orders the loop tries stay
    between -2^53 and 2^53 and there is fuel for every string the used
    sets can come to hold, the loop returns, and the orders of its rows
    are whole numbers at or after the start order that grow strictly. *)
Theorem allocateBatch_rows_ordered (fuel : nat) (json : list SheetRow)
    (start : JS.Number) (now : Date) (usedN usedU : gset string) :
  (∀ final,
     allocateBatch fuel json start now usedN usedU = Some final →
     (∀ r, r ∈ rows final → r = rowOf now (name r) (order r))
     ∧ NoDup (order <$> rows final))
  ∧ (∀ s : Z,
       start = JS.Finite s →
       - 2 ^ 53 < s →
       s + Z.of_nat (length json
                     * (size usedN + size usedU + 2 * length json + 1))
       ≤ 2 ^ 53 →
       (size usedN + size usedU + 2 * length json < fuel)%nat →
       ∃ final,
         allocateBatch fuel json start now usedN usedU = Some final
         ∧ (∀ r, r ∈ rows final →
              ∃ o : Z, order r = JS.Finite o ∧ s ≤ o < 2 ^ 53)
         ∧ (∀ i j ri rj, (i < j)%nat →
              rows final !! i = Some ri → rows final !! j = Some rj →
              JS.lt (order ri) (order rj))).
Proof.
  split; [| intros s -> Hlo Hhi Hfuel; by apply allocateBatch_range].
  intros final Hrun. unfold allocateBatch in Hrun.
  assert (∀ r, r ∈ rows final → r = rowOf now (name r) (order r)) as Hgen.
  { eapply rows_generated; [exact Hrun |]. intros r Hr. inversion Hr. }
  split; [done |]. apply (rows_distinct_orders now); [done |].
  by destruct (forEachRow_sound fuel now usedN usedU json _ _ Hrun
                 (batchInvariant_start start usedN usedU))
    as [(Hnd & _) _].
Qed.

Lemma allocateBatch_rows_ordered_witness :
  ∃ final,
    allocateBatch 5 [mkSheetRow (Some "Udin"); mkSheetRow (Some "Al")]
      1 (mkDate 2025 2 7) ∅ ∅ = Some final
    ∧ ∀ r, r ∈ rows final →
        ∃ o : Z, order r = JS.Finite o ∧ 1 ≤ o < 2 ^ 53.
Proof.
  destruct (allocateBatch_rows_ordered 5
              [mkSheetRow (Some "Udin"); mkSheetRow (Some "Al")]
              1 (mkDate 2025 2 7) ∅ ∅) as [_ Hrange].
  destruct (Hrange 1) as (final & Hrun & Hrows & _).
  - reflexivity.
  - lia.
  - vm_compute. discriminate.
  - vm_compute. lia.
  - exists final. split; [exact Hrun | exact Hrows].
Defined.

(** ** Consecutive orders when nothing clashes *)

Lemma findFreeOrder_first (fuel : nat) (rawName : string) (c : JS.Number)
    (now : Date) (usedN usedU : gset string) :
  g_nim (generateNimAndPassword rawName c now) ∉ usedN ∪ usedU →
  findFreeOrder (S fuel) rawName c now usedN usedU
  = Some (c, generateNimAndPassword rawName c now).
Proof.
  intros [HN HU]%not_elem_of_union. cbn [findFreeOrder]. cbv zeta.
  rewrite generated_username. by rewrite !bool_decide_eq_false_2.
Qed.

Lemma processRow_first (fuel : nat) (now : Date) (st : BatchState)
    (row : SheetRow) :
  isBlank (rowName row) = false →
  g_nim (generateNimAndPassword (JS.trim (rowName row)) (baseOrder st) now)
  ∉ usedNims st ∪ usedUsernames st →
  processRow (S fuel) now st row
  = Some {| baseOrder := JS.plusOne (baseOrder st);
            rows := rows st
                    ++ [rowOf now (JS.trim (rowName row)) (baseOrder st)];
            usedNims :=
              {[ g_nim (generateNimAndPassword (JS.trim (rowName row))
                          (baseOrder st) now) ]} ∪ usedNims st;
            usedUsernames :=
              {[ g_nim (generateNimAndPassword (JS.trim (rowName row))
                          (baseOrder st) now) ]} ∪ usedUsernames st |}.
Proof.
  intros Hb Hfree. unfold processRow. fold (rowName row).
  rewrite bool_decide_eq_false_2 by (intros He%trim_empty; congruence).
  by rewrite findFreeOrder_first.
Qed.

Lemma forEachRow_consecutive (fuel : nat) (now : Date)
    (json : list SheetRow) (st : BatchState) (b : Z) :
  let count :=
    Z.of_nat (length (filter (λ s, isBlank s = false) (rowName <$> json))) in
  baseOrder st = JS.Finite b →
  - 2 ^ 53 < b → b + count ≤ 2 ^ 53 →
  (∀ rawName k, b ≤ k < b + count →
     g_nim (generateNimAndPassword rawName (JS.Finite k) now)
     ∉ usedNims st ∪ usedUsernames st) →
  ∃ final,
    forEachRow (S fuel) now json st = Some final
    ∧ order <$> rows final =
        (order <$> rows st) ++ (JS.Finite <$> seqZ b count).
Proof.
  revert st b. induction json as [|row json IH]; intros st b count.
  { intros _ _ _ _. exists st. simpl. by rewrite app_nil_r. }
  subst count. cbn [fmap list_fmap]. rewrite filter_cons.
  destruct (isBlank (rowName row)) eqn:Hb.
  - rewrite decide_False by done. intros Hbase Hlo Hhi Hfree.
    cbn [forEachRow]. rewrite processRow_blank by done. by apply IH.
  - rewrite decide_True by done. cbn [length].
    rewrite Nat2Z.inj_succ. intros Hbase Hlo Hhi Hfree.
    cbn [forEachRow]. rewrite processRow_first;
      [| done | rewrite Hbase; apply Hfree; lia].
    cbn [mbind option_bind]. rewrite Hbase.
    rewrite plusOne_exact by lia.
    match goal with
    | |- context [forEachRow _ _ _ ?st'] =>
        destruct (IH st' (b + 1)) as (final & Hrun & Horders);
          [reflexivity | lia | lia | | exists final; split; [exact Hrun |]]
    end.
    + cbn [usedNims usedUsernames]. intros rawName k Hk.
      assert (g_nim (generateNimAndPassword rawName (JS.Finite k) now)
              ≠ g_nim (generateNimAndPassword (JS.trim (rowName row))
                         (JS.Finite b) now)) as Hne.
      { intros Heq%nim_inj; lia. }
      specialize (Hfree rawName k ltac:(lia)).
      apply not_elem_of_union in Hfree as [HN HU].
      rewrite !not_elem_of_union, !not_elem_of_singleton.
      repeat split; done.
    + rewrite Horders. cbn [rows]. rewrite fmap_app.
      rewrite (seqZ_cons b) by lia.
      rewrite <- app_assoc. cbn [fmap list_fmap app]. unfold rowOf at 1.
      cbn [order]. do 4 f_equal. lia.
Qed.

(** X3.  When the start order and the orders after it, one for each name
    that is not blank, are whole numbers between -2^53 and 2^53 and none
    of their NIMs is in the used sets, one turn of the loop suffices for
    every name and the rows are numbered consecutively from the start
    order.  From the start order 2^53 the loop does not end for two
    names: the second row finds the NIM of 2^53 taken, and 2^53 + 1 is
    2^53 again. *)
Theorem allocateBatch_consecutive (fuel : nat) (json : list SheetRow)
    (start : Z) (now : Date) (usedN usedU : gset string) :
  let count :=
    Z.of_nat (length (filter (λ s, isBlank s = false) (rowName <$> json))) in
  (- 2 ^ 53 < start → start + count ≤ 2 ^ 53 →
   (∀ rawName k, start ≤ k < start + count →
      g_nim (generateNimAndPassword rawName (JS.Finite k) now)
      ∉ usedN ∪ usedU) →
   ∃ final,
     allocateBatch (S fuel) json (JS.Finite start) now usedN usedU
     = Some final
     ∧ order <$> rows final = JS.Finite <$> seqZ start count)
  ∧ allocateBatch fuel [mkSheetRow (Some "Udin"); mkSheetRow (Some "Al")]
      (JS.Finite (2 ^ 53)) (mkDate 2025 2 7) ∅ ∅ = None.
Proof.
  intros count. split.
  - intros Hlo Hhi Hfree. unfold allocateBatch.
    by apply (forEachRow_consecutive fuel now json
                {| baseOrder := JS.Finite start; rows := [];
                   usedNims := usedN; usedUsernames := usedU |} start).
  - destruct fuel as [|fuel]; [done |].
    unfold allocateBatch. cbn [forEachRow].
    rewrite processRow_first;
      [| done
       | cbn [usedNims usedUsernames]; rewrite union_empty_r_L;
         apply not_elem_of_empty].
    cbn [mbind option_bind baseOrder]. rewrite plusOne_stuck.
    unfold processRow at 1. cbn [Nama default].
    rewrite bool_decide_eq_false_2 by (by vm_compute).
    cbn [baseOrder usedNims usedUsernames].
    rewrite findFreeOrder_stuck; [done | apply plusOne_stuck |].
    left. apply elem_of_union. left. apply elem_of_singleton.
    by vm_compute.
Qed.

Lemma allocateBatch_consecutive_witness :
  ∃ final,
    allocateBatch 1
      [mkSheetRow (Some "Udin"); mkSheetRow None; mkSheetRow (Some "Al")]
      5 (mkDate 2025 2 7) ∅ ∅ = Some final
    ∧ order <$> rows final = [JS.Finite 5; JS.Finite 6].
Proof.
  destruct (allocateBatch_consecutive 0
              [mkSheetRow (Some "Udin"); mkSheetRow None;
               mkSheetRow (Some "Al")]
              5 (mkDate 2025 2 7) ∅ ∅) as [Hruns _].
  destruct Hruns as (final & Hrun & Horders).
  - lia.
  - vm_compute. discriminate.
  - intros rawName k _. rewrite union_empty_r_L. apply not_elem_of_empty.
  - exists final. split; [exact Hrun | exact Horders].
Defined.

(** ** The scanner reads back what the generator wrote *)

Lemma padStart_digits (k : nat) (n : Z) :
  0 ≤ n < 2 ^ 53 →
  allChars JS.isDigit (JS.padStart k "0" (JS.numberToString n)) = true
  ∧ decimalValue (JS.padStart k "0" (JS.numberToString n)) = n
  ∧ JS.padStart k "0" (JS.numberToString n) ≠ "".
Proof.
  intros Hn. unfold JS.padStart. split; [| split].
  - rewrite allChars_app, allChars_repeatChar by done.
    by rewrite numberToString_digits.
  - rewrite decimalValue_app, decimalValue_zeros.
    rewrite decimalValue_numberToString by done. lia.
  - assert (JS.numberToString n ≠ "") as Hne.
    { destruct (decide (n = 0)) as [->|]; [done |].
      rewrite numberToString_pos by lia. intros Hp.
      pose proof (pretty_N_go_length_gt 0 (Z.to_N n) ltac:(simpl; lia)) as Hl.
      rewrite Hp in Hl. simpl in Hl. lia. }
    destruct (JS.numberToString n) as [|c t]; [done |].
    intros He. apply (f_equal String.length) in He.
    rewrite string_length_app in He. simpl in He. lia.
Qed.

Lemma elem_of_studentNims (users : list User) (u : User) (raw : string) :
  u ∈ users → u_role u = mahasiswa → u_nim u = Some raw → raw ≠ "" →
  JS.trim raw ∈ studentNims users.
Proof.
  intros Hu Hrole Hnim Hraw. unfold studentNims.
  apply list_elem_of_omap. exists u. split; [done |].
  rewrite Hnim. by rewrite bool_decide_eq_true_2.
Qed.

Lemma largest_ge (numbers : list Z) (n : Z) :
  n ∈ numbers → n ≤ largest numbers.
Proof. intros Hn. by apply largest_bound. Qed.

(** X4.  A student whose NIM, trimmed, is the generator's NIM for an
    order of the date from 0 to below 2^53 pushes the next order above
    that order; alone, that student makes the next order the order plus
    one. *)
Theorem next_order_after_generated (users : list User) (date : Date)
    (u : User) (raw rawName : string) (n : Z) :
  u ∈ users →
  u_role u = mahasiswa →
  u_nim u = Some raw →
  raw ≠ "" →
  JS.trim raw = g_nim (generateNimAndPassword rawName (JS.Finite n) date) →
  0 ≤ n < 2 ^ 53 →
  JS.lt (JS.Finite n) (getNextOrderForToday users date)
  ∧ getNextOrderForToday [u] date = JS.Finite (n + 1).
Proof.
  intros Hin Hrole Hnim Hraw Htrim Hn.
  destruct (padStart_digits 3 n Hn) as (Hdig & Hval & Hne).
  rewrite generated_nim in Htrim.
  assert (∀ l, u ∈ l →
            n ∈ omap numericSuffix
                  (matchingSuffixes (datePrefix date) (studentNims l)))
    as Hnum.
  { intros l Hl. apply list_elem_of_omap.
    exists (JS.padStart 3 "0" (JS.numberToString n)). split.
    - apply matchingSuffixes_spec. rewrite <- Htrim.
      by apply (elem_of_studentNims l u).
    - rewrite numericSuffix_numeral by done. by rewrite Hval. }
  rewrite !getNextOrderForToday_largest. split.
  - apply plusOne_roundDouble_above; [done |]. by apply largest_ge, Hnum.
  - set (numbers := omap numericSuffix
                      (matchingSuffixes (datePrefix date) (studentNims [u]))).
    assert (largest numbers = n) as ->.
    { pose proof (largest_ge numbers n) as Hge.
      destruct (largest_bound numbers) as [_ [Hz|Hmax]].
      - specialize (Hge (Hnum [u] ltac:(by apply list_elem_of_singleton))).
        lia.
      - subst numbers.
        apply list_elem_of_omap in Hmax as (r & Hr & Hv).
        apply matchingSuffixes_spec in Hr.
        unfold studentNims in Hr. simpl in Hr. rewrite Hnim in Hr.
        rewrite bool_decide_eq_true_2 in Hr by done.
        apply list_elem_of_singleton in Hr. rewrite Htrim in Hr.
        apply (inj (String.app _)) in Hr. subst r.
        rewrite numericSuffix_numeral in Hv by done.
        rewrite Hval in Hv. injection Hv as Hv. symmetry. exact Hv. }
    rewrite roundDouble_small by lia. apply plusOne_exact. lia.
Qed.

Lemma next_order_after_generated_witness :
  getNextOrderForToday
    [ mkUser "Udin" "20250307041" (Some " 20250307041 ") mahasiswa ]
    (mkDate 2025 2 7) = JS.Finite (41 + 1).
Proof.
  destruct (next_order_after_generated
              [ mkUser "Udin" "20250307041" (Some " 20250307041 ") mahasiswa ]
              (mkDate 2025 2 7)
              (mkUser "Udin" "20250307041" (Some " 20250307041 ") mahasiswa)
              " 20250307041 " "Udin" 41) as [_ Hone].
  - apply list_elem_of_singleton. reflexivity.
  - reflexivity.
  - reflexivity.
  - discriminate.
  - vm_compute. reflexivity.
  - lia.
  - exact Hone.
Defined.

(** ** The next order does not depend on the order of the users *)

(** A step of the scan either leaves [maxOrder] or raises it to a number
    that depends on the user only. *)
Lemma nextOrderStep_max (prefix : string) (u : User) :
  ∃ o : option JS.Number,
    ∀ m, nextOrderStep prefix m u
         = from_option (λ n, if JS.gtb n m then n else m) m o.
Proof.
  unfold nextOrderStep.
  destruct (u_nim u) as [raw|]; [| by exists None].
  destruct (_ || _); [by exists None |].
  destruct (negb _); [by exists None |]. cbv zeta.
  destruct (_ =? _)%nat; [by exists None |].
  destruct (JS.parseInt10 _) as [n|]; [| by exists None].
  by exists (Some n).
Qed.

Lemma larger_comm (m a b : JS.Number) :
  (if JS.gtb b (if JS.gtb a m then a else m) then b
   else if JS.gtb a m then a else m)
  = (if JS.gtb a (if JS.gtb b m then b else m) then a
     else if JS.gtb b m then b else m).
Proof.
  destruct m as [m| |], a as [a| |], b as [b| |]; unfold JS.gtb, JS.ltb;
    try done;
    repeat match goal with
      | |- context [?x <? ?y] => destruct (Z.ltb_spec x y)
      end; try done; try lia; f_equal; lia.
Qed.

Lemma larger_le (m n : JS.Number) :
  JS.le m (if JS.gtb n m then n else m).
Proof.
  destruct (JS.gtb n m) eqn:Hgt; [| apply le_refl].
  destruct m, n; number_order.
Qed.

Lemma larger_mono (m m' n : JS.Number) :
  JS.le m m' →
  JS.le (if JS.gtb n m then n else m) (if JS.gtb n m' then n else m').
Proof.
  intros Hm. destruct (JS.gtb n m) eqn:H1, (JS.gtb n m') eqn:H2;
    destruct m, m', n; number_order.
Qed.

Lemma nextOrderStep_comm (prefix : string) (u v : User) (m : JS.Number) :
  nextOrderStep prefix (nextOrderStep prefix m u) v
  = nextOrderStep prefix (nextOrderStep prefix m v) u.
Proof.
  destruct (nextOrderStep_max prefix u) as [[a|] Hu],
    (nextOrderStep_max prefix v) as [[b|] Hv];
    rewrite ?Hu, ?Hv; simpl; [apply larger_comm | done..].
Qed.

Lemma nextOrderStep_le (prefix : string) (m : JS.Number) (u : User) :
  JS.le m (nextOrderStep prefix m u).
Proof.
  destruct (nextOrderStep_max prefix u) as [[a|] Hu]; rewrite Hu; simpl;
    [apply larger_le | apply le_refl].
Qed.

Lemma fold_nextOrderStep_le (prefix : string) (users : list User)
    (m : JS.Number) :
  JS.le m (fold_left (nextOrderStep prefix) users m).
Proof.
  revert m. induction users as [|u users IH]; intros m; simpl;
    [apply le_refl |].
  eapply le_trans; [apply (nextOrderStep_le prefix m u) | apply IH].
Qed.

Lemma fold_nextOrderStep_perm (prefix : string) (users users' : list User) :
  users ≡ₚ users' →
  ∀ m, fold_left (nextOrderStep prefix) users m
       = fold_left (nextOrderStep prefix) users' m.
Proof.
  induction 1 as [|u l l' _ IH|u v l|l1 l2 l3 _ IH1 _ IH2]; intros m; simpl.
  - done.
  - apply IH.
  - by rewrite nextOrderStep_comm.
  - by rewrite IH1.
Qed.

Lemma fold_nextOrderStep_mono (prefix : string) (users : list User)
    (m m' : JS.Number) :
  JS.le m m' →
  JS.le (fold_left (nextOrderStep prefix) users m)
        (fold_left (nextOrderStep prefix) users m').
Proof.
  revert m m'. induction users as [|u users IH]; intros m m' Hm; simpl;
    [done |].
  apply IH. destruct (nextOrderStep_max prefix u) as [[a|] Hu];
    rewrite !Hu; simpl; [by apply larger_mono | done].
Qed.

(** X5.  The next order is at least 1, is the same however the users are
    ordered, is not changed by a user who is not a student or has no NIM,
    and is never lowered by one more user. *)
Theorem getNextOrderForToday_order_free (users users' : list User)
    (date : Date) :
  users ≡ₚ users' →
  getNextOrderForToday users date = getNextOrderForToday users' date
  ∧ JS.le (JS.Finite 1) (getNextOrderForToday users date)
  ∧ (∀ before after u,
       users = before ++ u :: after →
       JS.le (getNextOrderForToday (before ++ after) date)
             (getNextOrderForToday users date))
  ∧ (∀ before after u,
       users = before ++ u :: after →
       u_role u ≠ mahasiswa ∨ u_nim u = None ∨ u_nim u = Some "" →
       getNextOrderForToday users date
       = getNextOrderForToday (before ++ after) date).
Proof.
  intros Hperm. unfold getNextOrderForToday. cbv zeta.
  split; [| split; [| split]].
  - by rewrite (fold_nextOrderStep_perm _ _ _ Hperm).
  - apply plusOne_ge_one, fold_nextOrderStep_le.
  - intros before after u ->. rewrite !fold_left_app. simpl.
    apply plusOne_mono.
    + apply (le_trans _ (fold_left (nextOrderStep (datePrefix date)) before
                           (JS.Finite 0))); apply fold_nextOrderStep_le.
    + apply fold_nextOrderStep_mono, nextOrderStep_le.
  - intros before after u -> Hskip. rewrite !fold_left_app. simpl.
    assert (∀ m, nextOrderStep (datePrefix date) m u = m) as ->; [| done].
    intros m. unfold nextOrderStep.
    destruct Hskip as [Hr|[-> | ->]];
      [| done | by rewrite (bool_decide_eq_true_2 ("" = "")), orb_true_r].
    destruct (u_nim u); [| done]. by rewrite bool_decide_eq_true_2.
Qed.

Lemma getNextOrderForToday_order_free_witness :
  getNextOrderForToday
    [ mkUser "a" "20250307001" (Some "20250307001") mahasiswa;
      mkUser "b" "20250307002" (Some "20250307002") mahasiswa ]
    (mkDate 2025 2 7)
  = getNextOrderForToday
      [ mkUser "b" "20250307002" (Some "20250307002") mahasiswa;
        mkUser "a" "20250307001" (Some "20250307001") mahasiswa ]
      (mkDate 2025 2 7).
Proof.
  destruct (getNextOrderForToday_order_free
              [ mkUser "a" "20250307001" (Some "20250307001") mahasiswa;
                mkUser "b" "20250307002" (Some "20250307002") mahasiswa ]
              [ mkUser "b" "20250307002" (Some "20250307002") mahasiswa;
                mkUser "a" "20250307001" (Some "20250307001") mahasiswa ]
              (mkDate 2025 2 7)) as [Heq _].
  - apply perm_swap.
  - exact Heq.
Defined.

(** ** The preview against the users already loaded *)

Lemma size_list_to_set_le (l : list string) :
  (size (list_to_set l : gset string) ≤ length l)%nat.
Proof.
  induction l as [|x l IH]; [done |].
  pose proof (size_insert_le x (list_to_set l)).
  change (size ({[x]} ∪ list_to_set l : gset string) ≤ S (length l))%nat. lia.
Qed.

Lemma omap_length_le {A B} (f : A → option B) (l : list A) :
  (length (omap f l) ≤ length l)%nat.
Proof.
  induction l as [|x l IH]; csimpl; [done |]. destruct (f x); simpl; lia.
Qed.

Lemma existingNims_size (users : list User) :
  (size (existingNims users) ≤ length users)%nat.
Proof.
  unfold existingNims. etrans; [apply size_list_to_set_le |].
  apply omap_length_le.
Qed.

Lemma existingUsernames_size (users : list User) :
  (size (existingUsernames users) ≤ length users)%nat.
Proof.
  unfold existingUsernames. etrans; [apply size_list_to_set_le |].
  apply omap_length_le.
Qed.

Lemma elem_of_existingNims (users : list User) (u : User) (raw : string) :
  u ∈ users → u_nim u = Some raw → raw ≠ "" →
  JS.trim raw ∈ existingNims users.
Proof.
  intros Hu Hnim Hraw. unfold existingNims.
  apply elem_of_list_to_set, list_elem_of_omap. exists u. split; [done |].
  by rewrite Hnim, bool_decide_eq_false_2.
Qed.

Lemma elem_of_existingUsernames (users : list User) (u : User) :
  u ∈ users → u_username u ≠ "" →
  JS.trim (u_username u) ∈ existingUsernames users.
Proof.
  intros Hu Hname. unfold existingUsernames.
  apply elem_of_list_to_set, list_elem_of_omap. exists u. split; [done |].
  by rewrite bool_decide_eq_false_2.
Qed.

(** X6.  Whatever preview the upload computes, the username of every
    row is its NIM, and neither equals the trimmed NIM or the trimmed
    username of any user already loaded.  When the next order of the day
    and the orders the loop tries stay below 2^53 and there is fuel for the
    users and the rows, the preview is computed and every row is numbered
    at or after the next order of the day.  With a student whose NIM of
    the day ends in 9007199254740992 the preview of one name is never
    computed: the next order is 2^53, its NIM is taken, and 2^53 + 1 is
    2^53 again. *)
Theorem handleUploadTemplate_fresh (fuel : nat) (users : list User)
    (json : list SheetRow) (now : Date) :
  (∀ preview,
     handleUploadTemplate fuel users json now = Some preview →
     ∀ r, r ∈ preview →
       username r = nim r
       ∧ ∀ u, u ∈ users →
           (u_username u ≠ "" → nim r ≠ JS.trim (u_username u))
           ∧ (∀ raw, u_nim u = Some raw → raw ≠ "" → nim r ≠ JS.trim raw))
  ∧ (∀ s : Z,
       getNextOrderForToday users now = JS.Finite s →
       s + Z.of_nat (length json
                     * (2 * length users + 2 * length json + 1))
       ≤ 2 ^ 53 →
       (2 * length users + 2 * length json < fuel)%nat →
       ∃ preview,
         handleUploadTemplate fuel users json now = Some preview
         ∧ ∀ r, r ∈ preview →
             ∃ o : Z, order r = JS.Finite o ∧ s ≤ o < 2 ^ 53)
  ∧ handleUploadTemplate fuel
      [ mkUser "Siti" "siti" (Some "202503079007199254740992") mahasiswa ]
      [ mkSheetRow (Some "Udin") ] (mkDate 2025 2 7) = None.
Proof.
  pose proof (existingNims_size users) as HsizeN.
  pose proof (existingUsernames_size users) as HsizeU.
  split; [| split].
  - intros preview. unfold handleUploadTemplate, allocateBatch.
    destruct (forEachRow _ _ _ _) as [final|] eqn:Hrun; [| done].
    intros [= <-] r Hr.
    destruct (forEachRow_sound fuel now (existingNims users)
                (existingUsernames users) json _ _ Hrun
                (batchInvariant_start _ _ _))
      as [(_ & _ & _ & _ & Hrows) _].
    destruct (Hrows r Hr) as (Hun & _ & _ & Hfresh).
    apply not_elem_of_union in Hfresh as [HN HU].
    split; [done |]. intros u Hu. split.
    + intros Hname Heq. apply HU. rewrite Heq.
      by apply elem_of_existingUsernames.
    + intros raw Hnim Hraw Heq. apply HN. rewrite Heq.
      by eapply elem_of_existingNims.
  - intros s Hnext Hhi Hfuel. unfold handleUploadTemplate. rewrite Hnext.
    assert (1 ≤ s) as Hs.
    { pose proof (plusOne_ge_one
                    (fold_left (nextOrderStep (datePrefix now)) users
                       (JS.Finite 0))
                    (fold_nextOrderStep_le _ _ _)) as Hone.
      unfold getNextOrderForToday in Hnext. cbv zeta in Hnext.
      rewrite Hnext in Hone. unfold JS.le, JS.ltb in Hone.
      by apply Z.ltb_ge in Hone. }
    destruct (allocateBatch_range fuel json s now (existingNims users)
                (existingUsernames users))
      as (final & Hrun & Hrows & _); [lia | | lia |].
    { etrans; [| exact Hhi]. apply Z.add_le_mono_l, inj_le.
      apply Nat.mul_le_mono_l. lia. }
    rewrite Hrun. by exists (rows final).
  - unfold handleUploadTemplate.
    replace (getNextOrderForToday _ _) with (JS.Finite (2 ^ 53))
      by (by vm_compute).
    unfold allocateBatch. cbn [forEachRow]. unfold processRow.
    cbn [Nama default baseOrder usedNims usedUsernames].
    rewrite bool_decide_eq_false_2 by (by vm_compute).
    rewrite findFreeOrder_stuck; [done | apply plusOne_stuck |].
    left. by vm_compute.
Qed.

Lemma handleUploadTemplate_fresh_witness :
  ∃ preview,
    handleUploadTemplate 7
      [ mkUser "Siti" " 20250307002 " (Some "20250307001") mahasiswa ]
      [ mkSheetRow (Some "Udin"); mkSheetRow (Some "Al") ]
      (mkDate 2025 2 7) = Some preview
    ∧ ∀ r, r ∈ preview → nim r ≠ "20250307002".
Proof.
  destruct (handleUploadTemplate_fresh 7
              [ mkUser "Siti" " 20250307002 " (Some "20250307001") mahasiswa ]
              [ mkSheetRow (Some "Udin"); mkSheetRow (Some "Al") ]
              (mkDate 2025 2 7)) as (Hfresh & Hruns & _).
  destruct (Hruns 2) as (preview & Hrun & _).
  - vm_compute. reflexivity.
  - vm_compute. discriminate.
  - simpl. lia.
  - exists preview. split; [exact Hrun |]. intros r Hr.
    destruct (Hfresh preview Hrun r Hr) as (_ & Husers).
    destruct (Husers (mkUser "Siti" " 20250307002 " (Some "20250307001")
                        mahasiswa)) as [Hname _].
    + apply list_elem_of_singleton. reflexivity.
    + apply Hname. discriminate.
Defined.

(** ** What the request carries *)

Lemma buildRequest_fields (API_BASE_URL : string) (st : ClientState)
    (options : ApiRequestOptions) :
  buildRequest API_BASE_URL st options
  = ({| req_url := buildUrl API_BASE_URL options;
        req_method := default GET (method options);
        req_headers := (authHeaders options st (contentHeaders options)).1;
        req_body := if bool_decide (default GET (method options) = GET)
                    then None else requestBodyOf (body options) |},
     (authHeaders options st (contentHeaders options)).2).
Proof.
  unfold buildRequest.
  by destruct (authHeaders options st (contentHeaders options)).
Qed.

(** X7.  A GET request, asked for or by default, never carries a body,
    yet a JSON body given with it still sets the content type; any other
    method sends a JSON value as its text, sends a [FormData] as it is
    without a content type of its own, and sends nothing for [null] or no
    body. *)
Theorem request_body_spec (API_BASE_URL : string) (st : ClientState)
    (options : ApiRequestOptions) :
  let request := (buildRequest API_BASE_URL st options).1 in
  let callers := default ∅ (headers options) in
  req_method request = default GET (method options)
  ∧ (default GET (method options) = GET → req_body request = None)
  ∧ (∀ v, body options = BodyValue v → isNull v = false →
       req_headers request !! "Content-Type"
       = Some (default "application/json" (callers !! "Content-Type"))
       ∧ (default GET (method options) ≠ GET →
          req_body request = Some (JsonText v)))
  ∧ (∀ fd, body options = BodyFormData fd →
       req_headers request !! "Content-Type" = callers !! "Content-Type"
       ∧ (default GET (method options) ≠ GET →
          req_body request = Some (FormDataBody fd)))
  ∧ (body options = BodyUndefined ∨ body options = BodyValue JNull →
     req_body request = None
     ∧ req_headers request !! "Content-Type" = callers !! "Content-Type").
Proof.
  intros request callers. subst request callers.
  rewrite buildRequest_fields. cbn [fst req_method req_headers req_body].
  rewrite authHeaders_other, contentHeaders_content_type by done.
  split; [done |]. split; [| split; [| split]].
  - intros ->. by rewrite bool_decide_eq_true_2.
  - intros v -> Hv. rewrite Hv. split; [by case_match |].
    intros Hm. rewrite bool_decide_eq_false_2 by done. simpl. by rewrite Hv.
  - intros fd ->. split; [by case_match |].
    intros Hm. by rewrite bool_decide_eq_false_2.
  - intros [-> | ->]; (split; [by case_bool_decide | by case_match]).
Qed.

Lemma request_body_spec_witness :
  req_body
    (buildRequest "https://backend-lms.farros.space"
       (mkClientState None NoWindow)
       (mkOptions "/api/x" None (BodyValue (JString "dropped")) None None
          None None)).1 = None.
Proof.
  destruct (request_body_spec "https://backend-lms.farros.space"
              (mkClientState None NoWindow)
              (mkOptions "/api/x" None (BodyValue (JString "dropped")) None
                 None None None)) as (_ & Hget & _).
  apply Hget. reflexivity.
Defined.

(** ** When no authorization is added *)

Lemma getAuthToken_storage (st : ClientState) :
  localStorage (getAuthToken st).2 = localStorage st.
Proof.
  unfold getAuthToken. destruct (truthyString (authToken st)); [done |].
  destruct (localStorage st) as [| |stored] eqn:Hs; simpl; try done.
  destruct (truthyString stored); simpl; done.
Qed.

Lemma buildRequest_storage (API_BASE_URL : string) (st : ClientState)
    (options : ApiRequestOptions) :
  localStorage (buildRequest API_BASE_URL st options).2 = localStorage st.
Proof.
  rewrite buildRequest_fields. cbn [snd]. unfold authHeaders.
  destruct (default true (withAuth options)); [| done].
  unfold resolveToken. destruct (tokenOverride options) as [t|].
  - by destruct (truthyString (Some t)).
  - pose proof (getAuthToken_storage st) as Hst.
    destruct (getAuthToken st) as [token st']. simpl in Hst.
    by destruct (truthyString token).
Qed.

(** X8.  With [withAuth: false] the token store is not touched and the
    caller's [Authorization] header, if any, goes out as it is; the same
    header goes out when [withAuth] holds but the resolved token is
    missing or empty.  An override keeps the stored token from being
    read, and no request ever changes [localStorage]. *)
Theorem authorization_left_alone (API_BASE_URL : string) (st : ClientState)
    (options : ApiRequestOptions) :
  let h := requestHeaders API_BASE_URL st options in
  let st' := (buildRequest API_BASE_URL st options).2 in
  let callers := default ∅ (headers options) in
  (withAuth options = Some false →
     h !! "Authorization" = callers !! "Authorization" ∧ st' = st)
  ∧ (truthyString (resolveToken options st).1 = false →
     h !! "Authorization" = callers !! "Authorization")
  ∧ (∀ t, tokenOverride options = Some t → st' = st)
  ∧ localStorage st' = localStorage st.
Proof.
  intros h st' callers. subst h st' callers.
  rewrite requestHeaders_eq, buildRequest_fields. cbn [snd].
  assert (contentHeaders options !! "Authorization"
          = default ∅ (headers options) !! "Authorization") as Hcaller.
  { unfold contentHeaders.
    assert ((default ∅ (headers options)
             ∪ {[ "Accept" := "application/json" ]} : gmap string string)
            !! "Authorization"
            = default ∅ (headers options) !! "Authorization") as Hun.
    { destruct (default ∅ (headers options) !! "Authorization") eqn:Hv.
      - by apply lookup_union_Some_l.
      - rewrite lookup_union_r by done. by rewrite lookup_singleton_ne. }
    destruct (body options) as [| |v]; try done.
    destruct (isNull v); [done |]. by rewrite lookup_insert_ne. }
  unfold authHeaders. split; [| split; [| split]].
  - intros ->. simpl. by rewrite Hcaller.
  - intros Hfalsy. destruct (default true (withAuth options)); [| done].
    destruct (resolveToken options st) as [token st']. simpl in Hfalsy.
    by rewrite Hfalsy.
  - intros t Ht. destruct (default true (withAuth options)); [| done].
    unfold resolveToken. rewrite Ht. by destruct (truthyString (Some t)).
  - destruct (default true (withAuth options)); [| done].
    unfold resolveToken. destruct (tokenOverride options) as [t|].
    + by destruct (truthyString (Some t)).
    + pose proof (getAuthToken_storage st) as Hst.
      destruct (getAuthToken st) as [token st']. simpl in Hst.
      by destruct (truthyString token).
Qed.

Lemma authorization_left_alone_witness :
  requestHeaders "https://backend-lms.farros.space"
    (mkClientState (Some "stored") NoWindow)
    (mkOptions "/api/auth/login" (Some POST) BodyUndefined None
       (Some {[ "Authorization" := "Basic abc" ]}) (Some false) None)
  !! "Authorization" = Some "Basic abc".
Proof.
  destruct (authorization_left_alone "https://backend-lms.farros.space"
              (mkClientState (Some "stored") NoWindow)
              (mkOptions "/api/auth/login" (Some POST) BodyUndefined None
                 (Some {[ "Authorization" := "Basic abc" ]}) (Some false)
                 None)) as (Hoff & _).
  destruct Hoff as [Hauth _]; [reflexivity |].
  rewrite Hauth. reflexivity.
Defined.

(** ** The token store *)

(** X9.  [getAuthToken] never returns the empty string; it prefers the
    token in memory and falls back to the stored one, which it then keeps
    in memory; it leaves [localStorage] alone, and asking again gives the
    same token without another change. *)
Theorem getAuthToken_spec (st : ClientState) :
  (getAuthToken st).1 ≠ Some ""
  ∧ (∀ t, authToken st = Some t → t ≠ "" →
       getAuthToken st = (Some t, st))
  ∧ (∀ t, truthyString (authToken st) = false →
       localStorage st = StorageSlot (Some t) → t ≠ "" →
       getAuthToken st
       = (Some t, {| authToken := Some t;
                     localStorage := localStorage st |}))
  ∧ (truthyString (authToken st) = false →
     localStorage st = NoWindow ∨ localStorage st = StorageThrows
     ∨ localStorage st = StorageSlot None
     ∨ localStorage st = StorageSlot (Some "") →
     getAuthToken st = (None, st))
  ∧ localStorage (getAuthToken st).2 = localStorage st
  ∧ getAuthToken (getAuthToken st).2 = getAuthToken st.
Proof.
  split; [| split; [| split; [| split; [| split]]]].
  - unfold getAuthToken.
    destruct (authToken st) as [[|c t]|] eqn:Ha; simpl;
      try (destruct (localStorage st) as [| |[[|d s]|]]; simpl; congruence).
  - intros t Ha Ht. unfold getAuthToken. rewrite Ha. simpl.
    by rewrite bool_decide_eq_false_2.
  - intros t Ha Hs Ht. unfold getAuthToken. rewrite Ha, Hs. simpl.
    by rewrite bool_decide_eq_false_2.
  - intros Ha Hs. unfold getAuthToken. rewrite Ha.
    destruct Hs as [-> | [-> | [-> | ->]]]; done.
  - apply getAuthToken_storage.
  - unfold getAuthToken.
    destruct (truthyString (authToken st)) eqn:Ha; simpl; [by rewrite Ha |].
    destruct (localStorage st) as [| |stored] eqn:Hs; simpl;
      rewrite ?Ha, ?Hs; try done.
    destruct (truthyString stored) eqn:Hstored; simpl.
    + by rewrite Hstored.
    + by rewrite Ha, Hs, Hstored.
Qed.

Lemma getAuthToken_spec_witness :
  getAuthToken (mkClientState None (StorageSlot (Some "tok")))
  = (Some "tok", mkClientState (Some "tok") (StorageSlot (Some "tok"))).
Proof.
  destruct (getAuthToken_spec
              (mkClientState None (StorageSlot (Some "tok"))))
    as (_ & _ & Hstored & _).
  apply (Hstored "tok"); [reflexivity | reflexivity | discriminate].
Defined.

(** X10.  A token set with [setAuthToken] is found again after the
    script is loaded anew when the storage works, and is lost when there
    is no [window] or the storage throws; after [clearAuthToken] no token
    is found, before or after a reload. *)
Theorem token_across_reload (token : string) (st : ClientState) :
  token ≠ "" →
  (getAuthToken (setAuthToken token st)).1 = Some token
  ∧ (∀ stored, localStorage st = StorageSlot stored →
       (getAuthToken
          (initialState (localStorage (setAuthToken token st)))).1
       = Some token)
  ∧ (localStorage st = NoWindow ∨ localStorage st = StorageThrows →
     (getAuthToken
        (initialState (localStorage (setAuthToken token st)))).1 = None)
  ∧ (getAuthToken (clearAuthToken (setAuthToken token st))).1 = None
  ∧ (getAuthToken
       (initialState
          (localStorage (clearAuthToken (setAuthToken token st))))).1
    = None.
Proof.
  intros Hne. split; [by apply getAuthToken_set |].
  split; [| split; [| split]].
  - intros stored Hs. unfold getAuthToken, setAuthToken, initialState.
    rewrite Hs. simpl. by rewrite bool_decide_eq_false_2.
  - intros [Hs|Hs]; unfold getAuthToken, setAuthToken, initialState;
      by rewrite Hs.
  - apply getAuthToken_clear.
  - unfold getAuthToken, clearAuthToken, setAuthToken, initialState. simpl.
    by destruct (localStorage st).
Qed.

Lemma token_across_reload_witness :
  (getAuthToken
     (initialState
        (localStorage
           (setAuthToken "tok" (mkClientState None (StorageSlot None)))))).1
  = Some "tok".
Proof.
  destruct (token_across_reload "tok" (mkClientState None (StorageSlot None)))
    as (_ & Hreload & _); [discriminate |].
  exact (Hreload None eq_refl).
Defined.

(** ** How a call settles *)

Lemma apiRequest_fields (API_BASE_URL : string)
    (fetch : Request → option Response) (st : ClientState)
    (options : ApiRequestOptions) :
  apiRequest API_BASE_URL fetch st options
  = (match fetch (buildRequest API_BASE_URL st options).1 with
     | Some response => handleResponse response
     | None => FetchRejected
     end, (buildRequest API_BASE_URL st options).2).
Proof.
  unfold apiRequest.
  destruct (buildRequest API_BASE_URL st options) as [request st'].
  simpl. by destruct (fetch request).
Qed.



(** ** Slashes at the join *)

Lemma allSlashes_app (a b : string) :
  allSlashes (a +:+ b) = allSlashes a && allSlashes b.
Proof.
  induction a as [|c a IH]; [done |]. rewrite string_app_cons. simpl.
  by rewrite IH, andb_assoc.
Qed.

Lemma stripTrailingSlashes_slashes (s : string) (i : nat) :
  stripTrailingSlashes (s +:+ JS.repeatChar "/" i) = stripTrailingSlashes s.
Proof.
  induction s as [|c s IH].
  - rewrite string_app_empty_l. destruct i as [|i]; [done |]. simpl.
    by rewrite allChars_repeat_slash.
  - rewrite string_app_cons. simpl.
    by rewrite IH, allSlashes_app, allChars_repeat_slash, andb_true_r.
Qed.

Lemma stripLeadingSlashes_slashes (p : string) (j : nat) :
  stripLeadingSlashes (JS.repeatChar "/" j +:+ p) = stripLeadingSlashes p.
Proof.
  induction j as [|j IH]; [done |].
  change (JS.repeatChar "/" (S j)) with (String "/" (JS.repeatChar "/" j)).
  rewrite string_app_cons. exact IH.
Qed.

(** X12.  For a path that does not start with "http", any number of
    slashes at the end of the base URL or at the start of the path gives
    the same URL. *)
Theorem base_url_slashes (API_BASE_URL path : string) (i j : nat) :
  JS.startsWith path "http" = false →
  baseUrl (API_BASE_URL +:+ JS.repeatChar "/" i)
    (JS.repeatChar "/" j +:+ path)
  = baseUrl API_BASE_URL path.
Proof.
  intros Hpath. unfold baseUrl. rewrite Hpath.
  assert (JS.startsWith (JS.repeatChar "/" j +:+ path) "http" = false) as ->.
  { destruct j as [|j]; [done |]. done. }
  by rewrite stripTrailingSlashes_slashes, stripLeadingSlashes_slashes.
Qed.

Lemma base_url_slashes_witness :
  baseUrl "https://backend-lms.farros.space///" "//api/ping"
  = baseUrl "https://backend-lms.farros.space" "api/ping".
Proof.
  exact (base_url_slashes "https://backend-lms.farros.space" "api/ping" 3 2
           eq_refl).
Defined.

(** ** The query string can be read back *)

Lemma urldecodeChar_urlencodeChar (c : ascii) (rest : string) :
  urldecodeChar (urlencodeChar c +:+ rest) = Some (c, rest).
Proof. destruct c as [[] [] [] [] [] [] [] []]; by vm_compute. Qed.

Lemma urlencodeChar_not_empty (c : ascii) (rest : string) :
  urlencodeChar c +:+ rest ≠ "".
Proof.
  intros He. pose proof (urldecodeChar_urlencodeChar c rest) as Hd.
  by rewrite He in Hd.
Qed.

Lemma urlencode_inj (s t : string) : urlencode s = urlencode t → s = t.
Proof.
  revert t. induction s as [|c s IH]; intros [|d t]; simpl.
  - done.
  - intros He. symmetry in He. by apply urlencodeChar_not_empty in He.
  - intros He. by apply urlencodeChar_not_empty in He.
  - intros He.
    pose proof (urldecodeChar_urlencodeChar c (urlencode s)) as Hc.
    rewrite He, urldecodeChar_urlencodeChar in Hc.
    injection Hc as -> Hst. f_equal. by apply IH.
Qed.

(** Two texts without the character [d], each followed by [d] or by the
    end, are equal when the whole texts are. *)
Lemma split_unique (d : ascii) (a a' r r' : string) :
  allChars (λ c, negb (bool_decide (c = d))) a = true →
  allChars (λ c, negb (bool_decide (c = d))) a' = true →
  a +:+ String d r = a' +:+ String d r' → a = a' ∧ r = r'.
Proof.
  revert a'. induction a as [|c a IH]; intros [|c' a']; simpl;
    rewrite ?string_app_cons, ?string_app_empty_l.
  - intros _ _ [= ->]. done.
  - intros _ [Hc _]%andb_true_iff [= <- _].
    by rewrite bool_decide_eq_true_2 in Hc.
  - intros [Hc _]%andb_true_iff _ [= -> _].
    by rewrite bool_decide_eq_true_2 in Hc.
  - intros [_ Ha]%andb_true_iff [_ Ha']%andb_true_iff [= -> He].
    destruct (IH a' Ha Ha' He) as [-> ->]. done.
Qed.

Lemma split_end (d : ascii) (a a' r : string) :
  allChars (λ c, negb (bool_decide (c = d))) a = true →
  a = a' +:+ String d r → False.
Proof.
  intros Ha ->. rewrite allChars_app in Ha. simpl in Ha.
  rewrite bool_decide_eq_true_2 in Ha by done. simpl in Ha.
  by rewrite andb_false_r in Ha.
Qed.

Lemma urlencode_no (d : ascii) (s : string) :
  isDelimiter d = true →
  allChars (λ c, negb (bool_decide (c = d))) (urlencode s) = true.
Proof.
  intros Hd. eapply allChars_impl; [| apply urlencode_safe].
  intros c Hc. simpl in Hc. case_bool_decide as Hcd; [| done].
  subst c. by rewrite Hd in Hc.
Qed.

Lemma encoded_pair_inj (k v k' v' : string) :
  urlencode k +:+ "=" +:+ urlencode v = urlencode k' +:+ "=" +:+ urlencode v' →
  k = k' ∧ v = v'.
Proof.
  intros He. apply (split_unique "=") in He as [Hk Hv];
    try (by apply urlencode_no).
  split; by apply urlencode_inj.
Qed.

Lemma encoded_pair_no_amp (k v : string) :
  allChars (λ c, negb (bool_decide (c = "&"%char)))
    (urlencode k +:+ "=" +:+ urlencode v) = true.
Proof.
  rewrite !allChars_app, !urlencode_no by done. done.
Qed.

Lemma serializeParams_cons (k v : string) (p : string * string)
    (rest : list (string * string)) :
  serializeParams ((k, v) :: p :: rest)
  = (urlencode k +:+ "=" +:+ urlencode v)
    +:+ String "&" (serializeParams (p :: rest)).
Proof.
  change (serializeParams ((k, v) :: p :: rest))
    with (urlencode k +:+ "=" +:+ urlencode v +:+ "&"
          +:+ serializeParams (p :: rest)).
  by rewrite !string_app_assoc.
Qed.

Lemma serializeParams_inj (params params' : list (string * string)) :
  serializeParams params = serializeParams params' → params = params'.
Proof.
  revert params'.
  induction params as [|[k v] params IH]; intros [|[k' v'] params'].
  - done.
  - destruct params'; [simpl | rewrite serializeParams_cons]; intros He;
      apply (f_equal String.length) in He;
      rewrite !string_length_app in He; simpl in He; lia.
  - destruct params; [simpl | rewrite serializeParams_cons]; intros He;
      apply (f_equal String.length) in He;
      rewrite !string_length_app in He; simpl in He; lia.
  - destruct params as [|p params], params' as [|p' params'];
      rewrite ?serializeParams_cons.
    + simpl. intros [-> ->]%encoded_pair_inj. done.
    + intros He. exfalso.
      eapply (split_end "&"); [apply (encoded_pair_no_amp k v) | exact He].
    + intros He. exfalso. symmetry in He.
      eapply (split_end "&"); [apply (encoded_pair_no_amp k' v') | exact He].
    + intros He. apply (split_unique "&") in He as [Hp Hrest];
        try apply encoded_pair_no_amp.
      apply encoded_pair_inj in Hp as [-> ->]. f_equal. by apply IH.
Qed.

(** X13.  Two query objects give the same URL on the same base only when
    the entries that are kept have the same keys and the same value texts
    in the same order: the encoding loses nothing. *)
Theorem query_string_injective (url : string)
    (entries entries' : list (string * QueryValue)) :
  addQuery url (Some entries) = addQuery url (Some entries') →
  appendParams entries = appendParams entries'.
Proof.
  assert (∀ l, addQuery url (Some l) =
               if bool_decide (serializeParams (appendParams l) = "") then url
               else url +:+ (if JS.includes url "?" then "&" else "?")
                    +:+ serializeParams (appendParams l)) as Hadd.
  { intros [|e l]; reflexivity. }
  rewrite !Hadd. intros He. apply serializeParams_inj.
  assert (∀ s t : string, s = s +:+ t → t = "") as Hnil.
  { intros s t Hs. apply (f_equal String.length) in Hs.
    rewrite string_length_app in Hs. destruct t; [done | simpl in Hs; lia]. }
  destruct (decide (serializeParams (appendParams entries) = ""))
    as [H1|H1],
    (decide (serializeParams (appendParams entries') = "")) as [H2|H2];
    rewrite ?(bool_decide_eq_true_2 _ H1), ?(bool_decide_eq_true_2 _ H2),
      ?(bool_decide_eq_false_2 _ H1), ?(bool_decide_eq_false_2 _ H2) in He.
  - congruence.
  - apply Hnil in He. destruct (JS.includes url "?"); done.
  - symmetry in He. apply Hnil in He. destruct (JS.includes url "?"); done.
  - apply (inj (String.app url)) in He.
    by apply (inj (String.app _)) in He.
Qed.

Lemma query_string_injective_witness :
  appendParams [("search", QString ""); ("role", QString "dosen")]
  = appendParams [("role", QString "dosen"); ("status", QNull)].
Proof.
  apply (query_string_injective "https://backend-lms.farros.space/api/x").
  reflexivity.
Defined.



(** ** The pages *)

Import Pages.

Lemma send_fields (env : Env) (w : World) (options : ApiRequestOptions) :
  send env w options
  = (match transport env (sent w)
             (buildRequest (baseURL env) (client w) options).1 with
     | Some response => handleResponse response
     | None => FetchRejected
     end,
     {| client := (buildRequest (baseURL env) (client w) options).2;
        sent := sent w
                ++ [(buildRequest (baseURL env) (client w) options).1] |}).
Proof. unfold send. by rewrite apiRequest_fields. Qed.

Lemma ok_status (response : Response) :
  ok response = true ↔ 200 ≤ status response ≤ 299.
Proof. unfold ok. rewrite andb_true_iff, !Z.leb_le. done. Qed.

Lemma handleResponse_ok (response : Response) :
  200 ≤ status response ≤ 299 →
  handleResponse response = Returned (responseDataOf response).
Proof.
  intros H%ok_status. unfold handleResponse. by rewrite H.
Qed.

Lemma handleResponse_not_ok (response : Response) :
  ¬ (200 ≤ status response ≤ 299) →
  handleResponse response
  = Thrown {| err_message :=
                errorMessage response (responseDataOf response);
              err_status := status response;
              err_data := responseDataOf response |}.
Proof.
  intros H. unfold handleResponse.
  destruct (ok response) eqn:Ho; [| done]. by apply ok_status in Ho.
Qed.

Lemma orElse_not_empty (message fallback : string) :
  fallback ≠ "" → orElse message fallback ≠ "".
Proof. intros H. unfold orElse. by case_bool_decide. Qed.

Lemma loadUsersParams_all (f : UserFilters) :
  roleFilter f = None → statusFilter f = None → JS.trim (keyword f) = "" →
  loadUsersParams f = [].
Proof.
  intros Hr Hs Hk. unfold loadUsersParams. rewrite Hr, Hs.
  by rewrite bool_decide_eq_true_2.
Qed.

Lemma loadUsers_fields (env : Env) (f : UserFilters) (w : World)
    (ul : UserList) :
  let options :=
    getOptions "/api/admin/users" (Some (loadUsersParams f))
      (withAuthOption true) in
  let request := (buildRequest (baseURL env) (client w) options).1 in
  loadUsers env f w ul
  = (match transport env (sent w) request with
     | Some response =>
         if ok response
         then {| users := extractArray (responseDataOf response);
                 loading := false; error := None |}
         else {| users := users ul; loading := false;
                 error :=
                   Some (orElse (errorMessage response
                                   (responseDataOf response))
                           "Gagal memuat data pengguna.") |}
     | None =>
         {| users := users ul; loading := false;
            error := Some (orElse (networkErrorText env)
                             "Gagal memuat data pengguna.") |}
     end,
     {| client := (buildRequest (baseURL env) (client w) options).2;
        sent := sent w ++ [request] |}).
Proof.
  intros options request. unfold loadUsers. fold options.
  rewrite send_fields. fold request.
  destruct (transport env (sent w) request) as [response|]; [| done].
  unfold handleResponse. by destruct (ok response).
Qed.

(** X14.  [loadUsers] sends exactly one request, a GET without a body;
    with every filter on "all" and a blank keyword its URL carries no
    query string.  A response with a status from 200 to 299 replaces the
    list by the array of the response or of its [data] field, and by the
    empty list when the response is neither, as for one that is not JSON;
    on any failure the list stays as it was and the error text is
    never empty. *)
Theorem loadUsers_spec (env : Env) (f : UserFilters) (w : World)
    (ul : UserList) :
  let result := loadUsers env f w ul in
  ∃ request,
    sent result.2 = sent w ++ [request]
    ∧ req_method request = GET
    ∧ req_body request = None
    ∧ (roleFilter f = None → statusFilter f = None →
       JS.trim (keyword f) = "" →
       req_url request = baseUrl (baseURL env) "/api/admin/users")
    ∧ loading result.1 = false
    ∧ (∀ response,
         transport env (sent w) request = Some response →
         200 ≤ status response ≤ 299 →
         error result.1 = None
         ∧ users result.1 = extractArray (responseDataOf response)
         ∧ (isJsonResponse response = false → users result.1 = [])
         ∧ (∀ l, json response = Some (JArray l) →
                 isJsonResponse response = true → users result.1 = l)
         ∧ (∀ l fields, json response = Some (JObject fields) →
                        fields !! "data" = Some (JArray l) →
                        isJsonResponse response = true →
                        users result.1 = l))
    ∧ ((∀ response,
          transport env (sent w) request = Some response →
          ¬ (200 ≤ status response ≤ 299)) →
       users result.1 = users ul
       ∧ ∃ text, error result.1 = Some text ∧ text ≠ "").
Proof.
  intros result. subst result. rewrite loadUsers_fields. cbn [fst snd].
  eexists. split; [reflexivity |].
  rewrite buildRequest_fields. cbn [fst req_method req_body req_url].
  split; [done |]. split; [done |]. split.
  { intros Hr Hs Hk. unfold buildUrl. cbn [path query getOptions].
    by rewrite loadUsersParams_all. }
  split.
  { destruct (transport _ _ _) as [response|]; [| done].
    by destruct (ok response). }
  split.
  - intros response -> Hok%ok_status. rewrite Hok. cbn [error users].
    split; [done |]. split; [done |]. unfold responseDataOf.
    split; [by intros -> |]. split.
    + by intros l -> ->.
    + intros l fields -> Hdata ->. simpl. by rewrite Hdata.
  - intros Hfail. destruct (transport _ _ _) as [response|].
    + destruct (ok response) eqn:Hok.
      { apply ok_status in Hok. by destruct (Hfail response). }
      cbn [users error]. split; [done |]. eexists. split; [done |].
      by apply orElse_not_empty.
    + cbn [users error]. split; [done |]. eexists. split; [done |].
      by apply orElse_not_empty.
Qed.

Lemma loadUsers_spec_witness :
  let response :=
    {| status := 200; contentType := Some "application/json";
       json := Some (JObject {[ "data" := JArray [JString "u1"] ]}) |} in
  let env := {| baseURL := "https://lms.example/";
                transport := λ _ _, Some response;
                networkErrorText := "Failed to fetch";
                typeErrorText := "Cannot read properties of null" |} in
  let f := {| roleFilter := None; statusFilter := None;
              keyword := "  " |} in
  let w := {| client := initialState NoWindow; sent := [] |} in
  let ul := {| users := []; loading := true; error := None |} in
  users (loadUsers env f w ul).1 = [JString "u1"]
  ∧ req_url <$> sent (loadUsers env f w ul).2
    = ["https://lms.example/api/admin/users"].
Proof.
  intros response env f w ul.
  destruct (loadUsers_spec env f w ul)
    as (request & Hsent & _ & _ & Hurl & _ & Hok & _).
  destruct (Hok response eq_refl) as (_ & _ & _ & _ & Hdata);
    [simpl; lia |].
  split.
  - apply (Hdata _ {[ "data" := JArray [JString "u1"] ]});
      reflexivity.
  - rewrite Hsent. simpl. rewrite Hurl by reflexivity. reflexivity.
Defined.

Lemma toLowerCase_empty (s : string) : JS.toLowerCase s = "" ↔ s = "".
Proof. by destruct s. Qed.

Lemma shownInTable_role (section : UserSection) (f : UserFilters)
    (u : PageUser) :
  shownInTable section f u = true →
  (section = sectionMahasiswa ↔ user_role u = mahasiswa)
  ∧ (∀ r, roleFilter f = Some r → user_role u = r)
  ∧ (∀ s, statusFilter f = Some s → user_status u = s).
Proof.
  unfold shownInTable. intros H.
  destruct (bool_decide (section = sectionCivitas) && _) eqn:E1; [done |].
  destruct (bool_decide (section = sectionMahasiswa) && _) eqn:E2; [done |].
  destruct (bool_decide (roleFilter f ≠ None) && _) eqn:E3; [done |].
  destruct (bool_decide (statusFilter f ≠ None) && _) eqn:E4; [done |].
  clear H.
  apply andb_false_iff in E1, E2, E3, E4.
  rewrite !bool_decide_eq_false in E1, E2, E3, E4.
  split; [| split].
  - destruct (decide (user_role u = mahasiswa)) as [Hm|Hm];
      destruct section; split; intros; try done; exfalso;
      destruct E1 as [E1|E1], E2 as [E2|E2]; by (apply E1 || apply E2).
  - intros r Hr. destruct (decide (user_role u = r)) as [|Hne]; [done |].
    exfalso. rewrite Hr in E3. destruct E3 as [E3|E3]; apply E3; [done |].
    by intros [= ?].
  - intros s Hs. destruct (decide (user_status u = s)) as [|Hne]; [done |].
    exfalso. rewrite Hs in E4. destruct E4 as [E4|E4]; apply E4; [done |].
    by intros [= ?].
Qed.

Lemma shownInTable_all (section : UserSection) (f : UserFilters)
    (u : PageUser) :
  roleFilter f = None → statusFilter f = None → JS.trim (keyword f) = "" →
  shownInTable section f u
  = bool_decide (section = sectionMahasiswa ↔ user_role u = mahasiswa).
Proof.
  intros Hr Hs Hk. unfold shownInTable. rewrite Hr, Hs, Hk.
  rewrite (bool_decide_eq_false_2 (None ≠ None)) by (intros ?; done).
  rewrite (bool_decide_eq_false_2 (None ≠ None)) by (intros ?; done).
  rewrite (bool_decide_eq_true_2 ("" = "")) by done.
  by destruct section, (user_role u).
Qed.

Lemma filter_split_Permutation {A} (p : A → bool) (l : list A) :
  filter (λ x, p x = true) l ++ filter (λ x, negb (p x) = true) l ≡ₚ l.
Proof.
  induction l as [|x l IH]; [done |].
  rewrite !filter_cons. destruct (p x) eqn:Hp; simpl.
  - destruct (decide (true = true)); [| done].
    destruct (decide (false = true)); [done |]. simpl. by f_equiv.
  - destruct (decide (false = true)); [done |].
    destruct (decide (true = true)); [| done].
    rewrite <- Permutation_middle. by f_equiv.
Qed.

(** X15.  The table is a sublist of the users.  A student is listed only
    under the tab of the students and any other user only under the other
    tab, so no user shows under both; with every filter on "all" and a
    blank keyword the two tabs together list each user exactly once.  A
    role or status filter keeps only users of that role or status, so
    the filter on students empties the other tab. *)
Theorem usersForTable_sections (f : UserFilters) (users : list PageUser) :
  (∀ section, sublist (usersForTable section f users) users)
  ∧ (∀ section u,
       u ∈ usersForTable section f users →
       (section = sectionMahasiswa ↔ user_role u = mahasiswa)
       ∧ (∀ r, roleFilter f = Some r → user_role u = r)
       ∧ (∀ s, statusFilter f = Some s → user_status u = s))
  ∧ (roleFilter f = Some mahasiswa →
     usersForTable sectionCivitas f users = [])
  ∧ (roleFilter f = None → statusFilter f = None →
     JS.trim (keyword f) = "" →
     usersForTable sectionCivitas f users
     ++ usersForTable sectionMahasiswa f users ≡ₚ users).
Proof.
  split; [| split; [| split]].
  - intros section. apply sublist_filter.
  - intros section u [Hu _]%list_elem_of_filter.
    by apply shownInTable_role.
  - intros Hr. unfold usersForTable.
    induction users as [|u l IH]; [done |].
    rewrite filter_cons. destruct (decide _) as [Hu|]; [| done].
    apply shownInTable_role in Hu as ([_ Hm] & Hrole & _).
    specialize (Hrole _ Hr). by specialize (Hm Hrole).
  - intros Hr Hs Hk. unfold usersForTable.
    rewrite <- (filter_split_Permutation
                  (λ u, shownInTable sectionCivitas f u) users) at 3.
    f_equiv. apply reflexive_eq, list_filter_iff. intros u.
    rewrite !shownInTable_all by done. by destruct (user_role u).
Qed.

Lemma usersForTable_sections_witness :
  let f := {| roleFilter := Some mahasiswa; statusFilter := None;
              keyword := "" |} in
  let student :=
    {| user_id := 1; user_name := "Udin"; user_email := None;
       user_username := "20250307001"; user_nim := Some "20250307001";
       user_role := mahasiswa; user_status := active;
       user_force_password_change := true |} in
  let teacher :=
    {| user_id := 2; user_name := "Budi"; user_email := None;
       user_username := "budi"; user_nim := None; user_role := dosen;
       user_status := active; user_force_password_change := false |} in
  usersForTable sectionCivitas f [student; teacher] = []
  ∧ usersForTable sectionMahasiswa f [student; teacher] = [student].
Proof.
  intros f student teacher.
  destruct (usersForTable_sections f [student; teacher])
    as (_ & _ & Hempty & _).
  split; [by apply Hempty | by vm_compute].
Defined.

(** X16.  The keyword filter ignores case and the white space around the
    keyword: two keywords with the same trimmed lower-case form give the
    same table. *)
Theorem keyword_ignores_case (section : UserSection) (f : UserFilters)
    (keyword' : string) (users : list PageUser)
    (Hsame : JS.toLowerCase (JS.trim (keyword f))
             = JS.toLowerCase (JS.trim keyword')) :
  usersForTable section f users
  = usersForTable section
      {| roleFilter := roleFilter f; statusFilter := statusFilter f;
         keyword := keyword' |} users.
Proof.
  unfold usersForTable. apply list_filter_iff. intros u.
  unfold shownInTable. cbn [roleFilter statusFilter keyword].
  rewrite Hsame.
  assert (bool_decide (JS.trim (keyword f) = "")
          = bool_decide (JS.trim keyword' = "")) as ->; [| done].
  apply bool_decide_ext.
  by rewrite <- (toLowerCase_empty (JS.trim (keyword f))), Hsame,
    toLowerCase_empty.
Qed.

Lemma keyword_ignores_case_witness :
  let f := {| roleFilter := None; statusFilter := None;
              keyword := "  BuDi " |} in
  let users :=
    [ {| user_id := 1; user_name := "Budi Santoso"; user_email := None;
         user_username := "budi"; user_nim := None; user_role := dosen;
         user_status := active; user_force_password_change := false |};
      {| user_id := 2; user_name := "Siti"; user_email := None;
         user_username := "siti"; user_nim := None; user_role := dosen;
         user_status := active; user_force_password_change := false |} ] in
  usersForTable sectionCivitas f users
  = usersForTable sectionCivitas
      {| roleFilter := None; statusFilter := None; keyword := "budi" |}
      users
  ∧ length (usersForTable sectionCivitas f users) = 1%nat.
Proof.
  intros f users. split; [| by vm_compute].
  apply (keyword_ignores_case sectionCivitas f "budi" users).
  by vm_compute.
Defined.

Lemma authHeaders_token (options : ApiRequestOptions) (st : ClientState)
    (h : gmap string string) (t : string) :
  default true (withAuth options) = true → tokenOverride options = None →
  authToken st = Some t → t ≠ "" →
  authHeaders options st h = (<[ "Authorization" := "Bearer " +:+ t ]> h, st).
Proof.
  intros Hw Ho Ht Hne. unfold authHeaders, resolveToken, getAuthToken.
  rewrite Hw, Ho, Ht. unfold truthyString.
  rewrite !bool_decide_eq_false_2 by done. cbn [negb].
  by rewrite bool_decide_eq_false_2.
Qed.

Lemma userPath_url (API_BASE_URL : string) (id : Z) (rest : string) :
  baseUrl API_BASE_URL (userPath id +:+ rest)
  = stripTrailingSlashes API_BASE_URL +:+ "/api/admin/users/"
    +:+ JS.numberToString id +:+ rest.
Proof. reflexivity. Qed.

Lemma userPath_url_plain (API_BASE_URL : string) (id : Z) :
  baseUrl API_BASE_URL (userPath id)
  = stripTrailingSlashes API_BASE_URL +:+ "/api/admin/users/"
    +:+ JS.numberToString id.
Proof. reflexivity. Qed.

Lemma handleToggleStatus_fields (env : Env) (user : PageUser) (w : World)
    (ts : TableState) :
  let nextStatus := toggledStatus (user_status user) in
  let payload :=
    JObject (list_to_map
      [ ("name", JString (user_name user));
        ("email", nullable (user_email user));
        ("username", JString (user_username user));
        ("nim", nullable (user_nim user));
        ("role", JString (roleText (user_role user)));
        ("status", JString (statusText nextStatus));
        ("force_password_change",
         JBool (user_force_password_change user)) ]) in
  let options :=
    putOptions (userPath (user_id user)) (BodyValue payload)
      (withAuthOption true) in
  let request := (buildRequest (baseURL env) (client w) options).1 in
  handleToggleStatus env user w ts
  = (match transport env (sent w) request with
     | Some response =>
         if ok response
         then
           {| tableUsers :=
                (λ u, if bool_decide (user_id u = user_id user)
                      then {| user_id := user_id u;
                              user_name := user_name u;
                              user_email := user_email u;
                              user_username := user_username u;
                              user_nim := user_nim u;
                              user_role := user_role u;
                              user_status := nextStatus;
                              user_force_password_change :=
                                user_force_password_change u |}
                      else u) <$> tableUsers ts;
              tableError := None;
              resetInfo := resetInfo ts |}
         else
           {| tableUsers := tableUsers ts;
              tableError :=
                Some (orElse (errorMessage response
                                (responseDataOf response))
                        "Gagal mengubah status pengguna.");
              resetInfo := resetInfo ts |}
     | None =>
         {| tableUsers := tableUsers ts;
            tableError :=
              Some (orElse (networkErrorText env)
                      "Gagal mengubah status pengguna.");
            resetInfo := resetInfo ts |}
     end,
     {| client := (buildRequest (baseURL env) (client w) options).2;
        sent := sent w ++ [request] |}).
Proof.
  intros nextStatus payload options request. unfold handleToggleStatus.
  fold nextStatus. fold payload. fold options.
  rewrite send_fields. fold request.
  destruct (transport env (sent w) request) as [response|]; [| done].
  unfold handleResponse. by destruct (ok response).
Qed.

Lemma toggledStatus_involutive (s : UserStatus) :
  toggledStatus (toggledStatus s) = s.
Proof. by destruct s. Qed.

Lemma toggledStatus_other (s : UserStatus) : toggledStatus s ≠ s.
Proof. by destruct s. Qed.

(** X17.  [handleToggleStatus] sends one PUT to the user's path whose
    body carries the user's fields with the other status.  When it is
    answered with a status from 200 to 299, the list keeps its length and
    its ids, every user with another id stays as it was, and every user
    with that id gets the new status and keeps its other fields; on any
    failure the list stays as it was and the error text is never
    empty. *)
Theorem handleToggleStatus_spec (env : Env) (user : PageUser) (w : World)
    (ts : TableState) :
  let result := handleToggleStatus env user w ts in
  let nextStatus := toggledStatus (user_status user) in
  ∃ request fields,
    sent result.2 = sent w ++ [request]
    ∧ req_method request = PUT
    ∧ req_url request
      = stripTrailingSlashes (baseURL env) +:+ "/api/admin/users/"
        +:+ JS.numberToString (user_id user)
    ∧ req_body request = Some (JsonText (JObject fields))
    ∧ fields !! "status" = Some (JString (statusText nextStatus))
    ∧ fields !! "name" = Some (JString (user_name user))
    ∧ fields !! "username" = Some (JString (user_username user))
    ∧ fields !! "email" = Some (nullable (user_email user))
    ∧ fields !! "nim" = Some (nullable (user_nim user))
    ∧ fields !! "role" = Some (JString (roleText (user_role user)))
    ∧ fields !! "force_password_change"
      = Some (JBool (user_force_password_change user))
    ∧ nextStatus ≠ user_status user
    ∧ resetInfo result.1 = resetInfo ts
    ∧ (∀ response,
         transport env (sent w) request = Some response →
         200 ≤ status response ≤ 299 →
         tableError result.1 = None
         ∧ user_id <$> tableUsers result.1 = user_id <$> tableUsers ts
         ∧ ∀ i u, tableUsers ts !! i = Some u →
             ∃ u', tableUsers result.1 !! i = Some u'
                   ∧ (user_id u ≠ user_id user → u' = u)
                   ∧ (user_id u = user_id user →
                      user_status u' = nextStatus)
                   ∧ user_name u' = user_name u
                   ∧ user_email u' = user_email u
                   ∧ user_username u' = user_username u
                   ∧ user_nim u' = user_nim u
                   ∧ user_role u' = user_role u
                   ∧ user_force_password_change u'
                     = user_force_password_change u)
    ∧ ((∀ response,
          transport env (sent w) request = Some response →
          ¬ (200 ≤ status response ≤ 299)) →
       tableUsers result.1 = tableUsers ts
       ∧ ∃ text, tableError result.1 = Some text ∧ text ≠ "").
Proof.
  intros result nextStatus. subst result.
  rewrite handleToggleStatus_fields. cbn [fst snd].
  eexists _, _. split; [reflexivity |].
  rewrite buildRequest_fields.
  cbn [fst req_method req_body req_url putOptions method body default].
  split; [done |]. split.
  { unfold buildUrl. cbn [path query putOptions withAuthOption addQuery].
    by rewrite userPath_url_plain. }
  split; [reflexivity |].
  split; [done |]. split; [done |]. split; [done |].
  split; [done |]. split; [done |]. split; [done |]. split; [done |].
  split; [apply toggledStatus_other |].
  split.
  { destruct (transport _ _ _) as [response|]; [| done].
    by destruct (ok response). }
  split.
  - intros response -> Hok%ok_status. rewrite Hok.
    cbn [tableError tableUsers].
    split; [done |]. split.
    { rewrite <- list_fmap_compose. apply list_fmap_ext.
      intros i u _. simpl. by case_bool_decide. }
    intros i u Hu. rewrite list_lookup_fmap, Hu. simpl.
    eexists. split; [reflexivity |].
    case_bool_decide; by repeat split.
  - intros Hfail. destruct (transport _ _ _) as [response|].
    + destruct (ok response) eqn:Hok.
      { apply ok_status in Hok. by destruct (Hfail response). }
      cbn [tableUsers tableError]. split; [done |].
      eexists. split; [done |]. by apply orElse_not_empty.
    + cbn [tableUsers tableError]. split; [done |].
      eexists. split; [done |]. by apply orElse_not_empty.
Qed.

Lemma handleToggleStatus_spec_witness :
  let response := {| status := 204; contentType := None; json := None |} in
  let env := {| baseURL := "https://lms.example";
                transport := λ _ _, Some response;
                networkErrorText := "Failed to fetch";
                typeErrorText := "Cannot read properties of null" |} in
  let w := {| client := initialState NoWindow; sent := [] |} in
  let user := {| user_id := 7; user_name := "Budi"; user_email := None;
                 user_username := "budi"; user_nim := None;
                 user_role := dosen; user_status := active;
                 user_force_password_change := false |} in
  let ts := {| tableUsers := [user]; tableError := Some "old";
               resetInfo := None |} in
  tableError (handleToggleStatus env user w ts).1 = None
  ∧ ∃ u', tableUsers (handleToggleStatus env user w ts).1 !! 0%nat
          = Some u'
          ∧ user_status u' = inactive.
Proof.
  intros response env w user ts.
  destruct (handleToggleStatus_spec env user w ts)
    as (request & fields & _ & _ & _ & _ & _ & _ & _ & _ & _ & _ & _ & _
        & _ & Hok & _).
  destruct (Hok response eq_refl) as (Herr & _ & Hrows); [simpl; lia |].
  split; [exact Herr |].
  destruct (Hrows 0%nat user eq_refl) as (u' & Hu' & _ & Hstatus & _).
  exists u'. split; [exact Hu' |]. by apply Hstatus.
Defined.

Lemma same_id_same_user (l : list PageUser) (u v : PageUser) :
  NoDup (user_id <$> l) → u ∈ l → v ∈ l → user_id u = user_id v → u = v.
Proof.
  induction l as [|x l IH]; [by intros _ ?%elem_of_nil |].
  rewrite fmap_cons, NoDup_cons.
  intros [Hx Hl] [->|Hu]%elem_of_cons [->|Hv]%elem_of_cons Hid; [done | | |].
  - destruct Hx. rewrite Hid. by apply list_elem_of_fmap_2.
  - destruct Hx. rewrite <- Hid. by apply list_elem_of_fmap_2.
  - by apply IH.
Qed.

Lemma handleToggleStatus_success (env : Env) (user : PageUser) (w : World)
    (ts : TableState) :
  tableError (handleToggleStatus env user w ts).1 = None →
  tableUsers (handleToggleStatus env user w ts).1
  = (λ u, if bool_decide (user_id u = user_id user)
          then {| user_id := user_id u;
                  user_name := user_name u;
                  user_email := user_email u;
                  user_username := user_username u;
                  user_nim := user_nim u;
                  user_role := user_role u;
                  user_status := toggledStatus (user_status user);
                  user_force_password_change :=
                    user_force_password_change u |}
          else u) <$> tableUsers ts.
Proof.
  rewrite handleToggleStatus_fields. cbn [fst].
  destruct (transport _ _ _) as [response|]; [| done].
  by destruct (ok response).
Qed.

(** X18.  Toggling a listed user twice, the second time from the row as
    the first toggle left it, gives back the list as it was, provided the
    ids of the list are distinct and both requests succeed. *)
Theorem toggle_twice_restores (env : Env) (user user' : PageUser)
    (w : World) (ts : TableState)
    (Hids : NoDup (user_id <$> tableUsers ts))
    (Huser : user ∈ tableUsers ts)
    (Hfirst : tableError (handleToggleStatus env user w ts).1 = None)
    (Huser' : user' ∈ tableUsers (handleToggleStatus env user w ts).1)
    (Hid : user_id user' = user_id user)
    (Hsecond :
       tableError
         (handleToggleStatus env user'
            (handleToggleStatus env user w ts).2
            (handleToggleStatus env user w ts).1).1 = None) :
  tableUsers
    (handleToggleStatus env user'
       (handleToggleStatus env user w ts).2
       (handleToggleStatus env user w ts).1).1
  = tableUsers ts.
Proof.
  rewrite (handleToggleStatus_success _ _ _ _ Hsecond).
  rewrite (handleToggleStatus_success _ _ _ _ Hfirst) in Huser' |- *.
  apply list_elem_of_fmap in Huser' as (u & -> & Hu).
  assert (user_id u = user_id user) as Hsame.
  { revert Hid. case_bool_decide; [by simpl |]. by intros ?. }
  rewrite bool_decide_eq_true_2 by done. cbn [user_id user_status].
  clear Hid Hsecond. rewrite toggledStatus_involutive.
  rewrite <- list_fmap_compose.
  rewrite <- (list_fmap_id (tableUsers ts)) at 2.
  apply list_fmap_ext. intros i v Hv. simpl.
  apply list_elem_of_lookup_2 in Hv.
  destruct (decide (user_id v = user_id user)) as [Hvid|Hvid].
  - rewrite (bool_decide_eq_true_2 _ Hvid). cbn [user_id].
    rewrite bool_decide_eq_true_2 by congruence.
    assert (v = user) as -> by by apply (same_id_same_user (tableUsers ts)).
    by destruct user.
  - rewrite (bool_decide_eq_false_2 _ Hvid).
    by rewrite bool_decide_eq_false_2 by congruence.
Qed.

Lemma toggle_twice_restores_witness :
  let env := {| baseURL := "https://lms.example";
                transport := λ _ _,
                  Some {| status := 200; contentType := None;
                          json := None |};
                networkErrorText := "Failed to fetch";
                typeErrorText := "Cannot read properties of null" |} in
  let w := {| client := {| authToken := None; localStorage := NoWindow |};
              sent := [] |} in
  let user := {| user_id := 7; user_name := "Budi"; user_email := None;
                 user_username := "budi"; user_nim := None;
                 user_role := dosen; user_status := active;
                 user_force_password_change := false |} in
  let user' := {| user_id := 7; user_name := "Budi"; user_email := None;
                  user_username := "budi"; user_nim := None;
                  user_role := dosen; user_status := inactive;
                  user_force_password_change := false |} in
  let ts := {| tableUsers := [user]; tableError := None;
               resetInfo := None |} in
  tableUsers (handleToggleStatus env user w ts).1 = [user']
  ∧ tableUsers
      (handleToggleStatus env user'
         (handleToggleStatus env user w ts).2
         (handleToggleStatus env user w ts).1).1
    = [user].
Proof.
  intros env w user user' ts. split; [by vm_compute |].
  apply (toggle_twice_restores env user user' w ts).
  - apply NoDup_singleton.
  - apply list_elem_of_singleton. reflexivity.
  - by vm_compute.
  - apply list_elem_of_singleton. by vm_compute.
  - reflexivity.
  - by vm_compute.
Defined.

Lemma handleDeleteUser_fields (env : Env) (user : PageUser) (w : World)
    (ts : TableState) :
  let options := deleteOptions (userPath (user_id user)) noOptions in
  let request := (buildRequest (baseURL env) (client w) options).1 in
  handleDeleteUser env true user w ts
  = (match transport env (sent w) request with
     | Some response =>
         if ok response
         then
           {| tableUsers :=
                filter (λ u, user_id u ≠ user_id user) (tableUsers ts);
              tableError := None;
              resetInfo :=
                match resetInfo ts with
                | Some info =>
                    if bool_decide (userId info = user_id user) then None
                    else Some info
                | None => None
                end |}
         else
           {| tableUsers := tableUsers ts;
              tableError :=
                Some (orElse (errorMessage response
                                (responseDataOf response))
                        "Gagal menghapus user.");
              resetInfo := resetInfo ts |}
     | None =>
         {| tableUsers := tableUsers ts;
            tableError :=
              Some (orElse (networkErrorText env) "Gagal menghapus user.");
            resetInfo := resetInfo ts |}
     end,
     {| client := (buildRequest (baseURL env) (client w) options).2;
        sent := sent w ++ [request] |}).
Proof.
  intros options request. unfold handleDeleteUser. cbn [negb].
  fold options. rewrite send_fields. fold request.
  destruct (transport env (sent w) request) as [response|]; [| done].
  unfold handleResponse. by destruct (ok response).
Qed.

(** X19.  A delete that the user does not confirm sends nothing and
    changes nothing.  A confirmed one sends one DELETE without a body to
    the user's path, with the bearer token that is in memory although the
    options of the call are dropped.  When it is answered with a status
    from 200 to 299 the list loses exactly the users with that id, the
    others keeping their order, and the reset notice is dropped exactly
    when it is about that user; on any failure list and notice stay as
    they were and the error text is never empty. *)
Theorem handleDeleteUser_spec (env : Env) (user : PageUser) (w : World)
    (ts : TableState) :
  handleDeleteUser env false user w ts = (ts, w)
  ∧ let result := handleDeleteUser env true user w ts in
    ∃ request,
      sent result.2 = sent w ++ [request]
      ∧ req_method request = DELETE
      ∧ req_body request = None
      ∧ req_url request
        = stripTrailingSlashes (baseURL env) +:+ "/api/admin/users/"
          +:+ JS.numberToString (user_id user)
      ∧ (∀ t, authToken (client w) = Some t → t ≠ "" →
              req_headers request !! "Authorization"
              = Some ("Bearer " +:+ t))
      ∧ (∀ response,
           transport env (sent w) request = Some response →
           200 ≤ status response ≤ 299 →
           tableError result.1 = None
           ∧ sublist (tableUsers result.1) (tableUsers ts)
           ∧ (∀ u, u ∈ tableUsers result.1
                   ↔ u ∈ tableUsers ts ∧ user_id u ≠ user_id user)
           ∧ (∀ info, resetInfo ts = Some info →
                      userId info = user_id user →
                      resetInfo result.1 = None)
           ∧ (∀ info, resetInfo ts = Some info →
                      userId info ≠ user_id user →
                      resetInfo result.1 = Some info))
      ∧ ((∀ response,
            transport env (sent w) request = Some response →
            ¬ (200 ≤ status response ≤ 299)) →
         tableUsers result.1 = tableUsers ts
         ∧ resetInfo result.1 = resetInfo ts
         ∧ ∃ text, tableError result.1 = Some text ∧ text ≠ "").
Proof.
  split; [done |]. intros result. subst result.
  rewrite handleDeleteUser_fields. cbn [fst snd].
  eexists. split; [reflexivity |].
  rewrite buildRequest_fields.
  cbn [fst req_method req_body req_url req_headers deleteOptions method
       default].
  split; [done |]. split; [done |]. split.
  { unfold buildUrl. cbn [path query deleteOptions noOptions addQuery].
    by rewrite userPath_url_plain. }
  split.
  { intros t Ht Hne.
    rewrite (authHeaders_token _ _ _ t) by done. cbn [fst].
    by rewrite lookup_insert_eq. }
  split.
  - intros response -> Hok%ok_status. rewrite Hok.
    cbn [tableError tableUsers resetInfo].
    split; [done |]. split; [apply sublist_filter |]. split.
    { intros u. rewrite list_elem_of_filter. tauto. }
    split.
    + intros info -> Hinfo. by rewrite bool_decide_eq_true_2.
    + intros info -> Hinfo. by rewrite bool_decide_eq_false_2.
  - intros Hfail. destruct (transport _ _ _) as [response|].
    + destruct (ok response) eqn:Hok.
      { apply ok_status in Hok. by destruct (Hfail response). }
      cbn [tableUsers tableError resetInfo]. split; [done |].
      split; [done |].
      eexists. split; [done |]. by apply orElse_not_empty.
    + cbn [tableUsers tableError resetInfo]. split; [done |].
      split; [done |].
      eexists. split; [done |]. by apply orElse_not_empty.
Qed.

Lemma handleDeleteUser_spec_witness :
  let response :=
    {| status := 403; contentType := Some "application/json";
       json := Some (JObject {[ "message" := JString "Forbidden" ]}) |} in
  let env := {| baseURL := "https://lms.example";
                transport := λ _ _, Some response;
                networkErrorText := "Failed to fetch";
                typeErrorText := "Cannot read properties of null" |} in
  let w := {| client := initialState NoWindow; sent := [] |} in
  let user := {| user_id := 7; user_name := "Budi"; user_email := None;
                 user_username := "budi"; user_nim := None;
                 user_role := dosen; user_status := active;
                 user_force_password_change := false |} in
  let ts := {| tableUsers := [user]; tableError := None;
               resetInfo := None |} in
  handleDeleteUser env false user w ts = (ts, w)
  ∧ tableUsers (handleDeleteUser env true user w ts).1 = [user].
Proof.
  intros response env w user ts.
  destruct (handleDeleteUser_spec env user w ts)
    as (Hno & request & _ & _ & _ & _ & _ & _ & Hfail).
  split; [exact Hno |].
  destruct Hfail as (Hrows & _); [| exact Hrows].
  intros r [= <-]. simpl. lia.
Defined.

Lemma send_returned (env : Env) (w : World) (options : ApiRequestOptions)
    (response : Response) :
  transport env (sent w) (buildRequest (baseURL env) (client w) options).1
  = Some response →
  200 ≤ status response ≤ 299 →
  (send env w options).1 = Returned (responseDataOf response).
Proof.
  intros Ht Hok. rewrite send_fields, Ht. cbn [fst].
  by apply handleResponse_ok.
Qed.

Lemma send_failed (env : Env) (w : World) (options : ApiRequestOptions) :
  (∀ response,
     transport env (sent w)
       (buildRequest (baseURL env) (client w) options).1 = Some response →
     ¬ (200 ≤ status response ≤ 299)) →
  ∃ text, failureText env (send env w options).1 = Some text
          ∧ ∀ v, (send env w options).1 ≠ Returned v.
Proof.
  intros Hfail. rewrite send_fields. cbn [fst].
  destruct (transport _ _ _) as [response|].
  - rewrite handleResponse_not_ok by by apply Hfail. by eexists.
  - by eexists.
Qed.

Lemma send_sent (env : Env) (w : World) (options : ApiRequestOptions) :
  sent (send env w options).2
  = sent w ++ [(buildRequest (baseURL env) (client w) options).1].
Proof. by rewrite send_fields. Qed.

Lemma loadUsers_sent (env : Env) (f : UserFilters) (w : World)
    (ul : UserList) :
  ∃ reload, sent (loadUsers env f w ul).2 = sent w ++ [reload]
            ∧ req_method reload = GET.
Proof.
  rewrite loadUsers_fields. cbn [snd sent]. eexists. split; [done |].
  by rewrite buildRequest_fields.
Qed.

Lemma missingId_spec (id : option Z) :
  missingId id = true ↔ id = None ∨ id = Some 0.
Proof.
  destruct id as [n|]; simpl; [| by split; [left |]].
  rewrite Z.eqb_eq. split; [intros ->; by right |].
  by intros [|[= ->]].
Qed.

Lemma trimmedOrNull_spec (s : string) :
  trimmedOrNull s = if bool_decide (isBlank s = true) then JNull
                    else JString (JS.trim s).
Proof.
  unfold trimmedOrNull.
  by rewrite (bool_decide_ext _ _ (trim_empty s)).
Qed.

(** X20.  [handleSubmitForm] sends nothing and leaves the form open with
    an error when the trimmed name or username is empty, and also when an
    edit has no id or the id 0.  Otherwise it first sends a POST to the
    users' path for a new user, or a PUT to the user's path for an edit,
    with the trimmed name and username and with [null] for an e-mail or
    NIM that is blank.  When that request succeeds the form is closed and
    emptied and the list is reloaded by one GET; when it fails nothing
    more is sent, the form stays as it was and the error text is never
    empty. *)
Theorem handleSubmitForm_spec (env : Env) (f : UserFilters) (w : World)
    (d : FormDialog) (ul : UserList) :
  let result := handleSubmitForm env f w d ul in
  let form := formState d in
  let blank :=
    JS.trim (form_name form) = "" ∨ JS.trim (form_username form) = "" in
  let noId :=
    formMode d = modeEdit
    ∧ (form_id form = None ∨ form_id form = Some 0) in
  let refused (text : string) :=
    ({| formMode := formMode d; formOpen := formOpen d; formState := form;
        formError := Some text |}, ul, w) in
  (blank → result = refused "Nama dan username wajib diisi.")
  ∧ (¬ blank → noId → result = refused "ID pengguna tidak valid.")
  ∧ (¬ blank → ¬ noId →
     ∃ request fields,
       req_method request
       = match formMode d with modeCreate => POST | modeEdit => PUT end
       ∧ req_url request
         = stripTrailingSlashes (baseURL env) +:+ "/api/admin/users"
           +:+ match formMode d with
               | modeCreate => ""
               | modeEdit =>
                   "/" +:+ JS.numberToString (default 0 (form_id form))
               end
       ∧ req_body request = Some (JsonText (JObject fields))
       ∧ fields !! "name" = Some (JString (JS.trim (form_name form)))
       ∧ fields !! "username"
         = Some (JString (JS.trim (form_username form)))
       ∧ fields !! "email"
         = Some (if bool_decide (isBlank (form_email form) = true)
                 then JNull else JString (JS.trim (form_email form)))
       ∧ fields !! "nim"
         = Some (if bool_decide (isBlank (form_nim form) = true)
                 then JNull else JString (JS.trim (form_nim form)))
       ∧ (∀ response,
            transport env (sent w) request = Some response →
            200 ≤ status response ≤ 299 →
            result.1.1 = closeForm d
            ∧ ∃ reload, sent result.2 = sent w ++ [request; reload]
                        ∧ req_method reload = GET)
       ∧ ((∀ response,
             transport env (sent w) request = Some response →
             ¬ (200 ≤ status response ≤ 299)) →
          sent result.2 = sent w ++ [request]
          ∧ result.1.2 = ul
          ∧ formOpen result.1.1 = formOpen d
          ∧ formState result.1.1 = form
          ∧ ∃ text, formError result.1.1 = Some text ∧ text ≠ "")).
Proof.
  intros result form blank noId refused.
  subst result blank noId refused. unfold handleSubmitForm. fold form.
  assert (∀ options,
    ∃ request,
      request = (buildRequest (baseURL env) (client w) options).1
      ∧ (∀ response,
           transport env (sent w) request = Some response →
           200 ≤ status response ≤ 299 →
           (let '(outcome, w') := send env w options in
            match outcome with
            | Returned _ =>
                let '(ul', w'') := loadUsers env f w' ul in
                (closeForm d, ul', w'')
            | _ =>
                ({| formMode := formMode d; formOpen := formOpen d;
                    formState := form;
                    formError :=
                      Some (orElse (default "" (failureText env outcome))
                              "Gagal menyimpan pengguna.") |}, ul, w')
            end).1.1 = closeForm d
           ∧ ∃ reload,
               sent (let '(outcome, w') := send env w options in
                     match outcome with
                     | Returned _ =>
                         let '(ul', w'') := loadUsers env f w' ul in
                         (closeForm d, ul', w'')
                     | _ =>
                         ({| formMode := formMode d; formOpen := formOpen d;
                             formState := form;
                             formError :=
                               Some (orElse
                                       (default "" (failureText env outcome))
                                       "Gagal menyimpan pengguna.") |},
                          ul, w')
                     end).2 = sent w ++ [request; reload]
               ∧ req_method reload = GET)
      ∧ ((∀ response,
            transport env (sent w) request = Some response →
            ¬ (200 ≤ status response ≤ 299)) →
         let r :=
           (let '(outcome, w') := send env w options in
            match outcome with
            | Returned _ =>
                let '(ul', w'') := loadUsers env f w' ul in
                (closeForm d, ul', w'')
            | _ =>
                ({| formMode := formMode d; formOpen := formOpen d;
                    formState := form;
                    formError :=
                      Some (orElse (default "" (failureText env outcome))
                              "Gagal menyimpan pengguna.") |}, ul, w')
            end) in
         sent r.2 = sent w ++ [request]
         ∧ r.1.2 = ul
         ∧ formOpen r.1.1 = formOpen d
         ∧ formState r.1.1 = form
         ∧ ∃ text, formError r.1.1 = Some text ∧ text ≠ "")) as Hsubmit.
  { intros options. eexists. split; [reflexivity |]. split.
    - intros response Ht Hok.
      pose proof (send_returned env w options response Ht Hok) as Hret.
      pose proof (send_sent env w options) as Hsent.
      destruct (send env w options) as [outcome w']. simpl in Hret, Hsent.
      subst outcome.
      destruct (loadUsers_sent env f w' ul) as (reload & Hreload & Hget).
      destruct (loadUsers env f w' ul) as [ul' w'']. simpl in Hreload.
      cbn [fst snd]. split; [done |]. exists reload.
      rewrite Hreload, Hsent, <- app_assoc. done.
    - intros Hfail r. subst r.
      destruct (send_failed env w options Hfail) as (text & Htext & Hnot).
      pose proof (send_sent env w options) as Hsent.
      destruct (send env w options) as [outcome w']. simpl in *.
      destruct outcome as [v| |]; [by destruct (Hnot v) | |];
        cbn [fst snd formOpen formState formError];
        (split; [done |]); (split; [done |]); (split; [done |]);
        (split; [done |]); eexists; (split; [done |]);
        by apply orElse_not_empty. }
  split; [| split].
  - intros [Hb|Hb]; rewrite Hb.
    + done.
    + by rewrite orb_true_r.
  - intros Hnb [Hmode Hid]. rewrite Hmode.
    rewrite (proj2 (missingId_spec _) Hid).
    destruct (bool_decide _ || bool_decide _) eqn:Hb; [| done].
    destruct Hnb. apply orb_true_iff in Hb.
    by rewrite !bool_decide_eq_true in Hb.
  - intros Hnb Hnid.
    destruct (bool_decide _ || bool_decide _) eqn:Hb.
    { destruct Hnb. apply orb_true_iff in Hb.
      by rewrite !bool_decide_eq_true in Hb. }
    destruct (formMode d) eqn:Hmode.
    + destruct (Hsubmit (postOptions "/api/admin/users"
                           (BodyValue (formPayload form))
                           (withAuthOption true)))
        as (request & Hreq & Hok & Hfail).
      exists request. eexists.
      rewrite buildRequest_fields in Hreq. rewrite Hreq at 1 2 3.
      cbn [fst req_method req_body req_url postOptions method body
           default].
      split; [done |]. split.
      { unfold buildUrl. cbn [path query postOptions withAuthOption
                              addQuery].
        unfold baseUrl. simpl JS.startsWith. cbn [stripLeadingSlashes].
        by rewrite string_app_empty_r. }
      split; [reflexivity |].
      split; [done |]. split; [done |].
      split; [by rewrite <- trimmedOrNull_spec |].
      split; [by rewrite <- trimmedOrNull_spec |].
      split; [exact Hok | exact Hfail].
    + destruct (missingId (form_id form)) eqn:Hmiss.
      { destruct Hnid. split; [done |]. by apply missingId_spec. }
      destruct (Hsubmit (putOptions (userPath (default 0 (form_id form)))
                           (BodyValue (formPayload form))
                           (withAuthOption true)))
        as (request & Hreq & Hok & Hfail).
      exists request. eexists.
      rewrite buildRequest_fields in Hreq. rewrite Hreq at 1 2 3.
      cbn [fst req_method req_body req_url putOptions method body
           default].
      split; [done |]. split.
      { unfold buildUrl. cbn [path query putOptions withAuthOption
                              addQuery].
        by rewrite userPath_url_plain. }
      split; [reflexivity |].
      split; [done |]. split; [done |].
      split; [by rewrite <- trimmedOrNull_spec |].
      split; [by rewrite <- trimmedOrNull_spec |].
      split; [exact Hok | exact Hfail].
Qed.

Lemma handleSubmitForm_spec_witness :
  let response := {| status := 201; contentType := None; json := None |} in
  let env := {| baseURL := "https://lms.example";
                transport := λ _ _, Some response;
                networkErrorText := "Failed to fetch";
                typeErrorText := "Cannot read properties of null" |} in
  let f := {| roleFilter := None; statusFilter := None; keyword := "" |} in
  let w := {| client := initialState NoWindow; sent := [] |} in
  let d := {| formMode := modeCreate; formOpen := true;
              formState :=
                {| form_id := None; form_name := " Budi ";
                   form_email := " "; form_username := "budi";
                   form_nim := ""; form_role := dosen;
                   form_status := active;
                   form_force_password_change := true |};
              formError := None |} in
  let ul := {| users := []; loading := false; error := None |} in
  formOpen (handleSubmitForm env f w d ul).1.1 = false
  ∧ formState (handleSubmitForm env f w d ul).1.1 = emptyForm
  ∧ length (sent (handleSubmitForm env f w d ul).2) = 2%nat.
Proof.
  intros response env f w d ul.
  destruct (handleSubmitForm_spec env f w d ul) as (_ & _ & Hsend).
  destruct Hsend as (request & fields & _ & _ & _ & _ & _ & _ & _ & Hok & _).
  - intros [H|H]; vm_compute in H; discriminate.
  - intros [H _]. discriminate.
  - destruct (Hok response eq_refl) as (Hclosed & reload & Hsent & _);
      [simpl; lia |].
    rewrite Hclosed, Hsent. done.
Defined.

Lemma handleResetPassword_fields (env : Env) (user : PageUser) (w : World)
    (ts : TableState) :
  let options :=
    postOptions (userPath (user_id user) +:+ "/reset-password")
      (BodyValue (JObject ∅)) (withAuthOption true) in
  let request := (buildRequest (baseURL env) (client w) options).1 in
  let failed (text : string) : TableState :=
    {| tableUsers := tableUsers ts;
       tableError := Some (orElse text "Gagal reset password.");
       resetInfo := None |} in
  handleResetPassword env user w ts
  = (match transport env (sent w) request with
     | Some response =>
         if ok response
         then
           let res := responseDataOf response in
           if isNull res then failed (typeErrorText env)
           else
             let plain :=
               nullish (getProperty res "plain_password")
                 (nullish (getProperty res "password") (JString "")) in
             if negb (truthy plain)
             then failed "Password baru tidak ditemukan di response."
             else
               {| tableUsers := tableUsers ts;
                  tableError := None;
                  resetInfo :=
                    Some {| userId := user_id user;
                            resetUsername := user_username user;
                            plainPassword := plain |} |}
         else failed (errorMessage response (responseDataOf response))
     | None => failed (networkErrorText env)
     end,
     {| client := (buildRequest (baseURL env) (client w) options).2;
        sent := sent w ++ [request] |}).
Proof.
  intros options request failed. unfold handleResetPassword.
  fold options. rewrite send_fields. fold request.
  destruct (transport env (sent w) request) as [response|]; [| done].
  unfold handleResponse. by destruct (ok response).
Qed.

(** X21.  [handleResetPassword] sends one POST with an empty JSON object
    to the reset path of the user and never changes the list.  It ends
    either with a notice for that user and no error, or with no notice
    and an error text that is not empty.  After a response with a status
    from 200 to 299: a [plain_password] that is not [null] decides alone,
    so an empty one gives the error although [password] may hold a
    value; without it [password] is used; with neither, or with a body
    that is not JSON, there is an error and no notice. *)
Theorem handleResetPassword_spec (env : Env) (user : PageUser) (w : World)
    (ts : TableState) :
  let result := handleResetPassword env user w ts in
  let notice (plain : JSON) :=
    Some {| userId := user_id user; resetUsername := user_username user;
            plainPassword := plain |} in
  let notFound := Some "Password baru tidak ditemukan di response." in
  ∃ request,
    sent result.2 = sent w ++ [request]
    ∧ req_method request = POST
    ∧ req_url request
      = stripTrailingSlashes (baseURL env) +:+ "/api/admin/users/"
        +:+ JS.numberToString (user_id user) +:+ "/reset-password"
    ∧ req_body request = Some (JsonText (JObject ∅))
    ∧ tableUsers result.1 = tableUsers ts
    ∧ ((∃ plain, truthy plain = true ∧ resetInfo result.1 = notice plain
                 ∧ tableError result.1 = None)
       ∨ (resetInfo result.1 = None
          ∧ ∃ text, tableError result.1 = Some text ∧ text ≠ ""))
    ∧ (∀ response,
         transport env (sent w) request = Some response →
         200 ≤ status response ≤ 299 →
         let res := responseDataOf response in
         (isNull res = true →
          resetInfo result.1 = None
          ∧ tableError result.1
            = Some (orElse (typeErrorText env) "Gagal reset password."))
         ∧ (∀ p, isNull res = false →
                 getProperty res "plain_password" = Some p →
                 isNull p = false →
                 if truthy p
                 then resetInfo result.1 = notice p
                      ∧ tableError result.1 = None
                 else resetInfo result.1 = None
                      ∧ tableError result.1 = notFound)
         ∧ (∀ q, isNull res = false →
                 (getProperty res "plain_password" = None
                  ∨ getProperty res "plain_password" = Some JNull) →
                 getProperty res "password" = Some q →
                 truthy q = true →
                 resetInfo result.1 = notice q
                 ∧ tableError result.1 = None)
         ∧ (isNull res = false →
            (getProperty res "plain_password" = None
             ∨ getProperty res "plain_password" = Some JNull) →
            (getProperty res "password" = None
             ∨ getProperty res "password" = Some JNull) →
            resetInfo result.1 = None ∧ tableError result.1 = notFound)).
Proof.
  intros result notice notFound. subst result notice notFound.
  rewrite handleResetPassword_fields. cbn [fst snd sent].
  eexists. split; [reflexivity |].
  rewrite buildRequest_fields.
  cbn [fst req_method req_body req_url postOptions method body default].
  split; [done |]. split.
  { unfold buildUrl. cbn [path query postOptions withAuthOption addQuery].
    by rewrite userPath_url. }
  split; [reflexivity |]. split.
  { destruct (transport _ _ _) as [response|]; [| done].
    destruct (ok response); [| done].
    destruct (isNull _); [done |]. by destruct (negb _). }
  split.
  { destruct (transport _ _ _) as [response|].
    - destruct (ok response).
      + destruct (isNull _).
        { right. split; [done |]. eexists. split; [done |].
          by apply orElse_not_empty. }
        destruct (truthy _) eqn:Hp; simpl.
        * left. by eexists.
        * right. split; [done |]. by eexists.
      + right. split; [done |]. eexists. split; [done |].
        by apply orElse_not_empty.
    - right. split; [done |]. eexists. split; [done |].
      by apply orElse_not_empty. }
  intros response -> Hok%ok_status. rewrite Hok.
  split; [by intros -> |]. split; [| split].
  - intros p -> -> Hp.
    assert (∀ b, nullish (Some p) b = p) as Hnull.
    { intros b. unfold nullish. by rewrite Hp. }
    rewrite !Hnull. by destruct (truthy p).
  - intros q -> Hplain -> Hq.
    assert (nullish (getProperty (responseDataOf response) "plain_password")
              (nullish (Some q) (JString "")) = q) as ->.
    { assert (nullish (Some q) (JString "") = q) as ->.
      { unfold nullish. by destruct q. }
      by destruct Hplain as [-> | ->]. }
    by rewrite Hq.
  - intros -> Hplain Hpass.
    assert (nullish (getProperty (responseDataOf response) "plain_password")
              (nullish (getProperty (responseDataOf response) "password")
                 (JString "")) = JString "") as ->; [| done].
    by destruct Hplain as [-> | ->], Hpass as [-> | ->].
Qed.

Lemma handleResetPassword_spec_witness :
  let response :=
    {| status := 200; contentType := Some "application/json";
       json := Some (JObject {[ "plain_password" := JString "";
                                "password" := JString "s3cret" ]}) |} in
  let env := {| baseURL := "https://lms.example";
                transport := λ _ _, Some response;
                networkErrorText := "Failed to fetch";
                typeErrorText := "Cannot read properties of null" |} in
  let w := {| client := initialState NoWindow; sent := [] |} in
  let user := {| user_id := 7; user_name := "Budi"; user_email := None;
                 user_username := "budi"; user_nim := None;
                 user_role := dosen; user_status := active;
                 user_force_password_change := false |} in
  let ts := {| tableUsers := [user]; tableError := None;
               resetInfo := None |} in
  resetInfo (handleResetPassword env user w ts).1 = None
  ∧ tableError (handleResetPassword env user w ts).1
    = Some "Password baru tidak ditemukan di response.".
Proof.
  intros response env w user ts.
  destruct (handleResetPassword_spec env user w ts)
    as (request & _ & _ & _ & _ & _ & _ & Hok).
  destruct (Hok response eq_refl) as (_ & Hplain & _); [simpl; lia |].
  apply (Hplain (JString "")); reflexivity.
Defined.

Lemma handleUploadTemplate_NoDup (fuel : nat) (users : list User)
    (json : list SheetRow) (now : Date) (preview : list BulkStudentRow) :
  handleUploadTemplate fuel users json now = Some preview →
  NoDup (order <$> preview).
Proof.
  unfold handleUploadTemplate, allocateBatch.
  destruct (forEachRow _ _ _ _) as [final|] eqn:Hrun; [| done].
  intros [= <-]. apply (rows_distinct_orders now).
  - eapply rows_generated; [exact Hrun |]. intros r Hr. inversion Hr.
  - by destruct (forEachRow_sound fuel now (existingNims users)
                   (existingUsernames users) json _ _ Hrun
                   (batchInvariant_start _ _ _)) as [(Hnd & _) _].
Qed.

(** X22.  The rows of a preview have distinct orders, and an edit keeps
    the orders of the rows.  In rows with distinct orders an edit
    addressed by the order of a row replaces the edited field of that
    row and leaves every other row as it was; it keeps the error and
    always discards the rows generated before. *)
Theorem handleBulkRowChange_one_row (bs : BulkState) (i : nat)
    (row : BulkStudentRow) (field : BulkField) (value : string)
    (Hdistinct : NoDup (order <$> bulkRows bs))
    (Hrow : bulkRows bs !! i = Some row) :
  let result := handleBulkRowChange (order row) field value bs in
  bulkRows result = <[ i := setBulkField row field value ]> (bulkRows bs)
  ∧ order <$> bulkRows result = order <$> bulkRows bs
  ∧ bulkError result = bulkError bs
  ∧ bulkGeneratedRows result = []
  ∧ ∀ fuel users json now preview,
      handleUploadTemplate fuel users json now = Some preview →
      NoDup (order <$> preview).
Proof.
  intros result. subst result. unfold handleBulkRowChange.
  cbn [bulkRows bulkError bulkGeneratedRows].
  split; [| split; [| split; [done | split; [done |]]]].
  - apply list_eq. intros j. rewrite list_lookup_fmap.
    destruct (decide (j = i)) as [->|Hne].
    + rewrite list_lookup_insert_eq by by eapply lookup_lt_Some.
      rewrite Hrow. simpl. by rewrite bool_decide_eq_true_2.
    + rewrite list_lookup_insert_ne by done.
      destruct (bulkRows bs !! j) as [rj|] eqn:Hj; [| done]. simpl.
      rewrite bool_decide_eq_false_2; [done |]. intros Ho.
      apply Hne. eapply NoDup_lookup; [exact Hdistinct | |].
      * by rewrite list_lookup_fmap, Hj.
      * rewrite list_lookup_fmap, Hrow. simpl. by rewrite Ho.
  - rewrite <- list_fmap_compose. apply list_fmap_ext.
    intros j r _. simpl. case_bool_decide; [| done]. by destruct field.
  - intros fuel users json now preview.
    apply handleUploadTemplate_NoDup.
Qed.

Lemma handleBulkRowChange_one_row_witness :
  let udin := {| order := 1; name := "Udin"; nim := "20250307001";
                 username := "20250307001"; password := "udin001" |} in
  let al := {| order := 2; name := "Al"; nim := "20250307002";
               username := "20250307002"; password := "al002" |} in
  let bs := {| bulkRows := [udin; al]; bulkError := None;
               bulkGeneratedRows := [udin; al] |} in
  handleUploadTemplate 5 [] [mkSheetRow (Some "Udin"); mkSheetRow (Some "Al")]
    (mkDate 2025 2 7) = Some [udin; al]
  ∧ bulkRows (handleBulkRowChange 2 fieldName "Ali" bs)
    = [udin; {| order := 2; name := "Ali"; nim := "20250307002";
                username := "20250307002"; password := "al002" |}].
Proof.
  intros udin al bs. split; [by vm_compute |].
  apply (handleBulkRowChange_one_row bs 1 al fieldName "Ali").
  - apply NoDup_cons. split; [| apply NoDup_singleton].
    intros Hin%list_elem_of_singleton. done.
  - reflexivity.
Defined.

Lemma answerTo_cons (env : Env) (w : World) (st : ClientState)
    (request : Request) (requests : list Request) (i : nat) :
  answerTo env w (request :: requests) (S i)
  = answerTo env {| client := st; sent := sent w ++ [request] |} requests i.
Proof.
  unfold answerTo. cbn [sent]. simpl. by rewrite <- app_assoc.
Qed.

Lemma answerTo_first (env : Env) (w : World) (request : Request)
    (requests : list Request) :
  answerTo env w (request :: requests) 0 = transport env (sent w) request.
Proof. unfold answerTo. simpl. by rewrite app_nil_r. Qed.

(** The payloads of the rows that the loop does not skip, and where the
    loop stops. *)
Lemma postBulkRows_spec (env : Env) (rows : list BulkStudentRow)
    (w : World) :
  ∃ requests,
    sent (postBulkRows env rows w).2 = sent w ++ requests
    ∧ Forall (λ request,
                req_method request = POST
                ∧ req_url request
                  = stripTrailingSlashes (baseURL env)
                    +:+ "/api/admin/users") requests
    ∧ req_body <$> requests
      `prefix_of` (λ row, Some (JsonText (bulkPayload row)))
                  <$> filter (λ row, bulkRowSkipped row = false) rows
    ∧ (∀ i, (S i < length requests)%nat →
         accepted (answerTo env w requests i))
    ∧ match (postBulkRows env rows w).1 with
      | None =>
          req_body <$> requests
          = (λ row, Some (JsonText (bulkPayload row)))
            <$> filter (λ row, bulkRowSkipped row = false) rows
          ∧ ∀ i, (i < length requests)%nat →
              accepted (answerTo env w requests i)
      | Some outcome =>
          (∀ v, outcome ≠ Returned v)
          ∧ (∃ text, failureText env outcome = Some text)
          ∧ requests ≠ []
          ∧ ¬ accepted (answerTo env w requests (length requests - 1))
      end.
Proof.
  revert w. induction rows as [|row rows IH]; intros w.
  { exists []. simpl. rewrite app_nil_r.
    split; [done |]. split; [done |]. split; [done |].
    split; [intros i Hi; lia |]. split; [done | intros i Hi; lia]. }
  cbn [postBulkRows]. rewrite filter_cons.
  destruct (bulkRowSkipped row) eqn:Hskip.
  { rewrite decide_False by done. apply IH. }
  rewrite decide_True by done.
  set (options := postOptions "/api/admin/users"
                    (BodyValue (bulkPayload row)) (withAuthOption true)).
  rewrite send_fields.
  set (request := (buildRequest (baseURL env) (client w) options).1).
  assert (req_method request = POST
          ∧ req_url request
            = stripTrailingSlashes (baseURL env) +:+ "/api/admin/users"
          ∧ req_body request = Some (JsonText (bulkPayload row)))
    as (Hmethod & Hurl & Hbody).
  { subst request. rewrite buildRequest_fields. cbn [fst]. done. }
  set (w' := {| client := (buildRequest (baseURL env) (client w) options).2;
                sent := sent w ++ [request] |}).
  assert (∀ outcome, (∀ v, outcome ≠ Returned v) →
            (∃ text, failureText env outcome = Some text) →
            ¬ accepted (transport env (sent w) request) →
            ∃ requests,
              sent w' = sent w ++ requests
              ∧ Forall (λ request,
                          req_method request = POST
                          ∧ req_url request
                            = stripTrailingSlashes (baseURL env)
                              +:+ "/api/admin/users") requests
              ∧ req_body <$> requests
                `prefix_of`
                  (λ row, Some (JsonText (bulkPayload row)))
                  <$> row :: filter (λ row, bulkRowSkipped row = false) rows
              ∧ (∀ i, (S i < length requests)%nat →
                   accepted (answerTo env w requests i))
              ∧ (∀ v, outcome ≠ Returned v)
              ∧ (∃ text, failureText env outcome = Some text)
              ∧ requests ≠ []
              ∧ ¬ accepted (answerTo env w requests (length requests - 1)))
    as Hstop.
  { intros outcome Hnot Htext Hrefused. exists [request].
    split; [done |]. split; [by apply Forall_singleton |].
    split; [simpl; rewrite Hbody; by apply prefix_cons, prefix_nil |].
    split; [simpl; intros i Hi; lia |].
    split; [done |]. split; [done |]. split; [done |].
    simpl. by rewrite answerTo_first. }
  destruct (transport env (sent w) request) as [response|] eqn:Hanswer.
  - unfold handleResponse. destruct (ok response) eqn:Hok; cbn [negb].
    + destruct (IH w') as (requests & Hsent & Hall & Hpre & Hmost & Hend).
      assert (∀ i, accepted (answerTo env w' requests i) →
                   accepted (answerTo env w (request :: requests) (S i)))
        as Hshift.
      { intros i Hi. by erewrite answerTo_cons. }
      assert (accepted (answerTo env w (request :: requests) 0)) as Hfirst.
      { rewrite answerTo_first, Hanswer. by exists response. }
      exists (request :: requests).
      split; [rewrite Hsent; simpl; by rewrite <- app_assoc |].
      split; [by apply Forall_cons |].
      split; [simpl; rewrite Hbody; by apply prefix_cons |].
      split.
      { intros [|i] Hi; [done |]. apply Hshift, Hmost. simpl in Hi. lia. }
      destruct (postBulkRows env rows w').1.
      * destruct Hend as (Hnot & Htext & Hne & Hlast).
        split; [done |]. split; [done |]. split; [done |].
        destruct requests as [|r requests]; [done |].
        cbn [length] in *. rewrite Nat.sub_succ, Nat.sub_0_r in *.
        erewrite answerTo_cons. exact Hlast.
      * destruct Hend as [Hbodies Hevery]. split.
        -- rewrite !fmap_cons, Hbody. by f_equal.
        -- intros [|i] Hi; [done |]. apply Hshift, Hevery. simpl in Hi. lia.
    + apply Hstop; [done | by eexists |].
      intros (r & [= <-] & Hr). congruence.
  - apply Hstop; [done | by eexists |]. by intros (r & Hr & _).
Qed.

Lemma all_posted (env : Env) (rows : list BulkStudentRow) (w : World) :
  (∀ log request, ∃ response,
     transport env log request = Some response
     ∧ 200 ≤ status response ≤ 299) →
  (postBulkRows env rows w).1 = None.
Proof.
  intros Hok. revert w. induction rows as [|row rows IH]; intros w; [done |].
  cbn [postBulkRows]. destruct (bulkRowSkipped row); [apply IH |].
  rewrite send_fields.
  destruct (Hok (sent w)
              (buildRequest (baseURL env) (client w)
                 (postOptions "/api/admin/users"
                    (BodyValue (bulkPayload row)) (withAuthOption true))).1)
    as (response & -> & Hstatus).
  rewrite handleResponse_ok by done. apply IH.
Qed.

(** X23.  [handleGenerateBulk] with no rows only sets an error and sends
    nothing.  With rows it sends POSTs to the users' path whose bodies are
    the payloads of the rows with a name, NIM and username that are not
    blank, in the order of the rows, and it stops at the first request
    that fails: every request but the last one sent was answered with a
    status from 200 to 299.  It never changes the rows.  When no request
    fails, the last one was answered so too, every such row has been
    posted, all rows, the skipped ones too, become the generated rows,
    and the list is reloaded by one GET.  When one fails, it is the last
    request sent, the one that the backend did not answer or answered
    with another status: nothing more is sent, the generated rows are
    empty, the list stays as it was and the error text is never empty.
    A backend that answers every request with a status from 200 to 299
    makes no request fail. *)
Theorem handleGenerateBulk_spec (env : Env) (f : UserFilters) (w : World)
    (bs : BulkState) (ul : UserList) :
  let result := handleGenerateBulk env f w bs ul in
  let payloads :=
    (λ row, Some (JsonText (bulkPayload row)))
    <$> filter (λ row, bulkRowSkipped row = false) (bulkRows bs) in
  (bulkRows bs = [] →
   result
   = ({| bulkRows := [];
         bulkError := Some "Belum ada data mahasiswa untuk digenerate.";
         bulkGeneratedRows := bulkGeneratedRows bs |}, ul, w))
  ∧ bulkRows result.1.1 = bulkRows bs
  ∧ (bulkRows bs ≠ [] →
     ∃ requests reloads,
       sent result.2 = sent w ++ requests ++ reloads
       ∧ Forall (λ request,
                   req_method request = POST
                   ∧ req_url request
                     = stripTrailingSlashes (baseURL env)
                       +:+ "/api/admin/users") requests
       ∧ req_body <$> requests `prefix_of` payloads
       ∧ (∀ i, (S i < length requests)%nat →
            accepted (answerTo env w requests i))
       ∧ ((bulkError result.1.1 = None
           ∧ bulkGeneratedRows result.1.1 = bulkRows bs
           ∧ req_body <$> requests = payloads
           ∧ (∀ i, (i < length requests)%nat →
                accepted (answerTo env w requests i))
           ∧ ∃ reload, reloads = [reload] ∧ req_method reload = GET)
          ∨ ((∃ text, bulkError result.1.1 = Some text ∧ text ≠ "")
             ∧ bulkGeneratedRows result.1.1 = []
             ∧ reloads = []
             ∧ result.1.2 = ul
             ∧ requests ≠ []
             ∧ ¬ accepted (answerTo env w requests (length requests - 1))))
       ∧ ((∀ log request, ∃ response,
             transport env log request = Some response
             ∧ 200 ≤ status response ≤ 299) →
          bulkError result.1.1 = None)).
Proof.
  intros result payloads. subst result payloads. unfold handleGenerateBulk.
  destruct (bulkRows bs) as [|row rows] eqn:Hrows.
  { split; [done |]. split; [done |]. by intros []. }
  rewrite <- Hrows. split; [by rewrite Hrows |].
  pose proof (postBulkRows_spec env (bulkRows bs) w) as Hposts.
  pose proof (all_posted env (bulkRows bs) w) as Hall.
  destruct (postBulkRows env (bulkRows bs) w) as [failure w'].
  cbn [fst snd] in Hposts, Hall.
  destruct Hposts as (requests & Hsent & Hforall & Hprefix & Hmost & Hend).
  destruct failure as [outcome|].
  - cbn [fst snd bulkRows]. split; [done |]. intros _.
    exists requests, []. rewrite app_nil_r.
    split; [done |]. split; [done |]. split; [done |]. split; [done |].
    destruct Hend as (Hnot & (text & Htext) & Hne & Hlast). split.
    + right. cbn [bulkError bulkGeneratedRows].
      split; [| done].
      eexists. split; [done |]. by apply orElse_not_empty.
    + intros Hok. by specialize (Hall Hok).
  - destruct (loadUsers_sent env f w' ul) as (reload & Hreload & Hget).
    destruct (loadUsers env f w' ul) as [ul' w'']. simpl in Hreload.
    cbn [fst snd bulkRows]. split; [done |]. intros _.
    exists requests, [reload].
    split; [by rewrite Hreload, Hsent, <- app_assoc |].
    split; [done |]. split; [done |]. split; [done |]. split; [| done].
    destruct Hend as [Hbodies Hevery].
    left. cbn [bulkError bulkGeneratedRows]. split; [done |].
    split; [done |]. split; [done |]. split; [done |]. by exists reload.
Qed.

Lemma handleGenerateBulk_spec_witness :
  let response := {| status := 201; contentType := None; json := None |} in
  let env := {| baseURL := "https://lms.example";
                transport := λ _ _, Some response;
                networkErrorText := "Failed to fetch";
                typeErrorText := "Cannot read properties of null" |} in
  let f := {| roleFilter := None; statusFilter := None; keyword := "" |} in
  let w := {| client := initialState NoWindow; sent := [] |} in
  let rows :=
    [ {| order := 1; name := "Udin"; nim := "20250307001";
         username := "20250307001"; password := "udin001" |};
      {| order := 2; name := "Al"; nim := " ";
         username := "20250307002"; password := "al002" |} ] in
  let bs := {| bulkRows := rows; bulkError := None;
               bulkGeneratedRows := [] |} in
  let ul := {| users := []; loading := false; error := None |} in
  bulkError (handleGenerateBulk env f w bs ul).1.1 = None
  ∧ bulkGeneratedRows (handleGenerateBulk env f w bs ul).1.1 = rows
  ∧ length (sent (handleGenerateBulk env f w bs ul).2) = 2%nat.
Proof.
  intros response env f w rows bs ul.
  destruct (handleGenerateBulk_spec env f w bs ul) as (_ & _ & Hrows).
  destruct Hrows
    as (requests & reloads & Hsent & _ & _ & _ & Hcases & Hall); [done |].
  assert (bulkError (handleGenerateBulk env f w bs ul).1.1 = None)
    as Herr.
  { apply Hall. intros log request. exists response.
    split; [reflexivity | simpl; lia]. }
  split; [exact Herr |].
  destruct Hcases as [(_ & Hgen & Hbodies & _ & reload & -> & _)
                     |((text & Htext & _) & _)];
    [| rewrite Herr in Htext; discriminate].
  split; [exact Hgen |].
  rewrite Hsent, !length_app.
  rewrite <- (length_fmap req_body requests), Hbodies. reflexivity.
Defined.

Lemma getAuthToken_found (st : ClientState) (t : string) :
  (getAuthToken st).1 = Some t →
  t ≠ ""
  ∧ authToken (getAuthToken st).2 = Some t
  ∧ localStorage (getAuthToken st).2 = localStorage st.
Proof.
  unfold getAuthToken.
  destruct (truthyString (authToken st)) eqn:Ha.
  - simpl. intros Ht. rewrite Ht in Ha. simpl in Ha.
    apply negb_true_iff, bool_decide_eq_false in Ha. done.
  - destruct (localStorage st) as [| |stored] eqn:Hs; try done.
    destruct (truthyString stored) eqn:Hst; [| done].
    simpl. intros ->. simpl in Hst.
    apply negb_true_iff, bool_decide_eq_false in Hst. done.
Qed.

Lemma getAuthToken_none (st : ClientState) :
  (getAuthToken st).1 = None → getAuthToken st = (None, st).
Proof.
  unfold getAuthToken.
  destruct (truthyString (authToken st)) eqn:Ha.
  - simpl. intros Ht. by rewrite Ht in Ha.
  - destruct (localStorage st) as [| |stored]; try done.
    destruct (truthyString stored) eqn:Hst; [| done].
    simpl. intros ->. done.
Qed.

Lemma clearAuthToken_spec (st : ClientState) :
  authToken (clearAuthToken st) = None
  ∧ (getAuthToken (clearAuthToken st)).1 = None
  ∧ (∀ stored, localStorage st = StorageSlot stored →
               localStorage (clearAuthToken st) = StorageSlot None)
  ∧ (getAuthToken (initialState (localStorage (clearAuthToken st)))).1
    = None.
Proof.
  split; [done |]. split; [apply getAuthToken_clear |]. split.
  - intros stored Hs. unfold clearAuthToken. by rewrite Hs.
  - unfold getAuthToken, clearAuthToken, initialState. simpl.
    by destruct (localStorage st).
Qed.

(** The request to [/api/auth/me] and to [/api/auth/logout], sent from a
    state with the token [t] in memory. *)
Lemma authorized_request (API_BASE_URL : string) (st : ClientState)
    (options : ApiRequestOptions) (t : string) :
  default true (withAuth options) = true → tokenOverride options = None →
  authToken st = Some t → t ≠ "" →
  req_headers (buildRequest API_BASE_URL st options).1 !! "Authorization"
  = Some ("Bearer " +:+ t)
  ∧ (buildRequest API_BASE_URL st options).2 = st.
Proof.
  intros Hw Ho Ht Hne. rewrite buildRequest_fields. cbn [fst snd req_headers].
  rewrite (authHeaders_token _ _ _ t) by done. cbn [fst snd].
  by rewrite lookup_insert_eq.
Qed.

Lemma auth_path_url (API_BASE_URL : string) (rest : string) :
  baseUrl API_BASE_URL ("/api/auth/" +:+ rest)
  = stripTrailingSlashes API_BASE_URL +:+ "/api/auth/" +:+ rest.
Proof. reflexivity. Qed.

(** X24.  [initAuth] ends initialized when [getAuthToken] finds no
    token, and when the provider is still mounted as the request
    settles.  When no token is found it sends nothing and leaves user,
    token and the loading flag as they were.  When one is found it sends
    one GET to [/api/auth/me] with that token as bearer.  Mounted, it
    ends not loading; after a status from 200 to 299 the response value
    is the user and the token stays; after any failure user and token
    are [null].  Unmounted, the state is left as it was when the request
    was sent: the token found, loading, the user and the initialized
    flag as before.  Mounted or not, after a status from 200 to 299 the
    token stays in the store, and after any failure it is cleared from
    memory and from a working storage, so that no later call and no
    reload finds it. *)
Theorem initAuth_spec (env : Env) (isMounted : bool) (w : World)
    (a : AuthState) :
  let result := initAuth env isMounted w a in
  let found := (getAuthToken (client w)).1 in
  (found = None ∨ isMounted = true → auth_initialized result.1 = true)
  ∧ (found = None →
     sent result.2 = sent w ∧ client result.2 = client w
     ∧ auth_user result.1 = auth_user a
     ∧ auth_token result.1 = auth_token a
     ∧ auth_loading result.1 = auth_loading a)
  ∧ (∀ t, found = Some t →
       ∃ request,
         sent result.2 = sent w ++ [request]
         ∧ req_method request = GET
         ∧ req_url request
           = stripTrailingSlashes (baseURL env) +:+ "/api/auth/me"
         ∧ req_headers request !! "Authorization" = Some ("Bearer " +:+ t)
         ∧ (isMounted = true → auth_loading result.1 = false)
         ∧ (isMounted = false →
            auth_user result.1 = auth_user a
            ∧ auth_token result.1 = Some t
            ∧ auth_loading result.1 = true
            ∧ auth_initialized result.1 = auth_initialized a)
         ∧ (∀ response,
              transport env (sent w) request = Some response →
              200 ≤ status response ≤ 299 →
              (isMounted = true →
               auth_user result.1 = responseDataOf response
               ∧ auth_token result.1 = Some t)
              ∧ (getAuthToken (client result.2)).1 = Some t)
         ∧ ((∀ response,
               transport env (sent w) request = Some response →
               ¬ (200 ≤ status response ≤ 299)) →
            (isMounted = true →
             auth_user result.1 = JNull ∧ auth_token result.1 = None)
            ∧ (getAuthToken (client result.2)).1 = None
            ∧ (getAuthToken
                 (initialState (localStorage (client result.2)))).1 = None
            ∧ ∀ stored,
                localStorage (client w) = StorageSlot stored →
                localStorage (client result.2) = StorageSlot None)).
Proof.
  intros result found. subst result found. unfold initAuth.
  destruct (getAuthToken (client w)) as [tok st] eqn:Hget.
  destruct tok as [t|].
  - pose proof (getAuthToken_found (client w) t) as Hfound.
    rewrite Hget in Hfound. cbn [fst snd] in Hfound.
    destruct (Hfound eq_refl) as (Hne & Hmem & Hstore).
    assert (truthyString (Some t) = true) as ->.
    { simpl. by rewrite bool_decide_eq_false_2. }
    cbn [negb]. rewrite send_fields. cbn [client sent].
    set (options := getOptions "/api/auth/me" None noOptions).
    destruct (authorized_request (baseURL env) st options t)
      as (Hheader & Hstate); [done.. |].
    rewrite Hstate.
    set (request := (buildRequest (baseURL env) st options).1) in *.
    split.
    { intros [[=]| ->].
      destruct (transport _ _ _) as [response|]; [| done].
      unfold handleResponse. by destruct (ok response). }
    split; [done |]. intros ? [= <-]. exists request.
    split.
    { destruct (transport _ _ _) as [response|]; [| done].
      unfold handleResponse. by destruct (ok response). }
    split; [by subst request; rewrite buildRequest_fields |].
    split.
    { subst request. rewrite buildRequest_fields. cbn [fst req_url].
      unfold buildUrl. cbn [path query options getOptions addQuery].
      apply (auth_path_url _ "me"). }
    split; [done |]. split.
    { intros ->. destruct (transport _ _ _) as [response|]; [| done].
      unfold handleResponse. by destruct (ok response). }
    split.
    { intros ->. destruct (transport _ _ _) as [response|]; [| done].
      unfold handleResponse. by destruct (ok response). }
    split.
    + intros response -> Hok. rewrite handleResponse_ok by done.
      cbn [fst snd auth_user auth_token client].
      split; [by intros -> |].
      unfold getAuthToken. rewrite Hmem. simpl.
      by rewrite bool_decide_eq_false_2.
    + intros Hfail.
      destruct (clearAuthToken_spec st) as (_ & Hnone & Hslot & Hreload).
      destruct (transport _ _ _) as [response|].
      * rewrite handleResponse_not_ok by by apply Hfail.
        cbn [fst snd auth_user auth_token client].
        split; [by intros -> |]. split; [done |].
        split; [done |]. intros stored Hs. apply (Hslot stored).
        by rewrite Hstore.
      * cbn [fst snd auth_user auth_token client].
        split; [by intros -> |]. split; [done |].
        split; [done |]. intros stored Hs. apply (Hslot stored).
        by rewrite Hstore.
  - pose proof (getAuthToken_none (client w)) as Hnone.
    rewrite Hget in Hnone. specialize (Hnone eq_refl).
    injection Hnone as ->. cbn [truthyString negb fst snd].
    split; [done |]. split; [by destruct w |]. by intros t [=].
Qed.

Lemma initAuth_spec_witness :
  let response :=
    {| status := 401; contentType := Some "application/json";
       json := Some (JObject {[ "message" := JString "Unauthenticated." ]})
    |} in
  let env := {| baseURL := "https://lms.example";
                transport := λ _ _, Some response;
                networkErrorText := "Failed to fetch";
                typeErrorText := "Cannot read properties of null" |} in
  let w := {| client := initialState (StorageSlot (Some "stale"));
              sent := [] |} in
  let a := {| auth_user := JNull; auth_token := None;
              auth_loading := false; auth_initialized := false |} in
  auth_initialized (initAuth env true w a).1 = true
  ∧ auth_token (initAuth env true w a).1 = None
  ∧ localStorage (client (initAuth env true w a).2) = StorageSlot None.
Proof.
  intros response env w a.
  destruct (initAuth_spec env true w a) as (Hinit & _ & Hfound).
  split; [apply Hinit; right; reflexivity |].
  destruct (Hfound "stale" eq_refl)
    as (request & _ & _ & _ & _ & _ & _ & _ & Hfail).
  destruct Hfail as (Hnull & _ & _ & Hslot).
  { intros r [= <-]. simpl. lia. }
  split; [by apply Hnull |]. by apply (Hslot (Some "stale")).
Defined.

(** X25.  [logout] sends one POST without a body to [/api/auth/logout],
    with the token that [getAuthToken] finds as bearer.  Whatever the answer, and also
    when [fetch] rejects, it resolves with user and token [null] and with
    the token cleared from memory and from a working storage, so that no
    later call and no reload finds it; the layout then replaces the route
    by [/login]. *)
Theorem logout_spec (env : Env) (w : World) (a : AuthState) :
  let result := logout env w a in
  ∃ request,
    sent result.2 = sent w ++ [request]
    ∧ req_method request = POST
    ∧ req_body request = None
    ∧ req_url request
      = stripTrailingSlashes (baseURL env) +:+ "/api/auth/logout"
    ∧ (∀ t, (getAuthToken (client w)).1 = Some t →
            req_headers request !! "Authorization"
            = Some ("Bearer " +:+ t))
    ∧ auth_user result.1 = JNull
    ∧ auth_token result.1 = None
    ∧ auth_loading result.1 = false
    ∧ authToken (client result.2) = None
    ∧ (getAuthToken (client result.2)).1 = None
    ∧ (getAuthToken (initialState (localStorage (client result.2)))).1
      = None
    ∧ (∀ stored, localStorage (client w) = StorageSlot stored →
                 localStorage (client result.2) = StorageSlot None)
    ∧ handleLogout env w a = (result, "/login").
Proof.
  intros result. subst result. unfold logout. rewrite send_fields.
  set (options := postOptions "/api/auth/logout" BodyUndefined noOptions).
  set (request := (buildRequest (baseURL env) (client w) options).1).
  set (st := (buildRequest (baseURL env) (client w) options).2).
  cbn [fst snd sent client auth_user auth_token auth_loading].
  exists request. split; [done |].
  split; [by subst request; rewrite buildRequest_fields |].
  split; [by subst request; rewrite buildRequest_fields |].
  split.
  { subst request. rewrite buildRequest_fields. cbn [fst req_url].
    unfold buildUrl. cbn [path query options postOptions noOptions addQuery].
    apply (auth_path_url _ "logout"). }
  split.
  { intros t Ht. subst request. rewrite buildRequest_fields.
    cbn [fst req_headers]. unfold authHeaders, resolveToken.
    cbn [withAuth tokenOverride options postOptions noOptions default].
    destruct (getAuthToken (client w)) as [tok st'] eqn:Hget.
    simpl in Ht. subst tok.
    pose proof (getAuthToken_found (client w) t) as Hfound.
    rewrite Hget in Hfound. destruct (Hfound eq_refl) as (Hne & _).
    simpl. rewrite bool_decide_eq_false_2 by done. simpl.
    by rewrite lookup_insert_eq. }
  destruct (clearAuthToken_spec st) as (Hmem & Hnone & Hslot & Hreload).
  split; [done |]. split; [done |]. split; [done |]. split; [done |].
  split; [done |]. split; [done |]. split.
  - intros stored Hs. apply (Hslot stored). subst st.
    by rewrite buildRequest_storage.
  - unfold handleLogout, logout. by rewrite send_fields.
Qed.

Lemma logout_spec_witness :
  let env := {| baseURL := "https://lms.example";
                transport := λ _ _, None;
                networkErrorText := "Failed to fetch";
                typeErrorText := "Cannot read properties of null" |} in
  let w := {| client := setAuthToken "tok" (initialState (StorageSlot None));
              sent := [] |} in
  let a := {| auth_user := JObject ∅; auth_token := Some "tok";
              auth_loading := false; auth_initialized := true |} in
  auth_token (logout env w a).1 = None
  ∧ localStorage (client (logout env w a).2) = StorageSlot None
  ∧ ∃ request, sent (logout env w a).2 = [request]
               ∧ req_headers request !! "Authorization"
                 = Some "Bearer tok".
Proof.
  intros env w a.
  destruct (logout_spec env w a)
    as (request & Hsent & _ & _ & _ & Hauth & _ & Htoken & _ & _ & _ & _
        & Hslot & _).
  split; [exact Htoken |].
  split; [by apply (Hslot (Some "tok")) |].
  exists request. split; [exact Hsent |]. by apply (Hauth "tok").
Defined.

Lemma login_request (env : Env) (username password : string) (w : World) :
  let options :=
    postOptions "/api/auth/login"
      (BodyValue (loginBody username password)) (withAuthOption false) in
  buildRequest (baseURL env) (client w) options
  = ({| req_url :=
          stripTrailingSlashes (baseURL env) +:+ "/api/auth/login";
        req_method := POST;
        req_headers := contentHeaders options;
        req_body := Some (JsonText (loginBody username password)) |},
     client w).
Proof. intros options. by rewrite buildRequest_fields. Qed.

(** X26.  [login] posts the user name and the password to
    [/api/auth/login] without an [Authorization] header, whatever token
    is stored.  When the request fails it rejects with the message of
    that failure and leaves user, token and token store as they were.
    When the answer has a status from 200 to 299 and a string as [token],
    it resolves, the token is in the state, in memory and in a working
    storage, and a token that is not empty is found by the next
    [getAuthToken]; when such an answer is not JSON it rejects and stores
    nothing. *)
Theorem login_spec (env : Env) (username password : string) (w : World)
    (a : AuthState) :
  let result := login env username password w a in
  let idle :=
    {| auth_user := auth_user a; auth_token := auth_token a;
       auth_loading := false; auth_initialized := auth_initialized a |} in
  ∃ request fields,
    let w1 := {| client := client w; sent := sent w ++ [request] |} in
    req_method request = POST
    ∧ req_url request
      = stripTrailingSlashes (baseURL env) +:+ "/api/auth/login"
    ∧ req_body request = Some (JsonText (JObject fields))
    ∧ fields !! "username" = Some (JString username)
    ∧ fields !! "password" = Some (JString password)
    ∧ req_headers request !! "Authorization" = None
    ∧ (transport env (sent w) request = None →
       result = Some (idle, w1, Some (networkErrorText env)))
    ∧ (∀ response,
         transport env (sent w) request = Some response →
         ¬ (200 ≤ status response ≤ 299) →
         result
         = Some (idle, w1,
                 Some (errorMessage response (responseDataOf response))))
    ∧ (∀ response,
         transport env (sent w) request = Some response →
         200 ≤ status response ≤ 299 →
         isNull (responseDataOf response) = true →
         result = Some (idle, w1, Some (typeErrorText env)))
    ∧ (∀ response t,
         transport env (sent w) request = Some response →
         200 ≤ status response ≤ 299 →
         getProperty (responseDataOf response) "token"
         = Some (JString t) →
         ∃ a' w',
           result = Some (a', w', None)
           ∧ auth_token a' = Some t
           ∧ auth_user a'
             = default JNull (getProperty (responseDataOf response) "user")
           ∧ auth_loading a' = false
           ∧ sent w' = sent w ++ [request]
           ∧ authToken (client w') = Some t
           ∧ (t ≠ "" → (getAuthToken (client w')).1 = Some t)
           ∧ ∀ stored,
               localStorage (client w) = StorageSlot stored →
               localStorage (client w') = StorageSlot (Some t)).
Proof.
  intros result idle. subst result idle. unfold login.
  rewrite send_fields.
  exists (buildRequest (baseURL env) (client w)
            (postOptions "/api/auth/login"
               (BodyValue (loginBody username password))
               (withAuthOption false))).1.
  rewrite login_request. cbn [fst snd]. eexists. cbn zeta.
  split; [done |]. split; [done |]. split; [reflexivity |].
  split; [done |]. split; [done |]. split.
  { cbn [req_headers]. unfold contentHeaders. simpl.
    rewrite lookup_insert_ne by done.
    rewrite lookup_union_r by done. by rewrite lookup_singleton_ne. }
  split; [by intros -> |]. split; [| split].
  - intros response -> Hbad. by rewrite handleResponse_not_ok.
  - intros response -> Hok Hnull. rewrite handleResponse_ok by done.
    by rewrite Hnull.
  - intros response t -> Hok Htoken. rewrite handleResponse_ok by done.
    assert (isNull (responseDataOf response) = false) as ->.
    { by destruct (responseDataOf response). }
    rewrite Htoken. eexists _, _. split; [reflexivity |].
    cbn [auth_token auth_user auth_loading sent client].
    split; [done |]. split; [done |]. split; [done |]. split; [done |].
    split; [done |]. split; [by apply getAuthToken_set |].
    intros stored Hs. unfold setAuthToken. by rewrite Hs.
Qed.

Lemma login_spec_witness :
  let response :=
    {| status := 200; contentType := Some "application/json";
       json := Some (JObject {[ "token" := JString "tok";
                                "user" := JObject ∅ ]}) |} in
  let env := {| baseURL := "https://lms.example";
                transport := λ _ _, Some response;
                networkErrorText := "Failed to fetch";
                typeErrorText := "Cannot read properties of null" |} in
  let w := {| client := initialState (StorageSlot None); sent := [] |} in
  let a := {| auth_user := JNull; auth_token := None;
              auth_loading := false; auth_initialized := true |} in
  ∃ a' w',
    login env "admin" "password123" w a = Some (a', w', None)
    ∧ auth_token a' = Some "tok"
    ∧ (getAuthToken (client w')).1 = Some "tok"
    ∧ localStorage (client w') = StorageSlot (Some "tok").
Proof.
  intros response env w a.
  destruct (login_spec env "admin" "password123" w a)
    as (request & fields & _ & _ & _ & _ & _ & _ & _ & _ & _ & Hok).
  destruct (Hok response "tok" eq_refl)
    as (a' & w' & Hres & Htoken & _ & _ & _ & _ & Hget & Hslot);
    [simpl; lia | reflexivity |].
  exists a', w'. split; [exact Hres |]. split; [exact Htoken |].
  split; [by apply Hget |]. by apply (Hslot None).
Defined.

Lemma getAuthToken_again (st : ClientState) :
  (getAuthToken (getAuthToken st).2).1 = (getAuthToken st).1.
Proof.
  destruct (getAuthToken st).1 as [t|] eqn:Hget.
  - destruct (getAuthToken_found st t Hget) as (Hne & Hmem & _).
    unfold getAuthToken at 1. rewrite Hmem. simpl.
    by rewrite bool_decide_eq_false_2.
  - rewrite (getAuthToken_none st Hget). cbn [snd]. exact Hget.
Qed.

Lemma buildRequest_token (API_BASE_URL : string) (st : ClientState)
    (options : ApiRequestOptions) :
  (getAuthToken (buildRequest API_BASE_URL st options).2).1
  = (getAuthToken st).1.
Proof.
  rewrite buildRequest_fields. cbn [snd]. unfold authHeaders.
  destruct (default true (withAuth options)); [| done].
  unfold resolveToken. destruct (tokenOverride options) as [t|].
  - by destruct (truthyString (Some t)).
  - pose proof (getAuthToken_again st) as Hst.
    destruct (getAuthToken st) as [token st']. simpl in Hst.
    by destruct (truthyString token).
Qed.

(** X27.  [refreshUser] does nothing without a token in the state.
    Otherwise it sends one GET to [/api/auth/me]; after a status from 200
    to 299 the response value becomes the user; after a failure it
    rejects and, unlike [initAuth], keeps the user and leaves the token
    where it is, in the state and in the store. *)
Theorem refreshUser_spec (env : Env) (w : World) (a : AuthState) :
  let result := refreshUser env w a in
  (truthyString (auth_token a) = false → result = (a, w, None))
  ∧ (truthyString (auth_token a) = true →
     ∃ request,
       sent result.1.2 = sent w ++ [request]
       ∧ req_method request = GET
       ∧ req_url request
         = stripTrailingSlashes (baseURL env) +:+ "/api/auth/me"
       ∧ auth_token result.1.1 = auth_token a
       ∧ auth_loading result.1.1 = false
       ∧ (getAuthToken (client result.1.2)).1 = (getAuthToken (client w)).1
       ∧ localStorage (client result.1.2) = localStorage (client w)
       ∧ (∀ response,
            transport env (sent w) request = Some response →
            200 ≤ status response ≤ 299 →
            auth_user result.1.1 = responseDataOf response
            ∧ result.2 = None)
       ∧ ((∀ response,
             transport env (sent w) request = Some response →
             ¬ (200 ≤ status response ≤ 299)) →
          auth_user result.1.1 = auth_user a
          ∧ ∃ message, result.2 = Some message)).
Proof.
  intros result. subst result. unfold refreshUser.
  split; [by intros -> |]. intros ->. cbn [negb].
  rewrite send_fields.
  set (options := getOptions "/api/auth/me" None noOptions).
  set (request := (buildRequest (baseURL env) (client w) options).1).
  exists request.
  assert (req_method request = GET) as Hmethod.
  { by subst request; rewrite buildRequest_fields. }
  assert (req_url request
          = stripTrailingSlashes (baseURL env) +:+ "/api/auth/me") as Hurl.
  { subst request. rewrite buildRequest_fields. cbn [fst req_url].
    unfold buildUrl. cbn [path query options getOptions addQuery].
    apply (auth_path_url _ "me"). }
  pose proof (buildRequest_token (baseURL env) (client w) options) as Htok.
  pose proof (buildRequest_storage (baseURL env) (client w) options) as Hsto.
  destruct (transport env (sent w) request) as [response|] eqn:Ht;
    [destruct (decide (200 ≤ status response ≤ 299)) as [Hok|Hbad] |].
  - rewrite handleResponse_ok by done.
    cbn [fst snd sent client auth_user auth_token auth_loading].
    repeat (split; [done |]). split.
    + by intros ? [= <-] _.
    + intros Hfail. by destruct (Hfail response).
  - rewrite handleResponse_not_ok by done.
    cbn [fst snd sent client auth_user auth_token auth_loading].
    repeat (split; [done |]). split.
    + by intros ? [= <-] ?.
    + intros _. split; [done |]. by eexists.
  - cbn [fst snd sent client auth_user auth_token auth_loading].
    repeat (split; [done |]). by eexists.
Qed.

Lemma refreshUser_spec_witness :
  let env := {| baseURL := "https://lms.example";
                transport := λ _ _, None;
                networkErrorText := "Failed to fetch";
                typeErrorText := "Cannot read properties of null" |} in
  let w := {| client := setAuthToken "tok" (initialState (StorageSlot None));
              sent := [] |} in
  let a := {| auth_user := JObject ∅; auth_token := Some "tok";
              auth_loading := false; auth_initialized := true |} in
  (getAuthToken (client (refreshUser env w a).1.2)).1 = Some "tok"
  ∧ ∃ message, (refreshUser env w a).2 = Some message.
Proof.
  intros env w a.
  destruct (refreshUser_spec env w a) as (_ & Hsend).
  destruct Hsend as (request & _ & _ & _ & _ & _ & Htok & _ & _ & Hfail);
    [reflexivity |].
  split; [by rewrite Htok |].
  destruct Hfail as (_ & Hmsg); [| exact Hmsg]. by intros r [=].
Defined.

(** X28.  The layout shows its pages only when its guard asks for no
    redirect, and once the context is initialized and idle it shows them
    whenever the guard asks for none.  Before initialization the guard
    does nothing.  After it, a missing user is sent to the login page,
    a user who must change the password to the password page whatever
    the role, and any other user whose role is not [superadmin] to
    [/unauthorized]. *)
Theorem guard_agrees (a : AuthState) :
  let user := auth_user a in
  let mustChange :=
    truthyProperty (getProperty user "force_password_change") in
  (isAllowed a = true → guardRedirect a = None)
  ∧ (auth_initialized a = false →
     guardRedirect a = None ∧ isAllowed a = false)
  ∧ (auth_initialized a = true → auth_loading a = false →
     guardRedirect a = None → isAllowed a = true)
  ∧ (auth_initialized a = true → truthy user = false →
     guardRedirect a
     = Some ("/login?message="
             +:+ "Silakan%20login%20untuk%20mengakses%20halaman%20ini."))
  ∧ (auth_initialized a = true → truthy user = true →
     mustChange = true →
     guardRedirect a
     = Some ("/change-password?message="
             +:+ "Silakan%20ganti%20password%20sebelum%20mengakses%20LMS."))
  ∧ (auth_initialized a = true → truthy user = true →
     mustChange = false →
     isString (getProperty user "role") "superadmin" = false →
     guardRedirect a = Some "/unauthorized").
Proof.
  intros user mustChange. subst user mustChange.
  unfold isAllowed, guardRedirect.
  destruct (auth_initialized a), (auth_loading a), (truthy (auth_user a)),
    (truthyProperty (getProperty (auth_user a) "force_password_change")),
    (isString (getProperty (auth_user a) "role") "superadmin");
    cbn [negb andb];
    repeat match goal with |- _ ∧ _ => split end;
    intros; try done; by vm_compute.
Qed.

Lemma guard_agrees_witness :
  let a := {| auth_user :=
                JObject {[ "role" := JString "mahasiswa";
                           "force_password_change" := JBool true ]};
              auth_token := Some "tok"; auth_loading := false;
              auth_initialized := true |} in
  guardRedirect a
  = Some ("/change-password?message="
          +:+ "Silakan%20ganti%20password%20sebelum%20mengakses%20LMS.")
  ∧ isAllowed a = false.
Proof.
  intros a.
  destruct (guard_agrees a) as (Hallowed & _ & _ & _ & Hchange & _).
  assert (guardRedirect a
          = Some ("/change-password?message="
                  +:+ "Silakan%20ganti%20password%20sebelum%20mengakses%20LMS."))
    as Hredirect by (apply Hchange; reflexivity).
  split; [exact Hredirect |].
  destruct (isAllowed a) eqn:Ha; [| reflexivity].
  rewrite (Hallowed eq_refl) in Hredirect. discriminate.
Defined.

(** X29.  The page for changing the password sends nothing when a field
    is empty or when the new password and its confirmation differ, and
    says so.  Otherwise it posts the old password under both
    [old_password] and [current_password], with the new one and its
    confirmation.  When that request fails, or its answer is not JSON,
    the fields stay as typed, no success is shown, the error text is not
    empty and nothing more happens.  When it succeeds the fields are
    emptied, a success message that is not empty is shown and the user
    is refreshed; the route is then replaced by the dashboard of the
    role that the user had before the refresh, unless the refresh fails,
    in which case an error is shown beside the success message and the
    route stays. *)
Theorem change_password_spec (env : Env) (w : World) (a : AuthState)
    (p : ChangePassword.PageState) :
  let result := ChangePassword.handleSubmit env w a p in
  let page := result.1.1.1 in
  let failed (text : string) :=
    {| ChangePassword.oldPassword := ChangePassword.oldPassword p;
       ChangePassword.newPassword := ChangePassword.newPassword p;
       ChangePassword.confirmPassword := ChangePassword.confirmPassword p;
       ChangePassword.error := Some text;
       ChangePassword.success := None |} in
  let empty :=
    ChangePassword.oldPassword p = "" ∨ ChangePassword.newPassword p = ""
    ∨ ChangePassword.confirmPassword p = "" in
  (empty → result = (failed "Semua field wajib diisi.", a, w, None))
  ∧ (¬ empty →
     ChangePassword.newPassword p ≠ ChangePassword.confirmPassword p →
     result = (failed "Konfirmasi password baru tidak sama.", a, w, None))
  ∧ (¬ empty →
     ChangePassword.newPassword p = ChangePassword.confirmPassword p →
     ∃ request fields w1,
       sent w1 = sent w ++ [request]
       ∧ req_method request = POST
       ∧ req_url request
         = stripTrailingSlashes (baseURL env)
           +:+ "/api/auth/change-password"
       ∧ req_body request = Some (JsonText (JObject fields))
       ∧ fields !! "old_password"
         = Some (JString (ChangePassword.oldPassword p))
       ∧ fields !! "current_password"
         = Some (JString (ChangePassword.oldPassword p))
       ∧ fields !! "new_password"
         = Some (JString (ChangePassword.newPassword p))
       ∧ fields !! "new_password_confirmation"
         = Some (JString (ChangePassword.newPassword p))
       ∧ ((∀ response,
             transport env (sent w) request = Some response →
             200 ≤ status response ≤ 299 →
             isNull (responseDataOf response) = true) →
          ∃ text, text ≠ "" ∧ result = (failed text, a, w1, None))
       ∧ (∀ response,
            transport env (sent w) request = Some response →
            200 ≤ status response ≤ 299 →
            isNull (responseDataOf response) = false →
            let refreshed := refreshUser env w1 a in
            ChangePassword.oldPassword page = ""
            ∧ ChangePassword.newPassword page = ""
            ∧ ChangePassword.confirmPassword page = ""
            ∧ (∃ shown, ChangePassword.success page = Some shown
                        ∧ truthy shown = true)
            ∧ result.1.1.2 = refreshed.1.1
            ∧ result.1.2 = refreshed.1.2
            ∧ match refreshed.2 with
              | None =>
                  ChangePassword.error page = None
                  ∧ result.2
                    = ChangePassword.redirectToDashboard (auth_user a)
              | Some _ =>
                  (∃ text, ChangePassword.error page = Some text
                           ∧ text ≠ "")
                  ∧ result.2 = None
              end)).
Proof.
  intros result page failed empty. subst result page failed empty.
  unfold ChangePassword.handleSubmit.
  split; [| split].
  - intros [H|[H|H]]; rewrite H.
    + done.
    + by rewrite orb_true_r.
    + by rewrite orb_true_r.
  - intros Hne Hdiff.
    destruct (bool_decide _ || bool_decide _ || bool_decide _) eqn:Hb.
    { destruct Hne. rewrite !orb_true_iff, !bool_decide_eq_true in Hb.
      tauto. }
    by rewrite bool_decide_eq_false_2.
  - intros Hne Hsame.
    destruct (bool_decide _ || bool_decide _ || bool_decide _) eqn:Hb.
    { destruct Hne. rewrite !orb_true_iff, !bool_decide_eq_true in Hb.
      tauto. }
    rewrite bool_decide_eq_true_2 by done. cbn [negb].
    rewrite send_fields.
    set (options := postOptions "/api/auth/change-password"
                      (BodyValue (ChangePassword.payload p))
                      (withAuthOption true)).
    set (request := (buildRequest (baseURL env) (client w) options).1).
    set (w1 := {| client := (buildRequest (baseURL env) (client w)
                               options).2;
                  sent := sent w ++ [request] |}).
    exists request. eexists. exists w1.
    split; [done |].
    split; [by subst request; rewrite buildRequest_fields |].
    split.
    { subst request. rewrite buildRequest_fields. cbn [fst req_url].
      unfold buildUrl. cbn [path query options postOptions withAuthOption
                            addQuery].
      apply (auth_path_url _ "change-password"). }
    split; [subst request; rewrite buildRequest_fields; reflexivity |].
    split; [done |]. split; [done |]. split; [done |].
    split; [by rewrite Hsame |].
    split.
    + intros Hnull. destruct (transport _ _ _) as [response|].
      * destruct (decide (200 ≤ status response ≤ 299)) as [Hok|Hbad].
        -- rewrite handleResponse_ok by done.
           rewrite (Hnull response eq_refl Hok).
           eexists. split; [| reflexivity]. by apply orElse_not_empty.
        -- rewrite handleResponse_not_ok by done.
           eexists. split; [| reflexivity]. by apply orElse_not_empty.
      * eexists. split; [| reflexivity]. by apply orElse_not_empty.
    + intros response -> Hok Hdata. rewrite handleResponse_ok by done.
      rewrite Hdata. cbn zeta.
      destruct (refreshUser env w1 a) as [[a' w2] [text|]];
        cbn [fst snd ChangePassword.oldPassword ChangePassword.newPassword
             ChangePassword.confirmPassword ChangePassword.success
             ChangePassword.error].
      * split; [done |]. split; [done |]. split; [done |]. split.
        { eexists. split; [done |].
          destruct (truthyProperty _) eqn:Hm; [| done].
          by destruct (getProperty _ "message"). }
        split; [done |]. split; [done |]. split; [| done].
        eexists. split; [done |]. by apply orElse_not_empty.
      * split; [done |]. split; [done |]. split; [done |]. split.
        { eexists. split; [done |].
          destruct (truthyProperty _) eqn:Hm; [| done].
          by destruct (getProperty _ "message"). }
        done.
Qed.

Lemma change_password_spec_witness :
  let response := {| status := 200; contentType := None; json := None |} in
  let env := {| baseURL := "https://lms.example";
                transport := λ _ _, Some response;
                networkErrorText := "Failed to fetch";
                typeErrorText := "Cannot read properties of null" |} in
  let w := {| client := initialState NoWindow; sent := [] |} in
  let a := {| auth_user := JObject ∅; auth_token := Some "tok";
              auth_loading := false; auth_initialized := true |} in
  let p := {| ChangePassword.oldPassword := "old";
              ChangePassword.newPassword := "new";
              ChangePassword.confirmPassword := "new";
              ChangePassword.error := None;
              ChangePassword.success := None |} in
  ∃ text w1,
    text ≠ ""
    ∧ ChangePassword.handleSubmit env w a p
      = ({| ChangePassword.oldPassword := "old";
            ChangePassword.newPassword := "new";
            ChangePassword.confirmPassword := "new";
            ChangePassword.error := Some text;
            ChangePassword.success := None |}, a, w1, None).
Proof.
  intros response env w a p.
  destruct (change_password_spec env w a p) as (_ & _ & Hsend).
  destruct Hsend
    as (request & fields & w1 & _ & _ & _ & _ & _ & _ & _ & _ & Hfail & _).
  - intros [H|[H|H]]; discriminate.
  - reflexivity.
  - destruct Hfail as (text & Hne & Hres); [by intros r [= <-] _ |].
    by exists text, w1.
Defined.

(** X30.  [fetchPing] hands [fetch] one GET for [/api/ping] with the
    [Accept] header alone: no query, no body and no [Authorization],
    whatever token is stored; it settles as that request does and leaves
    the token store as it was. *)
Theorem fetchPing_spec (API_BASE_URL : string)
    (fetch : Request → option Response) (st : ClientState) :
  let request :=
    {| req_url := stripTrailingSlashes API_BASE_URL +:+ "/api/ping";
       req_method := GET;
       req_headers := {[ "Accept" := "application/json" ]};
       req_body := None |} in
  fetchPing API_BASE_URL fetch st
  = (match fetch request with
     | Some response => handleResponse response
     | None => FetchRejected
     end, st).
Proof.
  intros request. subst request. unfold fetchPing, apiGet.
  rewrite apiRequest_fields, buildRequest_fields. cbn [fst snd].
  unfold authHeaders, contentHeaders, buildUrl.
  cbn [withAuth body headers path query method default addQuery fst snd].
  by rewrite (left_id_L ∅ (∪)).
Qed.
